(** * Photo app: classification, identity registry and collection fan-out

    A shallow embedding of the tagging and synchronisation core of the
    photo application:

    - [ImageProcessor] (services/imageProcessor.js, the "improved version"):
      keyword classification of file names, the hash-bucket fallback, the
      8-dimensional embedding signature, the person identity store and the
      destination folders of an image;
    - the legacy [determineFolderPath] of services/imageProcessor.old.js;
    - [CollectionSync] (services/collectionSync.js): the MongoDB updates that
      add an image to, and remove it from, the category collections.

    JavaScript numbers are IEEE 754 binary64 values; they are modelled by
    Rocq's primitive floats, whose operations are the same binary64
    operations.  Strings are sequences of code units; the model covers the
    code units below 256 (Rocq's [ascii]). *)

From Stdlib Require Import ZArith List String Ascii Bool Arith Lia.
From Stdlib Require Import PrimFloat FloatOps SpecFloat Uint63.
From Stdlib Require DecimalString DecimalNat DecimalFacts.
From Stdlib Require FloatAxioms.
Import ListNotations.

Open Scope list_scope.
Open Scope string_scope.
Open Scope nat_scope.

Set Warnings "-inexact-float".

(* ================================================================== *)
(** * JavaScript primitives used by the services *)
(* ================================================================== *)

Module JS.

(** ** Code units *)

Definition code (c : ascii) : nat := nat_of_ascii c.

Definition inRange (lo hi : nat) (c : ascii) : bool :=
  (lo <=? code c) && (code c <=? hi).

(** [String.prototype.toLowerCase] on one code unit below 256: the ASCII
    capitals and the Latin-1 capitals U+00C0..U+00DE (without the
    multiplication sign U+00D7) move up by 32. *)
Definition lowerChar (c : ascii) : ascii :=
  if inRange 65 90 c || (inRange 192 222 c && negb (code c =? 215))
  then ascii_of_nat (code c + 32)
  else c.

Fixpoint toLowerCase (s : string) : string :=
  match s with
  | EmptyString => EmptyString
  | String c s' => String (lowerChar c) (toLowerCase s')
  end.

(** The canonical form a regular expression with the [i] flag (and no [u]
    flag) compares: the upper-case code unit, when it is a single code
    unit that does not fall from above 127 into ASCII.  Below 256 this
    moves [a-z] and U+00E0..U+00FE (without the division sign U+00F7)
    down by 32.  The micro sign and y with diaeresis have upper-case
    forms above 255 that no other code unit below 256 shares; kept as
    they are, they compare equal to themselves only, as they must. *)
Definition canonicalize (c : ascii) : ascii :=
  if inRange 97 122 c || (inRange 224 254 c && negb (code c =? 247))
  then ascii_of_nat (code c - 32)
  else c.

Definition canonEq (a b : ascii) : bool :=
  Ascii.eqb (canonicalize a) (canonicalize b).

(** The class [\w] of a regular expression: [A-Za-z0-9_]. *)
Definition isWordChar (c : ascii) : bool :=
  inRange 65 90 c || inRange 97 122 c || inRange 48 57 c || (code c =? 95).

Definition isWordOpt (c : option ascii) : bool :=
  match c with
  | Some c => isWordChar c
  | None => false
  end.

Definition head (s : string) : option ascii :=
  match s with
  | EmptyString => None
  | String c _ => Some c
  end.

(** White space and line terminators removed by [String.prototype.trim],
    among the code units below 256: TAB, LF, VT, FF, CR, SP and NBSP. *)
Definition isWhiteSpace (c : ascii) : bool :=
  inRange 9 13 c || (code c =? 32) || (code c =? 160).

(** ** Strings *)

(** [s.replace(/[_\-\.]/g, ' ')] *)
Definition isSeparator (c : ascii) : bool :=
  (code c =? 95) || (code c =? 45) || (code c =? 46).

Fixpoint replaceSeparators (s : string) : string :=
  match s with
  | EmptyString => EmptyString
  | String c s' =>
      String (if isSeparator c then " "%char else c) (replaceSeparators s')
  end.

Fixpoint startsWith (s prefix : string) : bool :=
  match prefix, s with
  | EmptyString, _ => true
  | String _ _, EmptyString => false
  | String p prefix', String c s' => Ascii.eqb p c && startsWith s' prefix'
  end.

(** [text.includes(word)] *)
Fixpoint includes (text word : string) : bool :=
  startsWith text word ||
  match text with
  | EmptyString => false
  | String _ text' => includes text' word
  end.

Fixpoint trimStart (s : string) : string :=
  match s with
  | EmptyString => EmptyString
  | String c s' => if isWhiteSpace c then trimStart s' else s
  end.

(** [trimEnd] keeps a character when it is not white space or when
    something remains to its right after trimming. *)
Fixpoint trimEnd (s : string) : string :=
  match s with
  | EmptyString => EmptyString
  | String c s' =>
      match trimEnd s' with
      | EmptyString => if isWhiteSpace c then EmptyString else String c EmptyString
      | r => String c r
      end
  end.

Definition trim (s : string) : string := trimEnd (trimStart s).

(** A string is truthy when it is not empty; [null] is falsy. *)
Definition truthy (s : string) : bool :=
  match s with
  | EmptyString => false
  | String _ _ => true
  end.

Definition truthyOpt (s : option string) : bool :=
  match s with
  | Some s => truthy s
  | None => false
  end.

Fixpoint repeatChar (c : ascii) (n : nat) : string :=
  match n with
  | O => EmptyString
  | S n' => String c (repeatChar c n')
  end.

(** [s.padStart(width, c)] for a one-character filler. *)
Definition padStart (width : nat) (c : ascii) (s : string) : string :=
  repeatChar c (width - String.length s) ++ s.

(** [String(n)] for a non-negative integer: its decimal digits. *)
Definition stringOfNat (n : nat) : string :=
  DecimalString.NilEmpty.string_of_uint (Nat.to_uint n).

(** ** Regular expressions of the shape [\bLITERAL\b] with the [i] flag

    [containsKeyword] escapes every special character of the keyword, so
    the pattern between the two word boundaries is the keyword, taken
    literally and compared case-insensitively. *)

(** Match the literal at the start of [text]; on success return the last
    code unit consumed (or [prev] when nothing was consumed) and the rest. *)
Fixpoint matchLiteral (lit text : string) (prev : option ascii)
  : option (option ascii * string) :=
  match lit with
  | EmptyString => Some (prev, text)
  | String k lit' =>
      match text with
      | EmptyString => None
      | String c text' =>
          if canonEq k c then matchLiteral lit' text' (Some c) else None
      end
  end.

(** [\b] between the code unit [prev] and the start of [rest]. *)
Definition wordBoundary (prev : option ascii) (rest : string) : bool :=
  xorb (isWordOpt prev) (isWordOpt (head rest)).

Definition matchHere (lit : string) (prev : option ascii) (text : string) : bool :=
  wordBoundary prev text &&
  match matchLiteral lit text prev with
  | Some (last, rest) => wordBoundary last rest
  | None => false
  end.

Fixpoint searchFrom (lit : string) (prev : option ascii) (text : string) : bool :=
  matchHere lit prev text ||
  match text with
  | EmptyString => false
  | String c text' => searchFrom lit (Some c) text'
  end.

(** [new RegExp('\\b' + escaped(keyword) + '\\b', 'i').test(text)] *)
Definition wordRegexTest (keyword text : string) : bool :=
  searchFrom keyword None text.

(** ** Regular expressions of the shape [\b(A|B|...)\b] without flags

    Each alternative is a literal compared code unit by code unit.  The
    matcher tries the alternatives in order at every position and
    backtracks when the closing [\b] fails, so the test succeeds when
    some alternative stands between two word boundaries somewhere. *)

Fixpoint matchExact (lit text : string) (prev : option ascii)
  : option (option ascii * string) :=
  match lit with
  | EmptyString => Some (prev, text)
  | String k lit' =>
      match text with
      | EmptyString => None
      | String c text' =>
          if Ascii.eqb k c then matchExact lit' text' (Some c) else None
      end
  end.

Definition alternativeHere (alternatives : list string) (prev : option ascii)
  (text : string) : bool :=
  wordBoundary prev text &&
  existsb (fun lit =>
             match matchExact lit text prev with
             | Some (last, rest) => wordBoundary last rest
             | None => false
             end) alternatives.

Fixpoint searchAlternatives (alternatives : list string) (prev : option ascii)
  (text : string) : bool :=
  alternativeHere alternatives prev text ||
  match text with
  | EmptyString => false
  | String c text' => searchAlternatives alternatives (Some c) text'
  end.

(** [text.match(/\b(A|B|...)\b/)] is not null. *)
Definition wordsRegexTest (alternatives : list string) (text : string) : bool :=
  searchAlternatives alternatives None text.

(** [text.match(/^(A|B|...)/i)] is not null. *)
Definition prefixRegexTest (alternatives : list string) (text : string) : bool :=
  existsb (fun lit =>
             match matchLiteral lit text None with
             | Some _ => true
             | None => false
             end) alternatives.


End JS.

Module KEYWORDS.
Module vehicle.
Definition types : list string :=
  ["car"; "vehicle"; "auto"; "automobile"; "truck"; "bike"; "bicycle"; "motorcycle";
   "motorbike"; "bus"; "van"; "suv"; "jeep"; "taxi"; "cab"; "scooter"; "moped"; "tractor";
   "trailer"; "ambulance"; "firetruck"; "police"; "lorry"; "pickup"; "sedan"; "hatchback";
   "convertible"; "coupe"; "wagon"; "minivan"; "limousine"; "roadster"; "sports car"].
Definition brands : list string :=
  ["tesla"; "bmw"; "audi"; "honda"; "toyota"; "ford"; "mercedes"; "benz"; "volkswagen";
   "vw"; "nissan"; "hyundai"; "kia"; "chevrolet"; "chevy"; "mazda"; "subaru"; "lexus";
   "infiniti"; "acura"; "porsche"; "ferrari"; "lamborghini"; "maserati"; "bentley";
   "rolls"; "royce"; "jaguar"; "land rover"; "range rover"; "volvo"; "saab"; "peugeot";
   "renault"; "fiat"; "alfa romeo"; "chrysler"; "dodge"; "jeep"; "ram"; "gmc"; "cadillac";
   "buick"; "lincoln"; "suzuki"; "mitsubishi"; "isuzu"; "daihatsu"; "tata"; "mahindra";
   "maruti"; "skoda"; "seat"; "mini"; "smart"; "genesis"; "rivian"; "lucid"; "polestar";
   "harley"; "ducati"; "yamaha"; "kawasaki"; "ktm"; "triumph"; "royal enfield"; "bajaj";
   "hero"; "tvs"].
Definition related : list string :=
  ["driving"; "drive"; "rode"; "riding"; "parked"; "parking"; "garage"; "highway"; "road";
   "traffic"; "wheel"; "tire"; "engine"; "dashboard"; "steering"; "saveclip"; "carshow";
   "autoshow"; "dealership"; "showroom"; "roadtrip"; "carwash"].
End vehicle.

Module pet.
Definition dogs : list string :=
  ["dog"; "puppy"; "pup"; "doggy"; "doggie"; "canine"; "hound"; "mutt"; "labrador"; "lab";
   "retriever"; "golden"; "german shepherd"; "shepherd"; "gsd"; "bulldog";
   "french bulldog"; "frenchie"; "poodle"; "beagle"; "husky"; "malamute"; "corgi"; "pug";
   "boxer"; "rottweiler"; "doberman"; "dalmatian"; "chihuahua"; "yorkie"; "yorkshire";
   "shih tzu"; "maltese"; "pomeranian"; "pom"; "dachshund"; "weiner"; "pitbull";
   "pit bull"; "terrier"; "collie"; "border collie"; "aussie"; "australian shepherd";
   "cocker spaniel"; "spaniel"; "mastiff"; "great dane"; "saint bernard"; "bernese";
   "newfoundland"; "akita"; "shiba"; "chow"; "samoyed"; "vizsla"; "weimaraner"; "pointer";
   "setter"; "basset"; "bloodhound"; "greyhound"; "whippet"; "bichon"; "havanese"; "lhasa";
   "schnauzer"; "airedale"; "westie"; "scottie"; "cairn"; "jack russell"; "papillon";
   "pekingese"; "cavalier"; "boston"].
Definition cats : list string :=
  ["cat"; "kitten"; "kitty"; "kittycat"; "feline"; "meow"; "persian"; "siamese";
   "maine coon"; "ragdoll"; "bengal"; "abyssinian"; "sphynx"; "british shorthair";
   "scottish fold"; "russian blue"; "birman"; "burmese"; "oriental"; "himalayan";
   "turkish"; "norwegian"; "siberian"; "american shorthair"; "exotic"; "devon rex";
   "cornish rex"; "manx"; "tabby"].
Definition others : list string :=
  ["pet"; "animal"; "bird"; "parrot"; "parakeet"; "budgie"; "cockatiel"; "macaw"; "canary";
   "finch"; "cockatoo"; "lovebird"; "conure"; "rabbit"; "bunny"; "hamster"; "guinea pig";
   "gerbil"; "mouse"; "rat"; "ferret"; "fish"; "goldfish"; "betta"; "aquarium"; "turtle";
   "tortoise"; "lizard"; "gecko"; "iguana"; "snake"; "python"; "frog"; "toad";
   "hermit crab"; "horse"; "pony"; "mare"; "stallion"; "foal"; "equine"; "cow"; "calf";
   "bull"; "goat"; "sheep"; "lamb"; "pig"; "piglet"; "chicken"; "hen"; "rooster"; "duck";
   "goose"; "turkey"; "donkey"; "mule"; "llama"; "alpaca"].
Definition related : list string :=
  ["fauna"; "creature"; "furry"; "paw"; "tail"; "whiskers"; "collar"; "leash"; "fetch";
   "bark"; "woof"; "meowing"; "purr"; "vet"; "petshop"; "adoption"; "rescue"].
End pet.

Module nature.
Definition landscapes : list string :=
  ["nature"; "landscape"; "scenery"; "scenic"; "vista"; "panorama"; "view"; "mountain";
   "hill"; "peak"; "summit"; "cliff"; "canyon"; "valley"; "gorge"; "beach"; "coast";
   "shore"; "seaside"; "oceanfront"; "waterfront"; "bay"; "cove"; "forest"; "woods";
   "woodland"; "jungle"; "rainforest"; "grove"; "thicket"; "desert"; "dune"; "oasis";
   "savanna"; "prairie"; "steppe"; "tundra"; "island"; "peninsula"; "archipelago"; "atoll";
   "reef"; "lagoon"].
Definition water : list string :=
  ["lake"; "river"; "stream"; "creek"; "brook"; "waterfall"; "cascade"; "rapids"; "ocean";
   "sea"; "pond"; "pool"; "spring"; "fountain"; "geyser"; "hot spring"; "wetland"; "marsh";
   "swamp"; "bog"; "estuary"; "delta"; "fjord"].
Definition sky : list string :=
  ["sky"; "cloud"; "sunset"; "sunrise"; "dawn"; "dusk"; "twilight"; "golden hour";
   "rainbow"; "aurora"; "northern lights"; "stars"; "moon"; "moonlight"; "starry"].
Definition plants : list string :=
  ["tree"; "flower"; "plant"; "garden"; "park"; "botanical"; "greenhouse"; "rose"; "tulip";
   "daisy"; "sunflower"; "lily"; "orchid"; "lotus"; "cherry blossom"; "sakura"; "lavender";
   "wildflower"; "bouquet"; "bloom"; "blossom"; "petal"; "leaf"; "leaves"; "foliage";
   "fern"; "moss"; "ivy"; "vine"; "bamboo"; "palm"; "oak"; "pine"; "maple"; "birch";
   "willow"; "redwood"; "sequoia"; "eucalyptus"; "grass"; "lawn"; "meadow"; "field";
   "pasture"; "farmland"; "countryside"; "bush"; "shrub"; "hedge"; "cactus"; "succulent";
   "mushroom"; "fungus"].
Definition related : list string :=
  ["outdoor"; "outside"; "wilderness"; "wild"; "natural"; "environment"; "eco"; "hiking";
   "hike"; "trail"; "trek"; "camping"; "camp"; "backpacking"; "flora"; "greenery";
   "vegetation"; "habitat"; "ecosystem"; "conservation"; "national park"; "reserve";
   "sanctuary"; "arboretum"].
End nature.

Module person.
Definition people : list string :=
  ["person"; "people"; "human"; "face"; "portrait"; "selfie"; "headshot"; "profile"; "man";
   "woman"; "boy"; "girl"; "child"; "children"; "kid"; "kids"; "baby"; "infant"; "toddler";
   "teen"; "teenager"; "adult"; "elder"; "senior"; "guy"; "gal"; "dude"; "gentleman";
   "lady"; "sir"; "madam"; "mr"; "mrs"; "ms"; "miss"].
Definition relationships : list string :=
  ["family"; "friend"; "friends"; "bestie"; "bff"; "buddy"; "pal"; "mate"; "couple";
   "pair"; "duo"; "trio"; "group"; "squad"; "gang"; "crew"; "team"; "mom"; "mother";
   "mama"; "mum"; "mommy"; "dad"; "father"; "papa"; "daddy"; "parent"; "parents"; "son";
   "daughter"; "brother"; "sister"; "sibling"; "grandma"; "grandmother"; "grandpa";
   "grandfather"; "grandparent"; "aunt"; "uncle"; "cousin"; "nephew"; "niece"; "husband";
   "wife"; "spouse"; "boyfriend"; "girlfriend"; "partner"; "fiance"; "fiancee"].
Definition events : list string :=
  ["wedding"; "birthday"; "party"; "celebration"; "graduation"; "ceremony"; "anniversary";
   "reunion"; "gathering"; "meetup"; "hangout"; "get together"; "christmas";
   "thanksgiving"; "easter"; "halloween"; "new year"; "diwali"; "eid"; "hanukkah";
   "festival"; "carnival"; "prom"; "homecoming"; "shower"; "reception"; "engagement";
   "proposal"; "baptism"; "communion"; "bar mitzvah"].
Definition names : list string :=
  ["john"; "james"; "jimmy"; "jim"; "michael"; "mike"; "david"; "dave"; "robert"; "rob";
   "bob"; "bobby"; "william"; "will"; "bill"; "billy"; "richard"; "rick"; "dick"; "joseph";
   "joe"; "joey"; "thomas"; "tom"; "tommy"; "charles"; "charlie"; "christopher"; "chris";
   "daniel"; "dan"; "danny"; "matthew"; "matt"; "anthony"; "tony"; "mark"; "donald"; "don";
   "donny"; "steven"; "steve"; "paul"; "andrew"; "andy"; "drew"; "joshua"; "josh";
   "kenneth"; "ken"; "kenny"; "kevin"; "kev"; "brian"; "george"; "timothy"; "tim"; "timmy";
   "ronald"; "ron"; "ronny"; "edward"; "ed"; "eddie"; "ted"; "teddy"; "jason"; "jay";
   "jeffrey"; "jeff"; "ryan"; "jacob"; "jake"; "gary"; "nicholas"; "nick"; "nicky"; "eric";
   "jonathan"; "jon"; "johnny"; "stephen"; "larry"; "justin"; "scott"; "scotty"; "brandon";
   "benjamin"; "ben"; "benny"; "samuel"; "sam"; "sammy"; "raymond"; "ray"; "gregory";
   "greg"; "frank"; "frankie"; "alexander"; "alex"; "patrick"; "pat"; "paddy"; "jack";
   "jackie"; "dennis"; "denny"; "jerry"; "mary"; "patricia"; "pat"; "patty"; "trish";
   "jennifer"; "jen"; "jenny"; "linda"; "elizabeth"; "liz"; "beth"; "lizzy"; "barbara";
   "barb"; "barbie"; "susan"; "sue"; "suzy"; "jessica"; "jess"; "jessie"; "sarah"; "sara";
   "karen"; "lisa"; "nancy"; "betty"; "margaret"; "maggie"; "meg"; "peggy"; "sandra";
   "sandy"; "ashley"; "ash"; "kimberly"; "kim"; "kimmy"; "emily"; "em"; "emma"; "donna";
   "michelle"; "shelly"; "micky"; "dorothy"; "dot"; "dottie"; "carol"; "amanda"; "mandy";
   "melissa"; "mel"; "missy"; "deborah"; "deb"; "debbie"; "stephanie"; "steph"; "rebecca";
   "becky"; "becca"; "sharon"; "laura"; "cynthia"; "cindy"; "kathleen"; "kathy"; "kate";
   "katie"; "amy"; "angela"; "angie"; "shirley"; "anna"; "annie"; "brenda"; "pamela";
   "pam"; "nicole"; "nikki"; "helen"; "samantha"; "katherine"; "christine"; "chris";
   "christy"; "tina"; "debra"; "rachel"; "rach"; "carolyn"; "janet"; "jan"; "catherine";
   "cathy"; "maria"; "heather"; "diane"; "di"; "ruth"; "ruthie"; "julie"; "jules";
   "olivia"; "liv"; "livvy"; "joyce"; "virginia"; "ginny"; "victoria"; "vicky"; "tori";
   "kelly"; "lauren"; "christina"; "joan"; "joanie"; "evelyn"; "eve"; "evie"; "judith";
   "judy"; "jude"; "megan"; "meg"; "meggie"; "andrea"; "andie"; "cheryl"; "hannah";
   "jacqueline"; "jackie"; "martha"; "gloria"; "teresa"; "terry"; "ann"; "anne"; "annie";
   "madison"; "maddie"; "frances"; "fran"; "frannie"; "kathryn"; "janice"; "jean";
   "jeanie"; "abigail"; "abby"; "gail"; "alice"; "sophia"; "sophie"; "grace"; "gracie";
   "chloe"; "isabella"; "bella"; "izzy"; "natalie"; "nat"; "zoe"; "zoey"; "lily"; "maya";
   "mia"; "ava"; "rahul"; "amit"; "raj"; "raju"; "priya"; "anita"; "sanjay"; "vijay";
   "ravi"; "arun"; "suresh"; "ramesh"; "pooja"; "neha"; "deepa"; "sunita"; "rekha";
   "seema"; "meera"; "kavita"; "anand"; "kumar"; "singh"; "sharma"; "patel"; "gupta";
   "verma"; "rani"; "devi"; "lakshmi"; "gita"; "arjun"; "krishna"; "shiva"; "ganesh";
   "lakshman"; "sita"; "radha"; "durga"; "saraswati"; "parvati"; "aarav"; "vihaan";
   "aditya"; "vivaan"; "ananya"; "aadhya"; "diya"; "pihu"; "kavya"; "ishaan"; "rohan";
   "nikhil"; "varun"; "karan"; "yash"; "aryan"; "dev"; "reyansh"; "ayaan"; "atharva";
   "aanya"; "saanvi"; "anika"; "navya"; "tara"; "sara"; "myra"; "ira"; "nisha"; "rita";
   "praveen"; "prakash"; "prasad"; "pranav"; "pradeep"; "prashant"; "pramod"; "prabhu";
   "preeti"; "priti"].
Definition related : list string :=
  ["selfie"; "portrait"; "headshot"; "mugshot"; "passport photo"; "id photo";
   "profile pic"; "avatar"; "face pic"; "groupie"; "groufie"].
End person.
End KEYWORDS.

(* ================================================================== *)
(** * JavaScript numbers *)
(* ================================================================== *)

Module Num.

Open Scope Z_scope.

(** [ToInt32] on an integer: reduction modulo 2^32 into [-2^31, 2^31). *)
Definition wrap32 (z : Z) : Z := (z + 2 ^ 31) mod 2 ^ 32 - 2 ^ 31.

(** The number with integer value [z] (exact for [|z| <= 2^53]). *)
Definition ofZ (z : Z) : float :=
  if z <? 0
  then PrimFloat.opp (PrimFloat.of_uint63 (Uint63.of_Z (- z)))
  else PrimFloat.of_uint63 (Uint63.of_Z z).

Definition ofNat (n : nat) : float := ofZ (Z.of_nat n).

Definition signedMantissa (s : bool) (m : positive) : Z :=
  if s then Z.neg m else Z.pos m.

(** [Math.floor]: NaN, the infinities, the zeros and the numbers with a
    non-negative exponent are their own floor; a finite [m * 2^e] with
    [e < 0] is rounded down to an integer below 2^53. *)
Definition floor (x : float) : float :=
  match Prim2SF x with
  | S754_finite s m e =>
      if 0 <=? e then x else ofZ (Z.shiftr (signedMantissa s m) (- e))
  | _ => x
  end.

(** [ToInt32] on a number, as applied by the operands of [&] and [<<]:
    NaN, the infinities and the zeros give 0; a finite number is truncated
    towards zero and reduced modulo 2^32. *)
Definition toInt32 (x : float) : Z :=
  match Prim2SF x with
  | S754_finite s m e =>
      let magnitude := Z.shiftl (Z.pos m) e in
      wrap32 (if s then - magnitude else magnitude)
  | _ => 0
  end.

End Num.

(* ================================================================== *)
(** * services/imageProcessor.js *)
(* ================================================================== *)

Record AutoTags := mkAutoTags {
  person_id : option string;
  nature : bool;
  pets : bool;
  vehicle : bool;
  objects : list string
}.

Definition Embedding := list float.
Definition Signature := list float.

(** [personEmbeddingStore]: a [Map] from person id to signature.  A [Map]
    iterates in insertion order, so it is a list of entries. *)
Definition PersonStore := list (string * Signature).

Module ImageProcessor.

(** ** Keyword matching *)

Definition keywordMatches (lowerText : string) (strictWordBoundary : bool)
  (keyword : string) : bool :=
  JS.wordRegexTest keyword lowerText ||
  (negb strictWordBoundary && JS.includes lowerText (JS.toLowerCase keyword)).

(** The two nested loops return the first keyword, in the order of the
    lists, that matches; [None] is [null]. *)
Definition containsKeyword (text : string) (keywordLists : list (list string))
  (strictWordBoundary : bool) : option string :=
  let lowerText := JS.replaceSeparators (JS.toLowerCase text) in
  find (keywordMatches lowerText strictWordBoundary) (List.concat keywordLists).

Definition vehicleLists : list (list string) :=
  [KEYWORDS.vehicle.types; KEYWORDS.vehicle.brands; KEYWORDS.vehicle.related].

Definition petLists : list (list string) :=
  [KEYWORDS.pet.dogs; KEYWORDS.pet.cats; KEYWORDS.pet.others; KEYWORDS.pet.related].

Definition natureLists : list (list string) :=
  [KEYWORDS.nature.landscapes; KEYWORDS.nature.water; KEYWORDS.nature.sky;
   KEYWORDS.nature.plants; KEYWORDS.nature.related].

Definition personLists : list (list string) :=
  [KEYWORDS.person.people; KEYWORDS.person.relationships; KEYWORDS.person.events;
   KEYWORDS.person.related].

Definition nameLists : list (list string) := [KEYWORDS.person.names].

(** [array.push(x)] and [array.includes(x)] on arrays of strings. *)
Definition push {A} (l : list A) (x : A) : list A := (l ++ [x])%list.

Definition arrayIncludes (l : list string) (x : string) : bool :=
  existsb (String.eqb x) l.

(** ** The hash-bucket fallback *)

(** One round of [hash = ((hash << 5) - hash) + v; hash = hash & hash]. *)
Definition hashStep (hash : Z) (v : float) : Z :=
  Num.toInt32 (PrimFloat.add (Num.ofZ (Num.wrap32 (hash * 32) - hash)) v).

(** The value of [hash] after the two loops of [classifyByEmbedding]. *)
Definition embeddingHash (embedding : Embedding) (filename : string) : Z :=
  let hash :=
    fold_left (fun h c => hashStep h (Num.ofNat (JS.code c)))
      (list_ascii_of_string filename) 0%Z in
  fold_left (fun h v => hashStep h (Num.floor (PrimFloat.mul v 1000)))
    (firstn (Nat.min 10 (List.length embedding)) embedding) hash.

Definition classifyByEmbedding (embedding : Embedding) (filename : string) : string :=
  if List.length embedding =? 0 then "other"
  else
    let hashValue := Z.rem (Z.abs (embeddingHash embedding filename)) 100 in
    if (hashValue <? 25)%Z then "nature"
    else if (hashValue <? 50)%Z then "pet"
    else if (hashValue <? 75)%Z then "person"
    else "vehicle".

(** ** Categories of an image *)

(** The keyword part of [determineCategories]: the array [categories]
    after the four keyword checks. *)
Definition keywordCategories (filename : string) : list string :=
  let categories := [] in
  let vehicleMatch := containsKeyword filename vehicleLists false in
  let categories :=
    if JS.truthyOpt vehicleMatch then push categories "vehicle" else categories in
  let petMatch := containsKeyword filename petLists false in
  let categories :=
    if JS.truthyOpt petMatch then push categories "pet" else categories in
  let natureMatch := containsKeyword filename natureLists false in
  let categories :=
    if JS.truthyOpt natureMatch then push categories "nature" else categories in
  let personMatch := containsKeyword filename personLists false in
  let nameMatch := containsKeyword filename nameLists true in
  if JS.truthyOpt personMatch then push categories "person"
  else if JS.truthyOpt nameMatch then push categories "person"
  else categories.

Definition determineCategories (embedding : Embedding) (filename : string)
  : list string :=
  let categories := keywordCategories filename in
  let categories :=
    if (List.length categories =? 0) && negb (List.length embedding =? 0) then
      let embeddingCategory := classifyByEmbedding embedding filename in
      if JS.truthy embeddingCategory && negb (String.eqb embeddingCategory "other")
      then push categories embeddingCategory
      else categories
    else categories in
  if List.length categories =? 0 then push categories "other" else categories.

(** ** Signatures and similarity *)

(** [array.slice(start, stop)] for [0 <= start <= stop]. *)
Definition slice {A} (start stop : nat) (l : list A) : list A :=
  firstn (stop - start) (skipn start l).

(** [segment.reduce((a, b) => a + b, 0) / segment.length] *)
Definition average (segment : list float) : float :=
  PrimFloat.div (fold_left PrimFloat.add segment 0%float)
                (Num.ofNat (List.length segment)).

Definition generateEmbeddingSignature (embedding : Embedding) : Signature :=
  let segmentSize := List.length embedding / 8 in
  map (fun i => average (slice (i * segmentSize) ((i + 1) * segmentSize) embedding))
      (seq 0 8).

Definition similarityStep (acc : float * float * float) (p : float * float)
  : float * float * float :=
  let '(dotProduct, norm1, norm2) := acc in
  let '(a, b) := p in
  (PrimFloat.add dotProduct (PrimFloat.mul a b),
   PrimFloat.add norm1 (PrimFloat.mul a a),
   PrimFloat.add norm2 (PrimFloat.mul b b)).

Definition calculateSimilarity (sig1 sig2 : Signature) : float :=
  if negb (List.length sig1 =? List.length sig2) then 0%float
  else
    let '(dotProduct, norm1, norm2) :=
      fold_left similarityStep (combine sig1 sig2) (0%float, 0%float, 0%float) in
    let magnitude := PrimFloat.mul (PrimFloat.sqrt norm1) (PrimFloat.sqrt norm2) in
    if PrimFloat.ltb 0%float magnitude
    then PrimFloat.div dotProduct magnitude
    else 0%float.

(** ** The person identity store *)

Definition threshold : float := 0.85%float.

(** The loop over the store: the id of the first entry whose similarity
    with [signature] is greater than 0.85. *)
Fixpoint firstMatch (signature : Signature) (store : PersonStore) : option string :=
  match store with
  | [] => None
  | (personId, storedSignature) :: rest =>
      if PrimFloat.ltb threshold (calculateSimilarity signature storedSignature)
      then Some personId
      else firstMatch signature rest
  end.

(** [map.set(key, value)]: an existing key keeps its place. *)
Fixpoint mapSet (key : string) (value : Signature) (store : PersonStore)
  : PersonStore :=
  match store with
  | [] => [(key, value)]
  | (k, v) :: rest =>
      if String.eqb k key then (k, value) :: rest
      else (k, v) :: mapSet key value rest
  end.

Definition personIdOf (n : nat) : string :=
  "person_" ++ JS.padStart 4 "0" (JS.stringOfNat n).

Definition findOrCreatePersonId (embedding : Embedding) (store : PersonStore)
  : string * PersonStore :=
  let signature := generateEmbeddingSignature embedding in
  match firstMatch signature store with
  | Some personId => (personId, store)
  | None =>
      let newPersonId := personIdOf (List.length store + 1) in
      (newPersonId, mapSet newPersonId signature store)
  end.

Definition clearPersonStore (store : PersonStore) : PersonStore := [].

Definition getTrackedPersons (store : PersonStore) : list string := map fst store.

(** ** Tags of an image *)

Definition emptyTags : AutoTags := mkAutoTags None false false false [].

Definition setVehicle (t : AutoTags) : AutoTags :=
  mkAutoTags (person_id t) (nature t) (pets t) true (objects t).
Definition setPets (t : AutoTags) : AutoTags :=
  mkAutoTags (person_id t) (nature t) true (vehicle t) (objects t).
Definition setNature (t : AutoTags) : AutoTags :=
  mkAutoTags (person_id t) true (pets t) (vehicle t) (objects t).
Definition setPersonId (t : AutoTags) (id : string) : AutoTags :=
  mkAutoTags (Some id) (nature t) (pets t) (vehicle t) (objects t).
Definition pushObject (t : AutoTags) (o : string) : AutoTags :=
  mkAutoTags (person_id t) (nature t) (pets t) (vehicle t) (push (objects t) o).

Definition analyzeFilename (filename : string) : AutoTags :=
  let autoTags := emptyTags in
  let hasMatch := false in
  let '(autoTags, hasMatch) :=
    if JS.truthyOpt (containsKeyword filename vehicleLists false)
    then (pushObject (setVehicle autoTags) "vehicle", true)
    else (autoTags, hasMatch) in
  let '(autoTags, hasMatch) :=
    if JS.truthyOpt (containsKeyword filename petLists false)
    then (pushObject (setPets autoTags) "animal", true)
    else (autoTags, hasMatch) in
  let '(autoTags, hasMatch) :=
    if JS.truthyOpt (containsKeyword filename natureLists false)
    then (pushObject (setNature autoTags) "outdoor", true)
    else (autoTags, hasMatch) in
  let '(autoTags, hasMatch) :=
    if JS.truthyOpt (containsKeyword filename personLists false)
    then (pushObject (setPersonId autoTags "person_0001") "portrait", true)
    else (autoTags, hasMatch) in
  if negb hasMatch then pushObject autoTags "uncategorized" else autoTags.

(** [analyzeEmbedding] reads and may extend the person store; a missing
    embedding ([null], [undefined]) takes the branch of the empty one. *)
Definition analyzeEmbedding (embedding : Embedding) (filename : string)
  (store : PersonStore) : AutoTags * PersonStore :=
  let autoTags := emptyTags in
  let filenameHints := analyzeFilename filename in
  if List.length embedding =? 0 then (filenameHints, store)
  else
    let categories := determineCategories embedding filename in
    let autoTags :=
      if arrayIncludes categories "vehicle"
      then pushObject (setVehicle autoTags) "vehicle" else autoTags in
    let autoTags :=
      if arrayIncludes categories "pet"
      then pushObject (setPets autoTags) "animal" else autoTags in
    let autoTags :=
      if arrayIncludes categories "nature"
      then pushObject (pushObject (setNature autoTags) "landscape") "outdoor"
      else autoTags in
    let '(autoTags, store) :=
      if arrayIncludes categories "person"
      then
        let '(id, store') := findOrCreatePersonId embedding store in
        (pushObject (setPersonId autoTags id) "portrait", store')
      else (autoTags, store) in
    let autoTags :=
      if (List.length categories =? 0) ||
         ((List.length categories =? 1) && arrayIncludes categories "other")
      then pushObject autoTags "uncategorized" else autoTags in
    (autoTags, store).

(** ** Destination folders *)

Definition getAllFolderPaths (autoTags : AutoTags) (customTags : list string)
  : list string :=
  let folders := [] in
  let folders := if vehicle autoTags then push folders "vehicles" else folders in
  let folders := if pets autoTags then push folders "pets" else folders in
  let folders := if nature autoTags then push folders "nature" else folders in
  let folders :=
    match person_id autoTags with
    | Some id => if JS.truthy id then push folders ("people/" ++ id) else folders
    | None => folders
    end in
  let folders :=
    fold_left
      (fun folders tag =>
         if JS.truthy tag && JS.truthy (JS.trim tag)
         then push folders ("tags/" ++ JS.trim tag)
         else folders)
      customTags folders in
  if List.length folders =? 0 then push folders "uncategorized" else folders.

(** [folders[0]]; [None] is [undefined]. *)
Definition determineFolderPath (autoTags : AutoTags) (customTags : list string)
  : option string :=
  let folders := getAllFolderPaths autoTags customTags in
  nth_error folders 0.

End ImageProcessor.

(* ================================================================== *)
(** * services/imageProcessor.old.js *)
(* ================================================================== *)

Module ImageProcessorOld.

Definition determineFolderPath (autoTags : AutoTags) (customTags : list string)
  : string :=
  if vehicle autoTags then "vehicles"
  else if pets autoTags then "pets"
  else if nature autoTags then "nature"
  else
    let withoutPerson :=
      match customTags with
      | tag :: _ => "tags/" ++ tag
      | [] => "uncategorized"
      end in
    match person_id autoTags with
    | Some id => if JS.truthy id then "people/" ++ id else withoutPerson
    | None => withoutPerson
    end.

(** ** The classification by file name of the earlier version

    The alternatives of its regular expressions. *)
Module Patterns.
Definition vehicle : list string :=
  ["car"; "vehicle"; "auto"; "automobile"; "truck"; "bike"; "motorcycle"; "bus";
   "van"; "suv"; "jeep"; "tesla"; "bmw"; "audi"; "honda"; "toyota"; "ford";
   "mercedes"; "driving"].
Definition pet : list string :=
  ["dog"; "cat"; "pet"; "puppy"; "kitten"; "animal"; "bird"; "fish"; "parrot";
   "rabbit"; "hamster"; "cow"; "horse"; "goat"; "sheep"].
Definition nature : list string :=
  ["nature"; "landscape"; "mountain"; "beach"; "forest"; "sunset"; "sunrise";
   "scenery"; "view"; "tree"; "flower"; "garden"; "park"; "lake"; "river";
   "ocean"; "sea"; "sky"; "cloud"; "leaf"; "plant"].
Definition person : list string :=
  ["person"; "face"; "portrait"; "selfie"; "profile"; "me"; "myself"; "family";
   "friend"; "people"; "group"; "man"; "woman"; "boy"; "girl"; "baby"; "child"].
Definition camera : list string := ["img_"; "photo_"; "dsc"].
(** The shorter lists of [analyzeFilename]. *)
Definition petHints : list string :=
  ["dog"; "cat"; "pet"; "puppy"; "kitten"; "animal"; "bird"; "parrot"; "rabbit";
   "hamster"].
Definition natureHints : list string :=
  ["nature"; "landscape"; "mountain"; "beach"; "forest"; "sunset"; "sky";
   "scenery"; "tree"; "flower"; "garden"; "lake"; "river"; "ocean"].
End Patterns.

(** [determineCategories(embedding, filename)]; the embedding is not read. *)
Definition determineCategories (embedding : Embedding) (filename : string)
  : list string :=
  let lowerName := JS.toLowerCase filename in
  let categories := [] in
  let categories :=
    if JS.wordsRegexTest Patterns.vehicle lowerName
    then ImageProcessor.push categories "vehicle" else categories in
  let categories :=
    if JS.wordsRegexTest Patterns.pet lowerName
    then ImageProcessor.push categories "pet" else categories in
  let categories :=
    if JS.wordsRegexTest Patterns.nature lowerName
    then ImageProcessor.push categories "nature" else categories in
  let categories :=
    if JS.wordsRegexTest Patterns.person lowerName
    then ImageProcessor.push categories "person" else categories in
  let categories :=
    if JS.includes lowerName "whatsapp" && (List.length categories =? 0)
    then ImageProcessor.push categories "person" else categories in
  let categories :=
    if JS.prefixRegexTest Patterns.camera lowerName && (List.length categories =? 0)
    then ImageProcessor.push categories "person" else categories in
  if List.length categories =? 0
  then ImageProcessor.push categories "other" else categories.

(** [analyzeFilename(filename)]: the first test that succeeds decides. *)
Definition analyzeFilename (filename : string) : AutoTags :=
  let lowerName := JS.toLowerCase filename in
  let autoTags := ImageProcessor.emptyTags in
  if JS.wordsRegexTest Patterns.vehicle lowerName
  then ImageProcessor.pushObject (ImageProcessor.setVehicle autoTags) "vehicle"
  else if JS.wordsRegexTest Patterns.petHints lowerName
  then ImageProcessor.pushObject (ImageProcessor.setPets autoTags) "animal"
  else if JS.wordsRegexTest Patterns.natureHints lowerName
  then ImageProcessor.pushObject (ImageProcessor.setNature autoTags) "outdoor"
  else if JS.includes lowerName "whatsapp"
  then ImageProcessor.pushObject
         (ImageProcessor.setPersonId autoTags "person_0001") "portrait"
  else ImageProcessor.pushObject autoTags "uncategorized".


End ImageProcessorOld.

(* ================================================================== *)
(** * services/collectionSync.js *)
(* ================================================================== *)

(** The image data embedded in the category documents
    ([imageDataSchema] of models/Person.js). *)
Record ImageRecord := mkImage {
  filename : string;
  originalName : string;
  filepath : string;
  mimetype : string;
  size : Z;
  embedding : Embedding;
  tags : list string;
  autoTags : AutoTags;
  organized : bool;
  organizedPaths : list string;
  uploadedAt : Z
}.

(** A document of one of the four category collections.  [docKey] is the
    field the queries filter on: [personId] in [Person], [category] in
    [Pet], [Nature] and [Vehicle].  [imageCount] is [metadata.imageCount];
    [firstSeen] and [lastSeen] are the [metadata] dates of a person,
    [updatedAt] the date the other collections set.  Dates are numbers. *)
Record CategoryDoc := mkDoc {
  docKey : string;
  images : list ImageRecord;
  sampleImageUrl : option string;
  imageCount : Z;
  firstSeen : option Z;
  lastSeen : option Z;
  updatedAt : option Z;
  createdAt : option Z
}.

Definition Collection := list CategoryDoc.

Record Database := mkDb {
  Person : Collection;
  Pet : Collection;
  Nature : Collection;
  Vehicle : Collection
}.

Record SyncResult := mkResult {
  addedTo : list string;
  errors : list string
}.

Module Mongo.

(** The document an upsert starts from when no document matches the
    filter [{ key }]: the filter's field, no image, no count. *)
Definition blankDoc (key : string) : CategoryDoc :=
  mkDoc key [] None 0%Z None None None None.

(** [Model.findOne({ key })]: the first document with that key. *)
Definition findOne (key : string) (docs : Collection) : option CategoryDoc :=
  find (fun d => String.eqb (docKey d) key) docs.

(** [Model.findOneAndUpdate({ key }, update, { upsert: true })]: the first
    document with that key is updated; when there is none, a new document
    receives the [$setOnInsert] fields and the update. *)
Fixpoint findOneAndUpdate (key : string) (update setOnInsert : CategoryDoc -> CategoryDoc)
  (docs : Collection) : Collection :=
  match docs with
  | [] => [update (setOnInsert (blankDoc key))]
  | d :: rest =>
      if String.eqb (docKey d) key then update d :: rest
      else d :: findOneAndUpdate key update setOnInsert rest
  end.

(** [Model.updateMany({}, update)]: every document is updated. *)
Definition updateMany (update : CategoryDoc -> CategoryDoc) (docs : Collection)
  : Collection :=
  map update docs.

(** [Model.deleteMany(filter)] *)
Definition deleteMany (filter : CategoryDoc -> bool) (docs : Collection) : Collection :=
  List.filter (fun d => negb (filter d)) docs.

(** [$push: { images: imageData }] *)
Definition pushImage (imageData : ImageRecord) (d : CategoryDoc) : CategoryDoc :=
  mkDoc (docKey d) (images d ++ [imageData])%list (sampleImageUrl d) (imageCount d)
        (firstSeen d) (lastSeen d) (updatedAt d) (createdAt d).

(** [$pull: { images: { filename } }] *)
Definition pullImages (name : string) (d : CategoryDoc) : CategoryDoc :=
  mkDoc (docKey d)
        (List.filter (fun i => negb (String.eqb (filename i) name)) (images d))
        (sampleImageUrl d) (imageCount d)
        (firstSeen d) (lastSeen d) (updatedAt d) (createdAt d).

(** [$inc: { 'metadata.imageCount': n }] *)
Definition incImageCount (n : Z) (d : CategoryDoc) : CategoryDoc :=
  mkDoc (docKey d) (images d) (sampleImageUrl d) (imageCount d + n)%Z
        (firstSeen d) (lastSeen d) (updatedAt d) (createdAt d).

Definition setSampleImageUrl (url : string) (d : CategoryDoc) : CategoryDoc :=
  mkDoc (docKey d) (images d) (Some url) (imageCount d)
        (firstSeen d) (lastSeen d) (updatedAt d) (createdAt d).

Definition setFirstSeen (t : Z) (d : CategoryDoc) : CategoryDoc :=
  mkDoc (docKey d) (images d) (sampleImageUrl d) (imageCount d)
        (Some t) (lastSeen d) (updatedAt d) (createdAt d).

Definition setLastSeen (t : Z) (d : CategoryDoc) : CategoryDoc :=
  mkDoc (docKey d) (images d) (sampleImageUrl d) (imageCount d)
        (firstSeen d) (Some t) (updatedAt d) (createdAt d).

Definition setUpdatedAt (t : Z) (d : CategoryDoc) : CategoryDoc :=
  mkDoc (docKey d) (images d) (sampleImageUrl d) (imageCount d)
        (firstSeen d) (lastSeen d) (Some t) (createdAt d).

Definition setCreatedAt (t : Z) (d : CategoryDoc) : CategoryDoc :=
  mkDoc (docKey d) (images d) (sampleImageUrl d) (imageCount d)
        (firstSeen d) (lastSeen d) (updatedAt d) (Some t).

(** The filter [{ 'images.filename': name }]: some image of the document
    has that file name. *)
Definition hasImage (name : string) (d : CategoryDoc) : bool :=
  existsb (fun i => String.eqb (filename i) name) (images d).

(** [Model.findOne(filter)]: the first document that passes the filter. *)
Definition findOneWhere (filter : CategoryDoc -> bool) (docs : Collection)
  : option CategoryDoc :=
  find filter docs.

(** [Model.updateMany(filter, update)]: the documents that pass the
    filter are updated, the others are kept. *)
Definition updateManyWhere (filter : CategoryDoc -> bool)
  (update : CategoryDoc -> CategoryDoc) (docs : Collection) : Collection :=
  map (fun d => if filter d then update d else d) docs.

(** [$set: { 'images.$.field': ... }] under the filter
    [{ 'images.filename': name }]: the positional operator stands for the
    first element of [images] with that file name; only that element is
    changed. *)
Fixpoint setFirstImage (name : string) (change : ImageRecord -> ImageRecord)
  (l : list ImageRecord) : list ImageRecord :=
  match l with
  | [] => []
  | i :: rest =>
      if String.eqb (filename i) name then change i :: rest
      else i :: setFirstImage name change rest
  end.

Definition setImages (l : list ImageRecord) (d : CategoryDoc) : CategoryDoc :=
  mkDoc (docKey d) l (sampleImageUrl d) (imageCount d)
        (firstSeen d) (lastSeen d) (updatedAt d) (createdAt d).

End Mongo.

Module CollectionSync.

Definition withPerson (db : Database) (c : Collection) : Database :=
  mkDb c (Pet db) (Nature db) (Vehicle db).
Definition withPet (db : Database) (c : Collection) : Database :=
  mkDb (Person db) c (Nature db) (Vehicle db).
Definition withNature (db : Database) (c : Collection) : Database :=
  mkDb (Person db) (Pet db) c (Vehicle db).
Definition withVehicle (db : Database) (c : Collection) : Database :=
  mkDb (Person db) (Pet db) (Nature db) c.

(** The update document of the [Person] upsert. *)
Definition personUpdate (imageData : ImageRecord) (imageUrl : string) (now : Z)
  (d : CategoryDoc) : CategoryDoc :=
  Mongo.setSampleImageUrl imageUrl
    (Mongo.setLastSeen now (Mongo.incImageCount 1 (Mongo.pushImage imageData d))).

Definition personOnInsert (now : Z) (d : CategoryDoc) : CategoryDoc :=
  Mongo.setCreatedAt now (Mongo.setFirstSeen now d).

(** The update document of the [Pet], [Nature] and [Vehicle] upserts. *)
Definition categoryUpdate (imageData : ImageRecord) (imageUrl : string) (now : Z)
  (d : CategoryDoc) : CategoryDoc :=
  Mongo.setSampleImageUrl imageUrl
    (Mongo.setUpdatedAt now (Mongo.incImageCount 1 (Mongo.pushImage imageData d))).

Definition categoryOnInsert (now : Z) (d : CategoryDoc) : CategoryDoc :=
  Mongo.setCreatedAt now d.

Definition pushAdded (r : SyncResult) (name : string) : SyncResult :=
  mkResult (addedTo r ++ [name])%list (errors r).

(** [addImageToCollections(imageData)]; [now] is the value of [new Date()]
    during the call.  The database operations are taken to succeed, so
    the [catch] branch is not entered. *)
Definition addImageToCollections (imageData : ImageRecord) (now : Z) (db : Database)
  : SyncResult * Database :=
  let tags := autoTags imageData in
  let imageUrl := "/uploads/" ++ filename imageData in
  let results := mkResult [] [] in
  let addedToAny := false in
  let '(results, addedToAny, db) :=
    match person_id tags with
    | Some id =>
        if JS.truthy id then
          (pushAdded results "Person", true,
           withPerson db
             (Mongo.findOneAndUpdate id (personUpdate imageData imageUrl now)
                (personOnInsert now) (Person db)))
        else (results, addedToAny, db)
    | None => (results, addedToAny, db)
    end in
  let '(results, addedToAny, db) :=
    if pets tags then
      (pushAdded results "Pet", true,
       withPet db
         (Mongo.findOneAndUpdate "pet" (categoryUpdate imageData imageUrl now)
            (categoryOnInsert now) (Pet db)))
    else (results, addedToAny, db) in
  let '(results, addedToAny, db) :=
    if nature tags then
      (pushAdded results "Nature", true,
       withNature db
         (Mongo.findOneAndUpdate "nature" (categoryUpdate imageData imageUrl now)
            (categoryOnInsert now) (Nature db)))
    else (results, addedToAny, db) in
  let '(results, addedToAny, db) :=
    if vehicle tags then
      (pushAdded results "Vehicle", true,
       withVehicle db
         (Mongo.findOneAndUpdate "vehicle" (categoryUpdate imageData imageUrl now)
            (categoryOnInsert now) (Vehicle db)))
    else (results, addedToAny, db) in
  if negb addedToAny then
    (pushAdded results "Nature (uncategorized)",
     withNature db
       (Mongo.findOneAndUpdate "uncategorized" (categoryUpdate imageData imageUrl now)
          (categoryOnInsert now) (Nature db)))
  else (results, db).

(** The update document of [removeImageFromCollections]:
    [{ $pull: { images: { filename } }, $inc: { 'metadata.imageCount': -1 } }]. *)
Definition removeUpdate (name : string) (d : CategoryDoc) : CategoryDoc :=
  Mongo.incImageCount (-1) (Mongo.pullImages name d).

(** The filter [{ 'metadata.imageCount': { $lte: 0 } }]. *)
Definition countAtMostZero (d : CategoryDoc) : bool := (imageCount d <=? 0)%Z.

(** [removeImageFromCollections(filename)]; the returned flag is
    [success]. *)
Definition removeImageFromCollections (name : string) (db : Database)
  : bool * Database :=
  let db := withPerson db (Mongo.updateMany (removeUpdate name) (Person db)) in
  let db := withPet db (Mongo.updateMany (removeUpdate name) (Pet db)) in
  let db := withNature db (Mongo.updateMany (removeUpdate name) (Nature db)) in
  let db := withVehicle db (Mongo.updateMany (removeUpdate name) (Vehicle db)) in
  let db := withPerson db (Mongo.deleteMany countAtMostZero (Person db)) in
  let db := withPet db (Mongo.deleteMany countAtMostZero (Pet db)) in
  let db := withNature db (Mongo.deleteMany countAtMostZero (Nature db)) in
  let db := withVehicle db (Mongo.deleteMany countAtMostZero (Vehicle db)) in
  (true, db).

(** All the images of all the documents of the four collections, in the
    order [getAllImages] visits them. *)
Definition allStoredImages (db : Database) : list ImageRecord :=
  flat_map images (Person db ++ Pet db ++ Nature db ++ Vehicle db)%list.

(** ** Reading the collections *)

(** An entry of [getAllImages]: the image data with the [categories]
    array and, for an image met in [Person], the [personId]. *)
Record GalleryImage := mkGallery {
  galleryImage : ImageRecord;
  galleryPersonId : option string;
  galleryCategories : list string
}.

(** The body of the innermost loops: an image whose file name has not
    been seen is recorded as seen and pushed. *)
Definition visitImage (entry : ImageRecord -> GalleryImage)
  (acc : list GalleryImage * list string) (image : ImageRecord)
  : list GalleryImage * list string :=
  let '(allImages, seenFilenames) := acc in
  if existsb (String.eqb (filename image)) seenFilenames then acc
  else ((allImages ++ [entry image])%list, filename image :: seenFilenames).

Definition visitDoc (entry : CategoryDoc -> ImageRecord -> GalleryImage)
  (acc : list GalleryImage * list string) (d : CategoryDoc)
  : list GalleryImage * list string :=
  fold_left (visitImage (entry d)) (images d) acc.

Definition personEntry (d : CategoryDoc) (image : ImageRecord) : GalleryImage :=
  mkGallery image (Some (docKey d)) ["person"].

Definition petEntry (d : CategoryDoc) (image : ImageRecord) : GalleryImage :=
  mkGallery image None ["pet"].

Definition natureEntry (d : CategoryDoc) (image : ImageRecord) : GalleryImage :=
  mkGallery image None
    [if String.eqb (docKey d) "uncategorized" then "uncategorized" else "nature"].

Definition vehicleEntry (d : CategoryDoc) (image : ImageRecord) : GalleryImage :=
  mkGallery image None ["vehicle"].

Definition getAllImages (db : Database) : list GalleryImage :=
  let acc := ([], []) in
  let acc := fold_left (visitDoc personEntry) (Person db) acc in
  let acc := fold_left (visitDoc petEntry) (Pet db) acc in
  let acc := fold_left (visitDoc natureEntry) (Nature db) acc in
  let acc := fold_left (visitDoc vehicleEntry) (Vehicle db) acc in
  fst acc.

(** The answer of [findImageByFilename]: the image data with the name of
    the collection it was found in and, there, the person id or the
    category of the document. *)
Record FoundImage := mkFound {
  foundImage : ImageRecord;
  foundCollection : string;
  foundPersonId : option string;
  foundCategory : option string
}.

(** [doc.images.find(i => i.filename === name)] *)
Definition findImage (name : string) (d : CategoryDoc) : option ImageRecord :=
  find (fun i => String.eqb (filename i) name) (images d).

(** One of the four steps of [findImageByFilename]: the first document of
    the collection that holds the file name, and in it the first image
    with that name. *)
Definition lookupIn (name : string) (docs : Collection)
  (answer : CategoryDoc -> ImageRecord -> FoundImage) : option FoundImage :=
  match Mongo.findOneWhere (Mongo.hasImage name) docs with
  | Some d =>
      match findImage name d with
      | Some image => Some (answer d image)
      | None => None
      end
  | None => None
  end.

(** [findImageByFilename(filename)]; [None] is [null]. *)
Definition findImageByFilename (name : string) (db : Database) : option FoundImage :=
  match lookupIn name (Person db)
          (fun d image => mkFound image "Person" (Some (docKey d)) None) with
  | Some found => Some found
  | None =>
  match lookupIn name (Pet db) (fun _ image => mkFound image "Pet" None None) with
  | Some found => Some found
  | None =>
  match lookupIn name (Nature db)
          (fun d image => mkFound image "Nature" None (Some (docKey d))) with
  | Some found => Some found
  | None =>
      lookupIn name (Vehicle db) (fun _ image => mkFound image "Vehicle" None None)
  end end end.

(** ** The organisation status *)

Definition setOrganized (flag : bool) (paths : list string) (i : ImageRecord)
  : ImageRecord :=
  mkImage (filename i) (originalName i) (filepath i) (mimetype i) (size i)
          (embedding i) (tags i) (autoTags i) flag paths (uploadedAt i).

(** The update document of [updateImageOrganizedStatus]. *)
Definition organizedUpdate (name : string) (flag : bool) (paths : list string)
  (d : CategoryDoc) : CategoryDoc :=
  Mongo.setImages (Mongo.setFirstImage name (setOrganized flag paths) (images d)) d.

Definition updateImageOrganizedStatus (name : string) (flag : bool)
  (paths : list string) (db : Database) : Database :=
  let update := Mongo.updateManyWhere (Mongo.hasImage name)
                  (organizedUpdate name flag paths) in
  let db := withPerson db (update (Person db)) in
  let db := withPet db (update (Pet db)) in
  let db := withNature db (update (Nature db)) in
  let db := withVehicle db (update (Vehicle db)) in
  db.

(** [clearAllCollections()]: [deleteMany({})] on the four collections. *)
Definition clearAllCollections (db : Database) : Database :=
  let db := withPerson db (Mongo.deleteMany (fun _ => true) (Person db)) in
  let db := withPet db (Mongo.deleteMany (fun _ => true) (Pet db)) in
  let db := withNature db (Mongo.deleteMany (fun _ => true) (Nature db)) in
  let db := withVehicle db (Mongo.deleteMany (fun _ => true) (Vehicle db)) in
  db.


End CollectionSync.

(* ================================================================== *)
(** * Statements of the specification *)
(* ================================================================== *)

Module Spec.

(** The destinations as the specification words them: the category
    folders in the fixed order, [people/<personId>] when [person_id] is
    not null, and [tags/<tag>] for every custom tag that is not the empty
    string, in input order; [uncategorized] when nothing else applies. *)
Definition destinationsAsWorded (t : AutoTags) (customTags : list string)
  : list string :=
  let paths :=
    ((if vehicle t then ["vehicles"] else []) ++
     (if pets t then ["pets"] else []) ++
     (if nature t then ["nature"] else []) ++
     (match person_id t with Some id => [("people/" ++ id)%string] | None => [] end) ++
     map (fun tag => ("tags/" ++ tag)%string)
         (List.filter (fun tag => negb (String.eqb tag EmptyString)) customTags))%list in
  match paths with
  | [] => ["uncategorized"]
  | _ => paths
  end.

(** A custom tag counts when something is left of it after trimming. *)
Definition notBlank (tag : string) : bool := JS.truthy (JS.trim tag).

(** The destinations with the two conditions the code applies: the
    person id must be a non-empty string, and a custom tag must be
    non-blank and contributes its trimmed form. *)
Definition destinations (t : AutoTags) (customTags : list string) : list string :=
  let paths :=
    ((if vehicle t then ["vehicles"] else []) ++
     (if pets t then ["pets"] else []) ++
     (if nature t then ["nature"] else []) ++
     (match person_id t with
      | Some id => if JS.truthy id then [("people/" ++ id)%string] else []
      | None => []
      end) ++
     map (fun tag => ("tags/" ++ JS.trim tag)%string) (List.filter notBlank customTags))%list in
  match paths with
  | [] => ["uncategorized"]
  | _ => paths
  end.

(** No category flag and no usable person id. *)
Definition noCategory (t : AutoTags) : Prop :=
  vehicle t = false /\ pets t = false /\ nature t = false /\
  JS.truthyOpt (person_id t) = false.

(** The inputs on which the legacy primary path and the first current
    destination coincide. *)
Definition primaryPathStable (t : AutoTags) (customTags : list string) : Prop :=
  ~ noCategory t \/
  customTags = [] \/
  exists tag rest, customTags = tag :: rest /\ tag <> EmptyString /\ JS.trim tag = tag.

(** Segment [i] of an embedding, by the positions the specification
    names: the elements at [i * segmentSize + j] for [j < segmentSize],
    where [segmentSize] is the length divided by 8, rounded down. *)
Definition segmentSize (embedding : Embedding) : nat := List.length embedding / 8.

Definition segmentOf (embedding : Embedding) (i : nat) : list float :=
  map (fun j => nth (i * segmentSize embedding + j) embedding 0%float)
      (seq 0 (segmentSize embedding)).

(** The arithmetic mean of a sequence of numbers, summed from the left. *)
Definition mean (xs : list float) : float :=
  PrimFloat.div (fold_left PrimFloat.add xs 0%float) (Num.ofNat (List.length xs)).

(** Similarity above the threshold, as the store tests it: strictly
    greater than 0.85. *)
Definition similar (a b : Signature) : bool :=
  PrimFloat.ltb ImageProcessor.threshold (ImageProcessor.calculateSimilarity a b).

(** Similarity at or above the threshold, as the specification words it. *)
Definition atLeastThreshold (a b : Signature) : bool :=
  PrimFloat.leb ImageProcessor.threshold (ImageProcessor.calculateSimilarity a b).

(** No stored identity is similar to the signature. *)
Definition noMatch (signature : Signature) (store : PersonStore) : Prop :=
  Forall (fun entry => similar signature (snd entry) = false) store.

Fixpoint stripPrefix (prefix s : string) : option string :=
  match prefix, s with
  | EmptyString, _ => Some s
  | String _ _, EmptyString => None
  | String p prefix', String c s' =>
      if Ascii.eqb p c then stripPrefix prefix' s' else None
  end.

(** The number a person id carries after [person_]. *)
Definition personIdNumber (id : string) : option nat :=
  match stripPrefix "person_" id with
  | Some digits =>
      option_map Nat.of_uint (DecimalString.NilEmpty.uint_of_string digits)
  | None => None
  end.

(** The ids of the store are person_0001, person_0002, ... in insertion
    order: the states reached from the empty store. *)
Definition registryOrdered (store : PersonStore) : Prop :=
  map fst store = map ImageProcessor.personIdOf (seq 1 (List.length store)).

(** A file name with zero keyword matches in every category list. *)
Definition noKeywordMatch (filename : string) : Prop :=
  ImageProcessor.containsKeyword filename ImageProcessor.vehicleLists false = None /\
  ImageProcessor.containsKeyword filename ImageProcessor.petLists false = None /\
  ImageProcessor.containsKeyword filename ImageProcessor.natureLists false = None /\
  ImageProcessor.containsKeyword filename ImageProcessor.personLists false = None /\
  ImageProcessor.containsKeyword filename ImageProcessor.nameLists true = None.

(** The fixed buckets of the fallback: [0,25) nature, [25,50) pet,
    [50,75) person, [75,100) vehicle. *)
Definition bucketOf (hashValue : Z) (category : string) : Prop :=
  (0 <= hashValue < 25 /\ category = "nature")%Z \/
  (25 <= hashValue < 50 /\ category = "pet")%Z \/
  (50 <= hashValue < 75 /\ category = "person")%Z \/
  (75 <= hashValue < 100 /\ category = "vehicle")%Z.

(** The tags of an image that falls in exactly one category. *)
Definition tagsOfBucket (category personId : string) : AutoTags :=
  if String.eqb category "nature" then mkAutoTags None true false false ["landscape"; "outdoor"]
  else if String.eqb category "pet" then mkAutoTags None false true false ["animal"]
  else if String.eqb category "person" then mkAutoTags (Some personId) false false false ["portrait"]
  else mkAutoTags None false false true ["vehicle"].

(** The categories selected by four flags, in the order of the checks. *)
Definition categoriesOfFlags (v p n q : bool) : list string :=
  ((if v then ["vehicle"] else []) ++ (if p then ["pet"] else []) ++
   (if n then ["nature"] else []) ++ (if q then ["person"] else []))%list.

(** No category matched: no flag is set and there is no person id. *)
Definition noCategoryMatched (t : AutoTags) : Prop :=
  vehicle t = false /\ pets t = false /\ nature t = false /\ person_id t = None.

(** The invariant of the [objects] list: it is never empty, it holds
    [uncategorized] exactly when no category matched, and every matched
    category has its descriptive token in it. *)
Definition objectsInvariant (t : AutoTags) : Prop :=
  objects t <> [] /\
  (In "uncategorized" (objects t) <-> noCategoryMatched t) /\
  (vehicle t = true -> In "vehicle" (objects t)) /\
  (pets t = true -> In "animal" (objects t)) /\
  (nature t = true -> In "outdoor" (objects t)) /\
  (person_id t <> None -> In "portrait" (objects t)).

(** ** Destinations of the synchronisation *)

Inductive CollectionName :=
| PersonCollection
| PetCollection
| NatureCollection
| VehicleCollection.

Definition collectionOf (c : CollectionName) (db : Database) : Collection :=
  match c with
  | PersonCollection => Person db
  | PetCollection => Pet db
  | NatureCollection => Nature db
  | VehicleCollection => Vehicle db
  end.

(** The destination documents of an image: a collection and the key of
    the document in it. *)
Definition syncTargets (t : AutoTags) : list (CollectionName * string) :=
  let targets :=
    ((match person_id t with
      | Some id => if JS.truthy id then [(PersonCollection, id)] else []
      | None => []
      end) ++
     (if pets t then [(PetCollection, "pet")] else []) ++
     (if nature t then [(NatureCollection, "nature")] else []) ++
     (if vehicle t then [(VehicleCollection, "vehicle")] else []))%list in
  match targets with
  | [] => [(NatureCollection, "uncategorized")]
  | _ => targets
  end.


(** Number of entries with the given file name in a document's [images];
    0 when the document does not exist. *)
Definition occurrences (name : string) (d : option CategoryDoc) : nat :=
  match d with
  | Some d =>
      List.length (List.filter (fun i => String.eqb (filename i) name) (images d))
  | None => 0
  end.


(** The value of [imageUrl] in [addImageToCollections]. *)
Definition imageUrlOf (imageData : ImageRecord) : string :=
  "/uploads/" ++ filename imageData.

(** A string that is empty or starts with a code unit that [trim] keeps. *)
Definition startsClean (s : string) : Prop :=
  match s with
  | EmptyString => True
  | String c _ => JS.isWhiteSpace c = false
  end.

(** The categories the keyword tests of [analyzeFilename] match in a file
    name: the four tests without the strict flag; the list of person
    names is not among them. *)
Definition filenameMatches (filename : string) : list string :=
  categoriesOfFlags
    (JS.truthyOpt (ImageProcessor.containsKeyword filename ImageProcessor.vehicleLists false))
    (JS.truthyOpt (ImageProcessor.containsKeyword filename ImageProcessor.petLists false))
    (JS.truthyOpt (ImageProcessor.containsKeyword filename ImageProcessor.natureLists false))
    (JS.truthyOpt (ImageProcessor.containsKeyword filename ImageProcessor.personLists false)).




(** The 32-bit hash of a sequence of integers: every step multiplies the
    hash by 31, adds the next integer and reduces the sum to a 32-bit
    signed integer. *)
Definition hashOf (values : list Z) : Z :=
  fold_left (fun hash x => Num.wrap32 (31 * hash + x)) values 0%Z.

(** The code units of a file name. *)
Definition codes (filename : string) : list Z :=
  map (fun c => Z.of_nat (JS.code c)) (list_ascii_of_string filename).

(** An embedding value times 1000, rounded down to an integer: defined
    when the binary64 product is a zero or has a negative exponent (its
    magnitude is then below 2^52). *)
Definition scaledValue (v : float) : option Z :=
  match Prim2SF (PrimFloat.mul v 1000) with
  | S754_zero _ => Some 0%Z
  | S754_finite s m e =>
      if (e <? 0)%Z then Some (Z.shiftr (Num.signedMantissa s m) (- e)) else None
  | _ => None
  end.


End Spec.

(* ================================================================== *)
(** * Sample data *)
(* ================================================================== *)

Module Sample.

Definition petTags : AutoTags := mkAutoTags None false true false ["animal"].

Definition petImage (name : string) : ImageRecord :=
  mkImage name name ("uploads/" ++ name) "image/jpeg" 1024%Z [] [] petTags false [] 0%Z.

Definition dogImage : ImageRecord := petImage "dog.jpg".
Definition catImage : ImageRecord := petImage "cat.jpg".

Definition emptyDb : Database := mkDb [] [] [] [].

(** A [Pet] document created at time 1 and last updated at time [t]. *)
Definition petDoc (pictures : list ImageRecord) (count : Z) (url : string) (t : Z)
  : CategoryDoc :=
  mkDoc "pet" pictures (Some url) count None None (Some t) (Some 1%Z).

Definition petsOnly (d : CategoryDoc) : Database := mkDb [] [d] [] [].

End Sample.

(* ================================================================== *)
(** * server.js: helpers and the re-tagging route *)
(* ================================================================== *)

Module Server.

(** [autoTagsToArray(autoTags)] on a tags object (the array and the
    non-object inputs are answered before the part modelled here). *)
Definition autoTagsToArray (autoTags : AutoTags) : list string :=
  let tags := [] in
  let tags := if vehicle autoTags then ImageProcessor.push tags "vehicle" else tags in
  let tags := if pets autoTags then ImageProcessor.push tags "pet" else tags in
  let tags := if nature autoTags then ImageProcessor.push tags "nature" else tags in
  let tags :=
    if JS.truthyOpt (person_id autoTags) then ImageProcessor.push tags "person"
    else tags in
  let tags :=
    fold_left
      (fun tags obj =>
         if negb (ImageProcessor.arrayIncludes tags obj)
         then ImageProcessor.push tags obj else tags)
      (objects autoTags) tags in
  if 0 <? List.length tags then tags else ["uncategorized"].

(** [tags.map(tag => tag.trim().toLowerCase()).filter(tag => tag)] *)
Definition normalizeTags (tags : list string) : list string :=
  List.filter JS.truthy (map (fun tag => JS.toLowerCase (JS.trim tag)) tags).

(** The table [categoryKeywords] of the route
    [PUT /api/images/:filename/tags]. *)
Module categoryKeywords.
Definition person : list string :=
  ["person"; "people"; "family"; "portrait"; "selfie"; "face"; "man"; "woman";
   "child"; "kid"; "baby"].
Definition pet : list string :=
  ["pet"; "dog"; "cat"; "puppy"; "kitten"; "animal"; "bird"; "fish"; "rabbit";
   "hamster"].
Definition nature : list string :=
  ["nature"; "landscape"; "flower"; "tree"; "beach"; "mountain"; "sunset";
   "sunrise"; "forest"; "ocean"; "sky"; "garden"; "park"].
Definition vehicle : list string :=
  ["vehicle"; "car"; "bike"; "truck"; "motorcycle"; "bus"; "train"; "plane";
   "boat"; "ship"].
End categoryKeywords.

(** [keywords.some(k => tag.includes(k))] *)
Definition namesCategory (keywords : list string) (tag : string) : bool :=
  existsb (fun k => JS.includes tag k) keywords.

(** [existingImage.autoTags?.person_id ||
     ImageProcessor.findOrCreatePersonId(existingImage.embedding || [], filename)]:
    the store is consulted only when the stored id is null or empty. *)
Definition personIdFor (existingImage : CollectionSync.FoundImage)
  (store : PersonStore) : string * PersonStore :=
  let image := CollectionSync.foundImage existingImage in
  match person_id (autoTags image) with
  | Some id =>
      if JS.truthy id then (id, store)
      else ImageProcessor.findOrCreatePersonId (embedding image) store
  | None => ImageProcessor.findOrCreatePersonId (embedding image) store
  end.

(** The body of the loop over the custom tags. *)
Definition retagStep (existingImage : CollectionSync.FoundImage)
  (acc : AutoTags * PersonStore) (tag : string) : AutoTags * PersonStore :=
  let '(auto, store) := acc in
  let '(auto, store) :=
    if namesCategory categoryKeywords.person tag then
      let '(id, store) := personIdFor existingImage store in
      (ImageProcessor.pushObject (ImageProcessor.setPersonId auto id) "portrait", store)
    else (auto, store) in
  let auto :=
    if namesCategory categoryKeywords.pet tag
    then ImageProcessor.pushObject (ImageProcessor.setPets auto) "animal" else auto in
  let auto :=
    if namesCategory categoryKeywords.nature tag
    then ImageProcessor.pushObject (ImageProcessor.setNature auto) "outdoor" else auto in
  let auto :=
    if namesCategory categoryKeywords.vehicle tag
    then ImageProcessor.pushObject (ImageProcessor.setVehicle auto) "vehicle" else auto in
  (auto, store).

(** The answers of the route: 404, or the JSON body of the success. *)
Inductive TagsResponse :=
| NotFound
| TagsUpdated (oldCollection : string) (newCollections tags autoTags : list string).

(** The route [PUT /api/images/:filename/tags] for the file name [name]
    and a body whose [tags] is an array of strings: its answer and what
    it leaves in the person store and in the collections.  [now] is the
    value of [new Date()]; the database operations are taken to succeed. *)
Definition updateTags (name : string) (tags : list string) (now : Z)
  (store : PersonStore) (db : Database)
  : TagsResponse * PersonStore * Database :=
  match CollectionSync.findImageByFilename name db with
  | None => (NotFound, store, db)
  | Some existingImage =>
      let image := CollectionSync.foundImage existingImage in
      let db := snd (CollectionSync.removeImageFromCollections name db) in
      let customTags := normalizeTags tags in
      let '(auto, store) :=
        fold_left (retagStep existingImage) customTags
          (ImageProcessor.emptyTags, store) in
      let auto :=
        if negb (JS.truthyOpt (person_id auto)) && negb (pets auto) &&
           negb (nature auto) && negb (vehicle auto)
        then ImageProcessor.analyzeFilename
               (if JS.truthy (originalName image) then originalName image
                else name)
        else auto in
      let updatedImageData :=
        mkImage (filename image) (originalName image)
                (filepath image) (mimetype image) (size image) (embedding image)
                customTags auto false [] (uploadedAt image) in
      let '(results, db) :=
        CollectionSync.addImageToCollections updatedImageData now db in
      (TagsUpdated (CollectionSync.foundCollection existingImage)
         (addedTo results) customTags (autoTagsToArray auto),
       store, db)
  end.

End Server.

(* ================================================================== *)
(** * Further statements about the code *)
(* ================================================================== *)

Module Props.

(** A string that [toLowerCase] leaves as it is. *)
Definition lowered (s : string) : Prop := JS.toLowerCase s = s.

(** The text [containsKeyword] searches: lower case, separators blanked. *)
Definition normalizedText (text : string) : string :=
  JS.replaceSeparators (JS.toLowerCase text).

(** The person store after resolving a sequence of embeddings in order,
    as the reprocessing loops do after [clearPersonStore]. *)
Definition resolveAll (embeddings : list Embedding) (store : PersonStore)
  : PersonStore :=
  fold_left (fun st e => snd (ImageProcessor.findOrCreatePersonId e st))
    embeddings store.

(** Number of images with the given file name in a list. *)
Definition countName (name : string) (l : list ImageRecord) : nat :=
  List.length (List.filter (fun i => String.eqb (filename i) name) l).

(** The elements of a list whose key occurs neither in [seen] nor earlier
    in the list: the first occurrence of every key. *)
Fixpoint keepFirstBy {A : Type} (key : A -> string) (seen : list string)
  (l : list A) : list A :=
  match l with
  | [] => []
  | x :: rest =>
      if existsb (String.eqb (key x)) seen then keepFirstBy key seen rest
      else x :: keepFirstBy key (key x :: seen) rest
  end.

Definition galleryKey (g : CollectionSync.GalleryImage) : string :=
  filename (CollectionSync.galleryImage g).

(** The entries [getAllImages] would push if it skipped nothing, in the
    order it visits the collections, documents and images. *)
Definition galleryCandidates (db : Database) : list CollectionSync.GalleryImage :=
  (flat_map (fun d => map (CollectionSync.personEntry d) (images d)) (Person db) ++
   flat_map (fun d => map (CollectionSync.petEntry d) (images d)) (Pet db) ++
   flat_map (fun d => map (CollectionSync.natureEntry d) (images d)) (Nature db) ++
   flat_map (fun d => map (CollectionSync.vehicleEntry d) (images d)) (Vehicle db))%list.

(** The loop body of [getAllImages] on an entry. *)
Definition visitCandidate
  (acc : list CollectionSync.GalleryImage * list string)
  (g : CollectionSync.GalleryImage)
  : list CollectionSync.GalleryImage * list string :=
  let '(allImages, seenFilenames) := acc in
  if existsb (String.eqb (galleryKey g)) seenFilenames then acc
  else ((allImages ++ [g])%list, galleryKey g :: seenFilenames).


(** An answer of [findImageByFilename] with the organisation status of
    its image replaced. *)
Definition markFound (flag : bool) (paths : list string)
  (found : CollectionSync.FoundImage) : CollectionSync.FoundImage :=
  CollectionSync.mkFound
    (CollectionSync.setOrganized flag paths (CollectionSync.foundImage found))
    (CollectionSync.foundCollection found)
    (CollectionSync.foundPersonId found)
    (CollectionSync.foundCategory found).


(** What [updateImageOrganizedStatus] does to one document: the update
    under its filter. *)
Definition markDoc (name : string) (flag : bool) (paths : list string)
  (d : CategoryDoc) : CategoryDoc :=
  if Mongo.hasImage name d then CollectionSync.organizedUpdate name flag paths d
  else d.


(** The tags and the person store after the loop of the re-tagging route
    over the normalised custom tags. *)
Definition retagLoop (existingImage : CollectionSync.FoundImage)
  (tags : list string) (store : PersonStore) : AutoTags * PersonStore :=
  fold_left (Server.retagStep existingImage) (Server.normalizeTags tags)
    (ImageProcessor.emptyTags, store).

(** The tags the route stores: those of the loop, or those of the file
    name when the loop set no category. *)
Definition retaggedTags (existingImage : CollectionSync.FoundImage)
  (name : string) (tags : list string) (store : PersonStore) : AutoTags :=
  let auto := fst (retagLoop existingImage tags store) in
  let image := CollectionSync.foundImage existingImage in
  if negb (JS.truthyOpt (person_id auto)) && negb (pets auto) &&
     negb (nature auto) && negb (vehicle auto)
  then ImageProcessor.analyzeFilename
         (if JS.truthy (originalName image) then originalName image else name)
  else auto.

(** The record the route adds: [updatedImageData]. *)
Definition updatedImageData (existingImage : CollectionSync.FoundImage)
  (name : string) (tags : list string) (store : PersonStore) : ImageRecord :=
  let image := CollectionSync.foundImage existingImage in
  mkImage (filename image) (originalName image) (filepath image) (mimetype image)
          (size image) (embedding image) (Server.normalizeTags tags)
          (retaggedTags existingImage name tags store) false [] (uploadedAt image).


(** A keyword of lower-case letters and digits only: it has no separator
    and lowering leaves it as it is. *)
Definition plainChar (c : ascii) : bool :=
  negb (JS.isSeparator c) && Ascii.eqb (JS.lowerChar c) c.

Fixpoint plain (s : string) : bool :=
  match s with
  | EmptyString => true
  | String c s' => plainChar c && plain s'
  end.

(** Every alternative of a pattern of the earlier version is a plain
    keyword of the given lists of the later one. *)
Definition patternCovered (alternatives : list string)
  (keywordLists : list (list string)) : bool :=
  forallb (fun k => plain k &&
                    ImageProcessor.arrayIncludes (List.concat keywordLists) k)
          alternatives.


(** The images of all the documents of one collection. *)
Definition storedIn (c : Spec.CollectionName) (db : Database) : list ImageRecord :=
  flat_map images (Spec.collectionOf c db).

(** The entry of [addedTo] for a destination document. *)
Definition reportName (target : Spec.CollectionName * string) : string :=
  match fst target with
  | Spec.PersonCollection => "Person"
  | Spec.PetCollection => "Pet"
  | Spec.NatureCollection =>
      if String.eqb (snd target) "uncategorized"
      then "Nature (uncategorized)" else "Nature"
  | Spec.VehicleCollection => "Vehicle"
  end.

(** The entries of [addedTo] that name a collection. *)
Definition reportNames (c : Spec.CollectionName) : list string :=
  match c with
  | Spec.PersonCollection => ["Person"]
  | Spec.PetCollection => ["Pet"]
  | Spec.NatureCollection => ["Nature"; "Nature (uncategorized)"]
  | Spec.VehicleCollection => ["Vehicle"]
  end.

(** Whether an [addedTo] array names a collection. *)
Definition reports (addedTo : list string) (c : Spec.CollectionName) : bool :=
  existsb (ImageProcessor.arrayIncludes addedTo) (reportNames c).


(** Whether one of the custom tags contains a keyword of the list. *)
Definition tagsName (keywords customTags : list string) : bool :=
  existsb (Server.namesCategory keywords) customTags.

(** The objects the loop of the re-tagging route pushes for one tag. *)
Definition tokensOfTag (tag : string) : list string :=
  ((if Server.namesCategory Server.categoryKeywords.person tag
    then ["portrait"] else []) ++
   (if Server.namesCategory Server.categoryKeywords.pet tag
    then ["animal"] else []) ++
   (if Server.namesCategory Server.categoryKeywords.nature tag
    then ["outdoor"] else []) ++
   (if Server.namesCategory Server.categoryKeywords.vehicle tag
    then ["vehicle"] else []))%list.

(** What re-tagging makes of the custom tags.  When a tag names a
    category, the flags are those of the categories named, the objects
    are the tokens of the tags in order, and the person id, set when a
    tag names a person, is the one the image had or else one the person
    store tracks afterwards.  When no tag names a category, the tags are
    those of the file name. *)
Definition retagged (customTags : list string) (existing fallback : AutoTags)
  (tracked : list string) (auto : AutoTags) : Prop :=
  let person := tagsName Server.categoryKeywords.person customTags in
  let pet := tagsName Server.categoryKeywords.pet customTags in
  let nature_ := tagsName Server.categoryKeywords.nature customTags in
  let vehicle_ := tagsName Server.categoryKeywords.vehicle customTags in
  if person || pet || nature_ || vehicle_ then
    pets auto = pet /\ nature auto = nature_ /\ vehicle auto = vehicle_ /\
    objects auto = flat_map tokensOfTag customTags /\
    (if person then
       if JS.truthyOpt (person_id existing)
       then person_id auto = person_id existing
       else exists id, person_id auto = Some id /\ JS.truthy id = true /\ In id tracked
     else person_id auto = None)
  else auto = fallback.


(** A binary64 value that is the integer [z]: a zero for 0, otherwise the
    sign of [z] and a mantissa that is its magnitude shifted left by the
    opposite of the exponent. *)
Definition holds (x : spec_float) (z : Z) : Prop :=
  match x with
  | S754_zero _ => z = 0%Z
  | S754_finite s m e =>
      (e <= 0 /\ Z.pos m = Z.abs z * 2 ^ (- e) /\ z <> 0 /\ s = (z <? 0))%Z
  | _ => False
  end.


End Props.


(* ================================================================== *)
(** * Destination folders *)
(* ================================================================== *)

Section Folders.

Import ImageProcessor.

Lemma fold_left_push_filter (A : Type) (keep : A -> bool) (g : A -> string)
  (l : list A) (acc : list string) :
  fold_left (fun folders x => if keep x then push folders (g x) else folders) l acc
  = (acc ++ map g (List.filter keep l))%list.
Proof.
  revert acc; induction l as [|x l IH]; intros acc; simpl.
  - now rewrite List.app_nil_r.
  - rewrite IH. destruct (keep x); simpl; [|reflexivity].
    unfold push. now rewrite <- List.app_assoc.
Qed.

Lemma truthy_trim (tag : string) :
  JS.truthy tag && JS.truthy (JS.trim tag) = Spec.notBlank tag.
Proof.
  unfold Spec.notBlank. destruct tag; reflexivity.
Qed.

Lemma getAllFolderPaths_destinations_eq (t : AutoTags) (customTags : list string) :
  getAllFolderPaths t customTags = Spec.destinations t customTags.
Proof.
  unfold getAllFolderPaths, Spec.destinations.
  rewrite (fold_left_push_filter string
             (fun tag => JS.truthy tag && JS.truthy (JS.trim tag))
             (fun tag => "tags/" ++ JS.trim tag)).
  rewrite (filter_ext _ Spec.notBlank truthy_trim).
  destruct t as [pid n p v o]; simpl.
  destruct v, p, n; destruct pid as [[|c id]|]; simpl;
    try reflexivity;
    destruct (map _ (List.filter Spec.notBlank customTags)); reflexivity.
Qed.

(** C5 (as amended): the destinations are the category folders in the
    fixed order vehicles, pets, nature, people/<personId> (for a non-empty
    person id), followed by tags/<trimmed tag> for every custom tag that is
    not blank, in input order; the result is never empty, and it is the
    single destination uncategorized exactly when no category applies and
    no custom tag is left after trimming. *)
Theorem getAllFolderPaths_destinations (t : AutoTags) (customTags : list string) :
  getAllFolderPaths t customTags = Spec.destinations t customTags /\
  getAllFolderPaths t customTags <> [] /\
  (getAllFolderPaths t customTags = ["uncategorized"] <->
   Spec.noCategory t /\ List.filter Spec.notBlank customTags = []).
Proof.
  rewrite getAllFolderPaths_destinations_eq.
  unfold Spec.destinations, Spec.noCategory.
  destruct t as [pid n p v o]; simpl.
  destruct (List.filter Spec.notBlank customTags) as [|tag kept] eqn:Hkept;
    destruct v, p, n; destruct pid as [[|c id]|]; simpl;
    (split; [reflexivity | split; [discriminate | ]]);
    (split; [ try discriminate; intros _; repeat split; reflexivity
            | try reflexivity; intros [(?&?&?&?) ?]; discriminate ]).
Qed.

(** C5, the claim as worded fails: a custom tag made of blanks is a
    non-empty string, yet it yields no tags/ destination, and a tag with
    surrounding blanks yields the folder of its trimmed form. *)
Lemma getAllFolderPaths_blank_tag_counterexample :
  getAllFolderPaths emptyTags ["  "] = ["uncategorized"] /\
  Spec.destinationsAsWorded emptyTags ["  "] = ["tags/  "] /\
  getAllFolderPaths emptyTags [" cats "] = ["tags/cats"] /\
  Spec.destinationsAsWorded emptyTags [" cats "] = ["tags/ cats "].
Proof. repeat split; reflexivity. Qed.

(** ** Trimming *)

Lemma trimStart_clean (s : string) : Spec.startsClean (JS.trimStart s).
Proof.
  induction s as [|c s IH]; simpl; [exact I|].
  destruct (JS.isWhiteSpace c) eqn:Hc; [exact IH | exact Hc].
Qed.

Lemma trimStart_id (s : string) : Spec.startsClean s -> JS.trimStart s = s.
Proof.
  destruct s as [|c s]; simpl; [reflexivity|].
  intros ->. reflexivity.
Qed.

Lemma trimEnd_clean (s : string) : Spec.startsClean s -> Spec.startsClean (JS.trimEnd s).
Proof.
  destruct s as [|c s]; simpl; [trivial|].
  intros Hc. destruct (JS.trimEnd s); [rewrite Hc|]; exact Hc.
Qed.

Lemma trimEnd_idem (s : string) : JS.trimEnd (JS.trimEnd s) = JS.trimEnd s.
Proof.
  induction s as [|c s IH]; simpl; [reflexivity|].
  destruct (JS.trimEnd s) as [|c' r] eqn:Hr.
  - destruct (JS.isWhiteSpace c) eqn:Hc; simpl; [reflexivity|].
    now rewrite Hc.
  - change (JS.trimEnd (String c (String c' r))) with
      (match JS.trimEnd (String c' r) with
       | EmptyString =>
           if JS.isWhiteSpace c then EmptyString else String c EmptyString
       | r' => String c r'
       end).
    rewrite IH. reflexivity.
Qed.

Lemma trim_idem (s : string) : JS.trim (JS.trim s) = JS.trim s.
Proof.
  unfold JS.trim.
  rewrite (trimStart_id (JS.trimEnd (JS.trimStart s))).
  - apply trimEnd_idem.
  - apply trimEnd_clean, trimStart_clean.
Qed.

(** ** The legacy primary path *)

Lemma noCategory_dec (t : AutoTags) : {Spec.noCategory t} + {~ Spec.noCategory t}.
Proof.
  unfold Spec.noCategory.
  destruct (vehicle t), (pets t), (nature t), (JS.truthyOpt (person_id t));
    first [ left; repeat split; reflexivity
          | right; intros (?&?&?&?); discriminate ].
Qed.

Lemma primary_path_with_category (t : AutoTags) (customTags : list string) :
  ~ Spec.noCategory t ->
  determineFolderPath t customTags
  = Some (ImageProcessorOld.determineFolderPath t customTags).
Proof.
  unfold determineFolderPath. rewrite getAllFolderPaths_destinations_eq.
  unfold Spec.destinations, Spec.noCategory, ImageProcessorOld.determineFolderPath.
  destruct t as [pid n p v o]; simpl.
  destruct v, p, n; destruct pid as [[|c id]|]; simpl; intros H;
    try reflexivity; exfalso; apply H; repeat split; reflexivity.
Qed.

Lemma primary_path_without_category (t : AutoTags) (customTags : list string) :
  Spec.noCategory t ->
  determineFolderPath t customTags
  = match List.filter Spec.notBlank customTags with
    | [] => Some "uncategorized"
    | tag :: _ => Some ("tags/" ++ JS.trim tag)
    end /\
  ImageProcessorOld.determineFolderPath t customTags
  = match customTags with
    | [] => "uncategorized"
    | tag :: _ => "tags/" ++ tag
    end.
Proof.
  unfold determineFolderPath. rewrite getAllFolderPaths_destinations_eq.
  unfold Spec.destinations, Spec.noCategory, ImageProcessorOld.determineFolderPath.
  destruct t as [pid n p v o]; simpl.
  intros (-> & -> & -> & Hp).
  destruct pid as [[|c id]|]; simpl in *; try discriminate;
    destruct (List.filter Spec.notBlank customTags); split; reflexivity.
Qed.

(** C10 (as amended): the legacy determineFolderPath returns the first
    element of getAllFolderPaths exactly on the inputs where a category
    flag or a non-empty person id is set, or the custom-tag list is empty,
    or its first tag is non-empty and free of surrounding white space. *)
Theorem determineFolderPath_legacy_agreement (t : AutoTags) (customTags : list string) :
  determineFolderPath t customTags
  = Some (ImageProcessorOld.determineFolderPath t customTags)
  <-> Spec.primaryPathStable t customTags.
Proof.
  unfold Spec.primaryPathStable.
  destruct (noCategory_dec t) as [Hno|Hcat].
  2:{ split; [intros _; now left | intros _; now apply primary_path_with_category]. }
  destruct (primary_path_without_category t customTags Hno) as [-> ->].
  destruct customTags as [|tag rest]; simpl.
  { split; [intros _; right; now left | reflexivity]. }
  destruct (Spec.notBlank tag) eqn:Hb.
  - split.
    + intros H. injection H as H.
      right; right. exists tag, rest. repeat split; [|exact H].
      intros ->. discriminate Hb.
    + intros [H|[H|(tag' & rest' & Heq & _ & Htrim)]];
        [contradiction | discriminate |].
      injection Heq as <- <-. now rewrite Htrim.
  - split.
    + intros H. exfalso.
      destruct (List.filter Spec.notBlank rest) as [|tag' kept] eqn:Hkept;
        [discriminate H|].
      injection H as H.
      assert (Hin : In tag' (List.filter Spec.notBlank rest))
        by (rewrite Hkept; now left).
      apply filter_In in Hin. destruct Hin as [_ Hnb].
      unfold Spec.notBlank in Hb, Hnb.
      rewrite <- H, trim_idem, Hnb in Hb. discriminate.
    + intros [H|[H|(tag' & rest' & Heq & Hne & Htrim)]];
        [contradiction | discriminate |].
      injection Heq as <- <-. exfalso.
      unfold Spec.notBlank in Hb. rewrite Htrim in Hb.
      destruct tag; [now apply Hne | discriminate].
Qed.

(** C10, the claim as worded fails: with no category, the legacy code
    files the image under its first custom tag verbatim, while the current
    code trims the tag and skips blank ones. *)
Lemma determineFolderPath_legacy_counterexample :
  ImageProcessorOld.determineFolderPath emptyTags [" beach "] = "tags/ beach " /\
  determineFolderPath emptyTags [" beach "] = Some "tags/beach" /\
  ImageProcessorOld.determineFolderPath emptyTags [EmptyString; "beach"] = "tags/" /\
  determineFolderPath emptyTags [EmptyString; "beach"] = Some "tags/beach".
Proof. repeat split; reflexivity. Qed.

End Folders.

(* ================================================================== *)
(** * Signatures *)
(* ================================================================== *)

Section Signatures.

Import ImageProcessor.

Lemma firstn_skipn_positions (A : Type) (d : A) (l : list A) (start len : nat) :
  start + len <= List.length l ->
  firstn len (skipn start l) = map (fun j => nth (start + j) l d) (seq 0 len).
Proof.
  intros Hle.
  apply (nth_ext _ _ d d).
  - rewrite length_firstn, length_skipn, length_map, length_seq. lia.
  - intros j Hj.
    rewrite length_firstn, length_skipn in Hj.
    assert (Hlt : j < len) by lia.
    rewrite nth_firstn. apply Nat.ltb_lt in Hlt as Hb. rewrite Hb.
    rewrite nth_skipn.
    rewrite (nth_indep (map (fun j => nth (start + j) l d) (seq 0 len))
               d (nth (start + 0) l d))
      by (rewrite length_map, length_seq; lia).
    rewrite (map_nth (fun j => nth (start + j) l d)).
    now rewrite seq_nth.
Qed.

Lemma segments_fit (embedding : Embedding) (i : nat) :
  i < 8 ->
  i * Spec.segmentSize embedding + Spec.segmentSize embedding <= List.length embedding.
Proof.
  intros Hi. unfold Spec.segmentSize.
  pose proof (Nat.Div0.mul_div_le (List.length embedding) 8). nia.
Qed.

Lemma slice_segment (embedding : Embedding) (i : nat) :
  i < 8 ->
  slice (i * Spec.segmentSize embedding) ((i + 1) * Spec.segmentSize embedding) embedding
  = Spec.segmentOf embedding i.
Proof.
  intros Hi. unfold slice, Spec.segmentOf.
  replace ((i + 1) * Spec.segmentSize embedding - i * Spec.segmentSize embedding)
    with (Spec.segmentSize embedding) by lia.
  apply firstn_skipn_positions, segments_fit, Hi.
Qed.

Lemma signature_by_segments (embedding : Embedding) :
  generateEmbeddingSignature embedding
  = map (fun i => Spec.mean (Spec.segmentOf embedding i)) (seq 0 8).
Proof.
  unfold generateEmbeddingSignature. apply map_ext_in.
  intros i Hi. apply in_seq in Hi.
  fold (Spec.segmentSize embedding).
  rewrite slice_segment by lia. reflexivity.
Qed.

Lemma segmentOf_prefix (embedding other : Embedding) (i : nat) :
  i < 8 ->
  Spec.segmentSize other = Spec.segmentSize embedding ->
  firstn (8 * Spec.segmentSize embedding) other
  = firstn (8 * Spec.segmentSize embedding) embedding ->
  Spec.segmentOf other i = Spec.segmentOf embedding i.
Proof.
  intros Hi Hsize Hprefix. unfold Spec.segmentOf. rewrite Hsize.
  apply map_ext_in. intros j Hj. apply in_seq in Hj.
  assert (Hlt : (i * Spec.segmentSize embedding + j <? 8 * Spec.segmentSize embedding) = true)
    by (apply Nat.ltb_lt; nia).
  pose proof (nth_firstn (8 * Spec.segmentSize embedding) other
                (i * Spec.segmentSize embedding + j) 0%float) as Ho.
  pose proof (nth_firstn (8 * Spec.segmentSize embedding) embedding
                (i * Spec.segmentSize embedding + j) 0%float) as He.
  rewrite Hlt in Ho, He. rewrite <- Ho, <- He, Hprefix. reflexivity.
Qed.

(** C6: for an embedding of length n >= 8 the signature has exactly 8
    elements; element i is the arithmetic mean of the segment of the
    floor(n/8) elements at positions i*floor(n/8) .. (i+1)*floor(n/8)-1,
    all of which lie inside the embedding; and the signature is the same
    for every embedding with the same segment size and the same first
    8*floor(n/8) elements, so the remainder has no influence. *)
Theorem generateEmbeddingSignature_segment_means (embedding : Embedding) :
  8 <= List.length embedding ->
  List.length (generateEmbeddingSignature embedding) = 8 /\
  1 <= Spec.segmentSize embedding /\
  (forall i, i < 8 ->
     nth_error (generateEmbeddingSignature embedding) i
     = Some (Spec.mean (Spec.segmentOf embedding i)) /\
     List.length (Spec.segmentOf embedding i) = Spec.segmentSize embedding /\
     (i + 1) * Spec.segmentSize embedding <= List.length embedding) /\
  (forall other : Embedding,
     Spec.segmentSize other = Spec.segmentSize embedding ->
     firstn (8 * Spec.segmentSize embedding) other
     = firstn (8 * Spec.segmentSize embedding) embedding ->
     generateEmbeddingSignature other = generateEmbeddingSignature embedding).
Proof.
  intros Hlen. split; [|split; [|split]].
  - unfold generateEmbeddingSignature. now rewrite length_map, length_seq.
  - unfold Spec.segmentSize.
    change 1 with (8 / 8). apply Nat.Div0.div_le_mono. exact Hlen.
  - intros i Hi. split; [|split].
    + rewrite signature_by_segments.
      rewrite nth_error_map.
      rewrite (nth_error_nth' (seq 0 8) 0) by (rewrite length_seq; exact Hi).
      rewrite seq_nth by exact Hi. reflexivity.
    + unfold Spec.segmentOf. now rewrite length_map, length_seq.
    + pose proof (segments_fit embedding i Hi). lia.
  - intros other Hsize Hprefix.
    rewrite !signature_by_segments. apply map_ext_in.
    intros i Hi. apply in_seq in Hi.
    rewrite (segmentOf_prefix embedding other i) by (lia || assumption).
    reflexivity.
Qed.

Lemma generateEmbeddingSignature_segment_means_witness :
  8 <= List.length [1; 2; 3; 4; 5; 6; 7; 8; 9; 10; 11; 12; 13; 14; 15; 16; 17]%float /\
  List.length (generateEmbeddingSignature
                 [1; 2; 3; 4; 5; 6; 7; 8; 9; 10; 11; 12; 13; 14; 15; 16; 17]%float) = 8.
Proof.
  split.
  - simpl. lia.
  - apply (generateEmbeddingSignature_segment_means
             [1; 2; 3; 4; 5; 6; 7; 8; 9; 10; 11; 12; 13; 14; 15; 16; 17]%float).
    simpl. lia.
Defined.

(** An embedding shorter than 8 has segment size 0: every segment is
    empty and every element of the signature is 0/0. *)
Lemma short_embedding_slices (embedding : Embedding) (i : nat) :
  List.length embedding < 8 ->
  slice (i * (List.length embedding / 8)) ((i + 1) * (List.length embedding / 8)) embedding
  = [].
Proof.
  intros Hlen. rewrite (Nat.div_small _ 8 Hlen).
  rewrite !Nat.mul_0_r. reflexivity.
Qed.

(** C7, what the code does on a short embedding: no error is raised and
    nothing is padded; the result is a signature of eight NaN values. *)
Theorem generateEmbeddingSignature_short_is_nan (embedding : Embedding) :
  List.length embedding < 8 ->
  generateEmbeddingSignature embedding = repeat PrimFloat.nan 8.
Proof.
  intros Hlen. unfold generateEmbeddingSignature.
  rewrite (map_ext_in _ (fun _ => PrimFloat.nan)).
  - reflexivity.
  - intros i _. rewrite short_embedding_slices by exact Hlen. reflexivity.
Qed.

Lemma generateEmbeddingSignature_short_is_nan_witness :
  List.length [0.5; 0.25; 0.75]%float < 8 /\
  generateEmbeddingSignature [0.5; 0.25; 0.75]%float = repeat PrimFloat.nan 8.
Proof.
  split.
  - simpl. lia.
  - apply (generateEmbeddingSignature_short_is_nan [0.5; 0.25; 0.75]%float).
    simpl. lia.
Defined.

(** The NaN signature reaches the identity store: it is stored, it is
    similar to nothing (not even itself), and the same short embedding
    presented twice receives two different person ids. *)
Example short_embedding_splits_identity :
  let embedding := [0.5; 0.25; 0.75]%float in
  let '(first, store1) := findOrCreatePersonId embedding [] in
  let '(second, store2) := findOrCreatePersonId embedding store1 in
  first = "person_0001" /\ second = "person_0002" /\
  store2 = [("person_0001", repeat PrimFloat.nan 8);
            ("person_0002", repeat PrimFloat.nan 8)].
Proof. vm_compute. repeat split. Qed.

End Signatures.

(* ================================================================== *)
(** * The person identity store *)
(* ================================================================== *)

Section Identity.

Import ImageProcessor.

(** ** Person ids *)

Lemma uint_of_string_zeros (k : nat) (s : string) (d : Decimal.uint) :
  DecimalString.NilEmpty.uint_of_string s = Some d ->
  DecimalString.NilEmpty.uint_of_string (JS.repeatChar "0" k ++ s)
  = Some (Nat.iter k Decimal.D0 d).
Proof.
  intros Hs. induction k as [|k IH]; simpl; [exact Hs|].
  rewrite IH. reflexivity.
Qed.

Lemma of_uint_zeros (k : nat) (d : Decimal.uint) :
  Nat.of_uint (Nat.iter k Decimal.D0 d) = Nat.of_uint d.
Proof.
  induction k as [|k IH]; simpl; [reflexivity|].
  exact IH.
Qed.

Lemma personIdNumber_personIdOf (n : nat) :
  Spec.personIdNumber (personIdOf n) = Some n.
Proof.
  unfold Spec.personIdNumber, personIdOf.
  change (Spec.stripPrefix "person_" ("person_" ++ JS.padStart 4 "0" (JS.stringOfNat n)))
    with (Some (JS.padStart 4 "0" (JS.stringOfNat n))).
  unfold JS.padStart, JS.stringOfNat.
  rewrite (uint_of_string_zeros _ _ (Nat.to_uint n))
    by apply DecimalString.NilEmpty.usu.
  simpl. rewrite of_uint_zeros. f_equal. apply DecimalNat.Unsigned.of_to.
Qed.

Lemma personIdOf_inj (n m : nat) : personIdOf n = personIdOf m -> n = m.
Proof.
  intros H. apply (f_equal Spec.personIdNumber) in H.
  rewrite !personIdNumber_personIdOf in H. now injection H.
Qed.

(** ** The scan *)

Lemma firstMatch_app (signature : Signature) (pre rest : PersonStore) :
  Spec.noMatch signature pre ->
  firstMatch signature (pre ++ rest)%list = firstMatch signature rest.
Proof.
  induction 1 as [|[id stored] pre Hhd _ IH]; simpl; [reflexivity|].
  unfold Spec.similar in Hhd. simpl in Hhd. rewrite Hhd. exact IH.
Qed.

Lemma firstMatch_none (signature : Signature) (store : PersonStore) :
  Spec.noMatch signature store -> firstMatch signature store = None.
Proof.
  intros H. rewrite <- (List.app_nil_r store). now rewrite firstMatch_app.
Qed.

Lemma firstMatch_first (signature stored : Signature) (pre post : PersonStore)
  (personId : string) :
  Spec.noMatch signature pre ->
  Spec.similar signature stored = true ->
  firstMatch signature (pre ++ (personId, stored) :: post)%list = Some personId.
Proof.
  intros Hpre Hsim. rewrite firstMatch_app by exact Hpre.
  simpl. unfold Spec.similar in Hsim. now rewrite Hsim.
Qed.

(** ** The store *)

Lemma mapSet_fresh (key : string) (value : Signature) (store : PersonStore) :
  ~ In key (map fst store) ->
  mapSet key value store = (store ++ [(key, value)])%list.
Proof.
  induction store as [|[k v] store IH]; simpl; intros Hnot; [reflexivity|].
  destruct (String.eqb_spec k key) as [->|_].
  - exfalso. apply Hnot. now left.
  - rewrite IH; [reflexivity|]. intros Hin. apply Hnot. now right.
Qed.

Lemma next_id_fresh (store : PersonStore) :
  Spec.registryOrdered store ->
  ~ In (personIdOf (List.length store + 1)) (map fst store).
Proof.
  unfold Spec.registryOrdered. intros -> Hin.
  apply in_map_iff in Hin. destruct Hin as (k & Heq & Hk).
  apply personIdOf_inj in Heq. apply in_seq in Hk. lia.
Qed.

Lemma registryOrdered_snoc (store : PersonStore) (signature : Signature) :
  Spec.registryOrdered store ->
  Spec.registryOrdered (store ++ [(personIdOf (List.length store + 1), signature)])%list.
Proof.
  unfold Spec.registryOrdered. intros H.
  rewrite map_app, length_app, H. simpl.
  rewrite Nat.add_1_r, seq_S, map_app. reflexivity.
Qed.

Lemma findOrCreatePersonId_mint (store : PersonStore) (embedding : Embedding) :
  Spec.registryOrdered store ->
  Spec.noMatch (generateEmbeddingSignature embedding) store ->
  findOrCreatePersonId embedding store
  = (personIdOf (List.length store + 1),
     (store ++ [(personIdOf (List.length store + 1),
                 generateEmbeddingSignature embedding)])%list).
Proof.
  intros Hord Hno. unfold findOrCreatePersonId.
  rewrite firstMatch_none by exact Hno.
  now rewrite mapSet_fresh by (apply next_id_fresh, Hord).
Qed.

Lemma findOrCreatePersonId_ordered (store : PersonStore) (embedding : Embedding) :
  Spec.registryOrdered store ->
  Spec.registryOrdered (snd (findOrCreatePersonId embedding store)).
Proof.
  intros Hord. unfold findOrCreatePersonId.
  destruct (firstMatch (generateEmbeddingSignature embedding) store); simpl.
  - exact Hord.
  - rewrite mapSet_fresh by (apply next_id_fresh, Hord).
    apply registryOrdered_snoc, Hord.
Qed.

(** C3 (as amended): resolution scans the stored identities in insertion
    order and returns the first whose signature has cosine similarity
    strictly greater than 0.85 with the presented signature; when there
    is none it mints person_{N+1}, padded to four digits, for a store of
    size N, and appends it, so ids are numbered in order of first
    appearance.  Of two embeddings that match no earlier identity, the
    second resolves to the id minted for the first exactly when its
    signature is similar (similarity > 0.85) to the first's, and to
    person_{N+2} otherwise. *)
Theorem findOrCreatePersonId_resolution (store : PersonStore) (embedding : Embedding) :
  Spec.registryOrdered store ->
  let signature := generateEmbeddingSignature embedding in
  let N := List.length store in
  (forall pre personId stored post,
     store = (pre ++ (personId, stored) :: post)%list ->
     Spec.noMatch signature pre ->
     Spec.similar signature stored = true ->
     findOrCreatePersonId embedding store = (personId, store)) /\
  (Spec.noMatch signature store ->
     findOrCreatePersonId embedding store
     = (personIdOf (N + 1), (store ++ [(personIdOf (N + 1), signature)])%list)) /\
  (forall n, Spec.personIdNumber (personIdOf n) = Some n) /\
  Spec.registryOrdered (snd (findOrCreatePersonId embedding store)) /\
  (forall second : Embedding,
     Spec.noMatch signature store ->
     Spec.noMatch (generateEmbeddingSignature second) store ->
     fst (findOrCreatePersonId second (snd (findOrCreatePersonId embedding store)))
     = if Spec.similar (generateEmbeddingSignature second) signature
       then personIdOf (N + 1)
       else personIdOf (N + 2)).
Proof.
  intros Hord signature N. repeat split.
  - intros pre personId stored post -> Hpre Hsim.
    unfold findOrCreatePersonId. fold signature.
    now rewrite firstMatch_first.
  - intros Hno. now apply findOrCreatePersonId_mint.
  - apply personIdNumber_personIdOf.
  - now apply findOrCreatePersonId_ordered.
  - intros second Hno Hno2.
    rewrite (findOrCreatePersonId_mint store embedding Hord Hno). simpl.
    fold signature. fold N.
    unfold findOrCreatePersonId at 1.
    rewrite firstMatch_app by exact Hno2. simpl.
    unfold Spec.similar.
    destruct (PrimFloat.ltb threshold
                (calculateSimilarity (generateEmbeddingSignature second) signature));
      simpl; [reflexivity|].
    rewrite length_app. simpl. fold N.
    now replace (N + 1 + 1) with (N + 2) by lia.
Qed.

Lemma findOrCreatePersonId_resolution_witness :
  Spec.registryOrdered (snd (findOrCreatePersonId [1; 0; 0; 0; 0; 0; 0; 0]%float [])) /\
  findOrCreatePersonId [0.9; 0.43; 0; 0; 0; 0; 0; 0]%float
    (snd (findOrCreatePersonId [1; 0; 0; 0; 0; 0; 0; 0]%float []))
  = ("person_0001", [("person_0001", [1; 0; 0; 0; 0; 0; 0; 0]%float)]).
Proof.
  split.
  - reflexivity.
  - apply (proj1 (findOrCreatePersonId_resolution
                    (snd (findOrCreatePersonId [1; 0; 0; 0; 0; 0; 0; 0]%float []))
                    [0.9; 0.43; 0; 0; 0; 0; 0; 0]%float eq_refl)
             [] "person_0001" [1; 0; 0; 0; 0; 0; 0; 0]%float []).
    + reflexivity.
    + constructor.
    + vm_compute. reflexivity.
Defined.

(** C3, the claim as worded fails in three ways.  (1) At a similarity of
    exactly 0.85 the stored identity is not reused.  (2) Two embeddings
    whose similarity is below the threshold resolve to the same id when
    both are similar to an earlier identity.  (3) Two embeddings whose
    similarity is above the threshold resolve to different ids when the
    second meets an earlier identity first. *)
Lemma findOrCreatePersonId_threshold_counterexample :
  (let a := [1; 0; 0; 0; 0; 0; 0; 0]%float in
   let b := [17; 10; 3; 1; 1; 0; 0; 0]%float in
   let '(idA, store1) := findOrCreatePersonId a [] in
   let '(idB, _) := findOrCreatePersonId b store1 in
   Spec.atLeastThreshold (generateEmbeddingSignature b) (generateEmbeddingSignature a) = true /\
   idA = "person_0001" /\ idB = "person_0002") /\
  (let c := [1; 0; 0; 0; 0; 0; 0; 0]%float in
   let a := [0.9; 0.43; 0; 0; 0; 0; 0; 0]%float in
   let b := [0.9; -0.43; 0; 0; 0; 0; 0; 0]%float in
   let '(_, store1) := findOrCreatePersonId c [] in
   let '(idA, store2) := findOrCreatePersonId a store1 in
   let '(idB, _) := findOrCreatePersonId b store2 in
   Spec.atLeastThreshold (generateEmbeddingSignature b) (generateEmbeddingSignature a) = false /\
   idA = "person_0001" /\ idB = "person_0001") /\
  (let c := [1; 0; 0; 0; 0; 0; 0; 0]%float in
   let a := [0.643; 0.766; 0; 0; 0; 0; 0; 0]%float in
   let b := [0.906; 0.423; 0; 0; 0; 0; 0; 0]%float in
   let '(_, store1) := findOrCreatePersonId c [] in
   let '(idA, store2) := findOrCreatePersonId a store1 in
   let '(idB, _) := findOrCreatePersonId b store2 in
   Spec.atLeastThreshold (generateEmbeddingSignature b) (generateEmbeddingSignature a) = true /\
   idA = "person_0002" /\ idB = "person_0001").
Proof. vm_compute. repeat split. Qed.

End Identity.

(* ================================================================== *)
(** * Classification *)
(* ================================================================== *)

Section Classification.

Import ImageProcessor.

(** ** The hash *)

Lemma wrap32_range (z : Z) : (- 2 ^ 31 <= Num.wrap32 z < 2 ^ 31)%Z.
Proof.
  unfold Num.wrap32.
  pose proof (Z.mod_pos_bound (z + 2 ^ 31) (2 ^ 32) eq_refl) as H.
  change (2 ^ 31)%Z with 2147483648%Z in *.
  change (2 ^ 32)%Z with 4294967296%Z in *. lia.
Qed.

Lemma toInt32_range (x : float) : (- 2 ^ 31 <= Num.toInt32 x < 2 ^ 31)%Z.
Proof.
  unfold Num.toInt32. destruct (Prim2SF x); try (split; [discriminate|reflexivity]).
  apply wrap32_range.
Qed.

Lemma hash_fold_range (A : Type) (f : A -> float) (l : list A) (h : Z) :
  (- 2 ^ 31 <= h < 2 ^ 31)%Z ->
  (- 2 ^ 31 <= fold_left (fun h x => hashStep h (f x)) l h < 2 ^ 31)%Z.
Proof.
  revert h; induction l as [|x l IH]; intros h Hh; simpl; [exact Hh|].
  apply IH. apply toInt32_range.
Qed.

Lemma embeddingHash_range (embedding : Embedding) (filename : string) :
  (- 2 ^ 31 <= embeddingHash embedding filename < 2 ^ 31)%Z.
Proof.
  unfold embeddingHash.
  apply (hash_fold_range float (fun v => Num.floor (PrimFloat.mul v 1000))).
  apply (hash_fold_range ascii (fun c => Num.ofNat (JS.code c))).
  split; [discriminate|reflexivity].
Qed.

Lemma firstn_min_length (A : Type) (n : nat) (l : list A) :
  firstn (Nat.min n (List.length l)) l = firstn n l.
Proof.
  destruct (Nat.le_ge_cases n (List.length l)) as [H|H].
  - now rewrite Nat.min_l.
  - rewrite Nat.min_r by exact H. rewrite firstn_all.
    symmetry. now apply firstn_all2.
Qed.

Lemma embeddingHash_first_ten (embedding : Embedding) (filename : string) :
  embeddingHash (firstn 10 embedding) filename = embeddingHash embedding filename.
Proof.
  unfold embeddingHash. rewrite !firstn_min_length.
  now rewrite firstn_firstn.
Qed.

Lemma classifyByEmbedding_bucket (embedding : Embedding) (filename : string) :
  embedding <> [] ->
  Spec.bucketOf (Z.abs (embeddingHash embedding filename) mod 100)
    (classifyByEmbedding embedding filename).
Proof.
  intros Hne. unfold classifyByEmbedding, Spec.bucketOf.
  destruct embedding as [|v rest]; [contradiction|].
  change (List.length (v :: rest) =? 0) with false. cbv iota.
  set (hash := embeddingHash (v :: rest) filename).
  rewrite Z.rem_mod_nonneg by lia.
  pose proof (Z.mod_pos_bound (Z.abs hash) 100 eq_refl) as Hb.
  destruct (Z.ltb_spec (Z.abs hash mod 100) 25);
    [left; split; [lia | reflexivity]|].
  destruct (Z.ltb_spec (Z.abs hash mod 100) 50);
    [right; left; split; [lia | reflexivity]|].
  destruct (Z.ltb_spec (Z.abs hash mod 100) 75);
    [right; right; left; split; [lia | reflexivity]|].
  right; right; right; split; [lia | reflexivity].
Qed.

(** ** Integers in binary64

    The hash is computed on numbers.  Every intermediate value is an
    integer of magnitude below 2^53, which binary64 holds exactly, so the
    additions do not round. *)

Local Open Scope Z_scope.

Lemma digits2_size (p : positive) : digits2_pos p = Pos.size p.
Proof. induction p; simpl; congruence. Qed.

Lemma digits_bounds (p : positive) :
  2 ^ (Z.pos (digits2_pos p) - 1) <= Z.pos p < 2 ^ Z.pos (digits2_pos p).
Proof.
  rewrite digits2_size.
  pose proof (Pos.size_gt p) as Hgt. pose proof (Pos.size_le p) as Hle.
  split.
  - apply Pos2Z.pos_le_pos in Hle. rewrite Pos2Z.inj_pow in Hle.
    change (Z.pos p~0) with (2 * Z.pos p) in Hle.
    replace (Z.pos (Pos.size p)) with (Z.succ (Z.pos (Pos.size p) - 1)) in Hle by lia.
    rewrite Z.pow_succ_r in Hle by lia. lia.
  - apply Pos2Z.pos_lt_pos in Hgt. now rewrite Pos2Z.inj_pow in Hgt.
Qed.

Lemma digits_unique (p : positive) (d : Z) :
  2 ^ (d - 1) <= Z.pos p < 2 ^ d -> Z.pos (digits2_pos p) = d.
Proof.
  intros [Hlo Hhi]. destruct (digits_bounds p) as [Hlo' Hhi'].
  assert (Hd : 0 < d).
  { destruct (Z.ltb_spec 0 d); [assumption|].
    rewrite (Z.pow_neg_r 2 (d - 1)) in Hlo by lia.
    destruct (Z.eq_dec d 0) as [->|]; [simpl in Hhi; lia|].
    rewrite Z.pow_neg_r in Hhi by lia. lia. }
  destruct (Z.lt_trichotomy (Z.pos (digits2_pos p)) d) as [H|[H|H]]; [|exact H|].
  - assert (2 ^ Z.pos (digits2_pos p) <= 2 ^ (d - 1)) by (apply Z.pow_le_mono_r; lia).
    lia.
  - assert (2 ^ d <= 2 ^ (Z.pos (digits2_pos p) - 1)) by (apply Z.pow_le_mono_r; lia).
    lia.
Qed.

Lemma digits_shift (p q : positive) (j : Z) :
  0 <= j -> Z.pos q = Z.pos p * 2 ^ j ->
  Z.pos (digits2_pos q) = Z.pos (digits2_pos p) + j.
Proof.
  intros Hj Hq. apply digits_unique. destruct (digits_bounds p) as [Hlo Hhi].
  rewrite Hq.
  replace (Z.pos (digits2_pos p) + j - 1) with ((Z.pos (digits2_pos p) - 1) + j) by lia.
  rewrite !Z.pow_add_r by lia.
  assert (0 < 2 ^ j) by (apply Z.pow_pos_nonneg; lia).
  split; [apply Z.mul_le_mono_nonneg_r; lia | apply Z.mul_lt_mono_pos_r; lia].
Qed.

Lemma iter_xO (p d : positive) : Z.pos (Pos.iter xO p d) = Z.pos p * 2 ^ Z.pos d.
Proof.
  induction d as [|d IH] using Pos.peano_ind.
  - simpl. lia.
  - rewrite Pos.iter_succ, Pos2Z.inj_succ, Z.pow_succ_r by lia.
    change (Z.pos (Pos.iter xO p d)~0) with (2 * Z.pos (Pos.iter xO p d)).
    rewrite IH. ring.
Qed.

Lemma iter_pos_succ (A : Type) (f : A -> A) (d : positive) (x : A) :
  iter_pos f (Pos.succ d) x = iter_pos f d (f x).
Proof.
  assert (Hcomm : forall d x, iter_pos f d (f x) = f (iter_pos f d x)).
  { clear. induction d as [d IH|d IH|]; intros x; simpl; [|now rewrite !IH|reflexivity].
    now rewrite !IH. }
  revert x; induction d as [d IH|d IH|]; intros x; simpl; try reflexivity.
  now rewrite !IH, !Hcomm.
Qed.

Lemma shr_exact (d : positive) (x m : positive) :
  Z.pos m = Z.pos x * 2 ^ Z.pos d ->
  iter_pos shr_1 d (Build_shr_record (Z.pos m) false false)
  = Build_shr_record (Z.pos x) false false.
Proof.
  revert m; induction d as [|d IH] using Pos.peano_ind; intros m Hm.
  - simpl. change (2 ^ 1) with 2 in Hm.
    destruct m as [m|m|]; try lia. f_equal. lia.
  - rewrite iter_pos_succ.
    rewrite Pos2Z.inj_succ, Z.pow_succ_r in Hm by lia.
    destruct m as [m|m|]; try lia.
    simpl shr_1. apply IH. lia.
Qed.

Lemma fexp_small (d : Z) : 1 <= d <= 53 -> fexp prec emax d = d - 53.
Proof. intros H. unfold fexp, SpecFloat.emin, prec, emax. lia. Qed.

Lemma shr_fexp_exact (mz x : positive) (ez e0 d : Z) :
  Z.pos (digits2_pos mz) + ez = d -> 1 <= d <= 53 -> e0 = d - 53 -> ez <= e0 ->
  Z.pos mz = Z.pos x * 2 ^ (e0 - ez) ->
  shr_fexp prec emax (Z.pos mz) ez loc_Exact
  = (Build_shr_record (Z.pos x) false false, e0).
Proof.
  intros Hd Hrange He0 Hle Hmz.
  unfold shr_fexp. simpl Zdigits2. rewrite Hd, fexp_small by exact Hrange.
  rewrite <- He0. simpl shr_record_of_loc. unfold shr.
  destruct (e0 - ez) as [|p|p] eqn:Hamount; try lia.
  - rewrite Z.mul_1_r in Hmz. f_equal; [f_equal; lia | lia].
  - rewrite (shr_exact p x mz Hmz). f_equal. lia.
Qed.

Lemma binary_round_exact (s : bool) (m n : positive) (e : Z) :
  e <= 0 -> Z.pos m = Z.pos n * 2 ^ (- e) -> Z.pos n < 2 ^ 53 ->
  exists m' e', binary_round prec emax s m e = S754_finite s m' e' /\
                e' <= 0 /\ Z.pos m' = Z.pos n * 2 ^ (- e').
Proof.
  intros He Hm Hn.
  set (d := Z.pos (digits2_pos n)).
  assert (Hd : 1 <= d <= 53).
  { destruct (digits_bounds n) as [Hlo _]. fold d in Hlo. split; [lia|].
    destruct (Z.leb_spec d 53); [assumption|].
    assert (2 ^ 53 <= 2 ^ (d - 1)) by (apply Z.pow_le_mono_r; lia). lia. }
  set (e0 := d - 53).
  assert (Hx : exists x, Z.pos x = Z.pos n * 2 ^ (- e0)).
  { exists (Z.to_pos (Z.pos n * 2 ^ (- e0))). rewrite Z2Pos.id; [reflexivity|].
    apply Z.mul_pos_pos; [lia | apply Z.pow_pos_nonneg; lia]. }
  destruct Hx as [x Hx].
  assert (Hdm : Z.pos (digits2_pos m) + e = d).
  { rewrite (digits_shift n m (- e)) by (lia || exact Hm). fold d. lia. }
  unfold binary_round. rewrite Hdm, fexp_small by exact Hd. fold e0.
  assert (Hal : exists mz ez, shl_align m e e0 = (mz, ez) /\ ez <= e0 /\
                              Z.pos mz = Z.pos n * 2 ^ (- ez)).
  { unfold shl_align. destruct (e0 - e) as [|p|p] eqn:Hdiff.
    - exists m, e. repeat split; [lia | exact Hm].
    - exists m, e. repeat split; [lia | exact Hm].
    - exists (Pos.iter xO m p), e0. split; [reflexivity|]. split; [lia|].
      rewrite iter_xO, Hm, <- Z.mul_assoc, <- Z.pow_add_r by lia.
      f_equal. f_equal. lia. }
  destruct Hal as (mz & ez & -> & Hez & Hmz).
  assert (Hdz : Z.pos (digits2_pos mz) + ez = d).
  { rewrite (digits_shift n mz (- ez)) by (lia || exact Hmz). fold d. lia. }
  assert (Hmzx : Z.pos mz = Z.pos x * 2 ^ (e0 - ez)).
  { rewrite Hmz, Hx, <- Z.mul_assoc, <- Z.pow_add_r by lia. f_equal. f_equal. lia. }
  unfold binary_round_aux.
  rewrite (shr_fexp_exact mz x ez e0 d Hdz Hd eq_refl Hez Hmzx).
  simpl shr_m. simpl loc_of_shr_record. simpl round_nearest_even.
  assert (Hdx : Z.pos (digits2_pos x) + e0 = d).
  { rewrite (digits_shift n x (- e0)) by (lia || exact Hx). fold d. lia. }
  rewrite (shr_fexp_exact x x e0 e0 d Hdx Hd eq_refl (Z.le_refl _))
    by (rewrite Z.sub_diag; simpl; lia).
  simpl shr_m.
  assert (Hle : (e0 <=? emax - prec) = true) by (apply Z.leb_le; unfold emax, prec; lia).
  rewrite Hle. exists x, e0. repeat split; [lia | exact Hx].
Qed.

Lemma normalize_holds (M z e : Z) :
  e <= 0 -> M = z * 2 ^ (- e) -> Z.abs z < 2 ^ 53 ->
  Props.holds (binary_normalize prec emax M e false) z.
Proof.
  intros He HM Hz.
  assert (Hpow : 0 < 2 ^ (- e)) by (apply Z.pow_pos_nonneg; lia).
  destruct z as [|n|n].
  - subst M. reflexivity.
  - destruct M as [|m|m]; try lia.
    simpl binary_normalize.
    destruct (binary_round_exact false m n e He HM Hz) as (m' & e' & -> & He' & Hm').
    simpl. repeat split; [exact He' | exact Hm' | discriminate].
  - destruct M as [|m|m]; try lia.
    simpl binary_normalize.
    assert (HM' : Z.pos m = Z.pos n * 2 ^ (- e)) by lia.
    destruct (binary_round_exact true m n e He HM' Hz) as (m' & e' & -> & He' & Hm').
    simpl. repeat split; [exact He' | exact Hm' | discriminate].
Qed.

Lemma opp_holds (x : spec_float) (z : Z) : Props.holds x z -> Props.holds (SFopp x) (- z).
Proof.
  destruct x as [s|s| |s m e]; simpl; try tauto; [lia|].
  intros (He & Hm & Hz & Hs). rewrite Z.abs_opp.
  repeat split; [exact He | exact Hm | lia |].
  rewrite Hs. destruct (Z.ltb_spec z 0), (Z.ltb_spec (- z) 0); simpl; lia.
Qed.

Lemma ofZ_holds (z : Z) : Z.abs z < 2 ^ 53 -> Props.holds (Prim2SF (Num.ofZ z)) z.
Proof.
  intros Hz. unfold Num.ofZ.
  assert (Hbig : (2 ^ 53 < wB)%Z) by reflexivity.
  destruct (Z.ltb_spec z 0) as [Hneg|Hpos].
  - rewrite FloatAxioms.opp_spec, FloatAxioms.of_uint63_spec, Uint63.of_Z_spec, Z.mod_small by lia.
    replace z with (- - z) at 2 by lia. apply opp_holds.
    apply normalize_holds; [lia | simpl; lia | lia].
  - rewrite FloatAxioms.of_uint63_spec, Uint63.of_Z_spec, Z.mod_small by lia.
    apply normalize_holds; [lia | simpl; lia | lia].
Qed.

Lemma shl_align_value (m : positive) (e ez : Z) :
  ez <= e ->
  Z.pos (fst (shl_align m e ez)) = Z.pos m * 2 ^ (e - ez).
Proof.
  intros Hle. unfold shl_align.
  destruct (ez - e) as [|p|p] eqn:Hdiff; simpl fst.
  - replace (e - ez) with 0 by lia. simpl. lia.
  - lia.
  - rewrite iter_xO. f_equal. f_equal. lia.
Qed.

Lemma signed_value (s : bool) (m : positive) (z e ez : Z) :
  ez <= e -> e <= 0 -> Z.pos m = Z.abs z * 2 ^ (- e) -> s = (z <? 0) ->
  cond_Zopp s (Z.pos (fst (shl_align m e ez))) = z * 2 ^ (- ez).
Proof.
  intros Hle He Hm ->. rewrite shl_align_value, Hm by exact Hle.
  rewrite <- Z.mul_assoc, <- Z.pow_add_r by lia.
  replace (- e + (e - ez)) with (- ez) by lia.
  unfold cond_Zopp. destruct (Z.ltb_spec z 0); [|now rewrite Z.abs_eq by lia].
  rewrite Z.abs_neq by lia. ring.
Qed.

Lemma add_holds (x y : spec_float) (a b : Z) :
  Props.holds x a -> Props.holds y b -> Z.abs (a + b) < 2 ^ 53 ->
  Props.holds (FloatAxioms.SF64add x y) (a + b).
Proof.
  intros Hx Hy Hsum. unfold FloatAxioms.SF64add.
  destruct x as [sx|sx| |sx mx ex], y as [sy|sy| |sy my ey]; simpl in Hx, Hy;
    try contradiction.
  - subst a b. simpl. destruct sx, sy; reflexivity.
  - subst a. simpl. exact Hy.
  - subst b. rewrite Z.add_0_r. simpl. exact Hx.
  - destruct Hx as (Hex & Hmx & Ha & Hsx), Hy as (Hey & Hmy & Hb & Hsy).
    unfold SFadd.
    apply normalize_holds; [lia | | exact Hsum].
    rewrite (signed_value sx mx a ex (Z.min ex ey)) by (lia || assumption).
    rewrite (signed_value sy my b ey (Z.min ex ey)) by (lia || assumption).
    ring.
Qed.

Lemma toInt32_holds (f : float) (z : Z) : Props.holds (Prim2SF f) z -> Num.toInt32 f = Num.wrap32 z.
Proof.
  unfold Num.toInt32. destruct (Prim2SF f) as [s|s| |s m e]; simpl; try tauto.
  - intros ->. reflexivity.
  - intros (He & Hm & Hz & Hs).
    assert (Hmag : Z.shiftl (Z.pos m) e = Z.abs z).
    { replace e with (- - e) by lia. rewrite <- Z.shiftr_opp_r.
      replace (- - - e) with (- e) by lia.
      rewrite Z.shiftr_div_pow2 by lia. rewrite Hm.
      apply Z.div_mul. apply Z.pow_nonzero; lia. }
    rewrite Hmag, Hs. f_equal.
    destruct (Z.ltb_spec z 0); lia.
Qed.

Lemma wrap32_add (u v : Z) : Num.wrap32 (Num.wrap32 u + v) = Num.wrap32 (u + v).
Proof.
  unfold Num.wrap32. f_equal.
  replace ((u + 2 ^ 31) mod 2 ^ 32 - 2 ^ 31 + v + 2 ^ 31)
    with ((u + 2 ^ 31) mod 2 ^ 32 + v) by ring.
  rewrite Zplus_mod_idemp_l. f_equal. ring.
Qed.


Lemma hashStep_holds (h k : Z) (v : float) :
  - 2 ^ 31 <= h < 2 ^ 31 -> Props.holds (Prim2SF v) k -> Z.abs k <= 2 ^ 52 ->
  hashStep h v = Num.wrap32 (31 * h + k).
Proof.
  intros Hh Hv Hk. unfold hashStep.
  pose proof (wrap32_range (h * 32)) as Hw.
  change (2 ^ 31)%Z with 2147483648%Z in *.
  change (2 ^ 52)%Z with 4503599627370496%Z in *.
  rewrite (toInt32_holds _ (Num.wrap32 (h * 32) - h + k)).
  - replace (Num.wrap32 (h * 32) - h + k) with (Num.wrap32 (h * 32) + (k - h)) by ring.
    rewrite wrap32_add. f_equal. ring.
  - rewrite FloatAxioms.add_spec. apply add_holds.
    + apply ofZ_holds. change (2 ^ 53)%Z with 9007199254740992%Z. lia.
    + exact Hv.
    + change (2 ^ 53)%Z with 9007199254740992%Z. lia.
Qed.

Lemma mantissa_bound (x : float) (s : bool) (m : positive) (e : Z) :
  Prim2SF x = S754_finite s m e -> Z.pos m < 2 ^ 53.
Proof.
  intros Hx. pose proof (FloatAxioms.Prim2SF_valid x) as Hvalid.
  rewrite Hx in Hvalid. simpl in Hvalid. unfold bounded in Hvalid.
  apply andb_prop in Hvalid as [Hcanon _].
  unfold canonical_mantissa in Hcanon. apply Z.eqb_eq in Hcanon.
  unfold fexp, SpecFloat.emin, prec, emax in Hcanon.
  destruct (digits_bounds m) as [_ Hhi].
  assert (Hd : Z.pos (digits2_pos m) <= 53) by lia.
  assert (2 ^ Z.pos (digits2_pos m) <= 2 ^ 53) by (apply Z.pow_le_mono_r; lia).
  lia.
Qed.

Lemma scaledValue_holds (v : float) (k : Z) :
  Spec.scaledValue v = Some k ->
  Props.holds (Prim2SF (Num.floor (PrimFloat.mul v 1000))) k /\ Z.abs k <= 2 ^ 52.
Proof.
  unfold Spec.scaledValue, Num.floor.
  destruct (Prim2SF (PrimFloat.mul v 1000)) as [s|s| |s m e] eqn:Hx;
    try discriminate.
  - intros [= <-]. rewrite Hx. split; [reflexivity | discriminate].
  - destruct (Z.ltb_spec e 0) as [He|He]; [|discriminate]. intros [= <-].
    assert (Hle : (0 <=? e) = false) by (apply Z.leb_gt; exact He).
    rewrite Hle.
    pose proof (mantissa_bound _ s m e Hx) as Hm.
    assert (Hk : Z.abs (Z.shiftr (Num.signedMantissa s m) (- e)) <= 2 ^ 52).
    { rewrite Z.shiftr_div_pow2 by lia.
      assert (Hpow : 2 <= 2 ^ (- e)).
      { change 2 with (2 ^ 1) at 1. apply Z.pow_le_mono_r; lia. }
      change (2 ^ 53) with 9007199254740992 in Hm.
      change (2 ^ 52) with 4503599627370496.
      pose proof (Z.div_mod (Num.signedMantissa s m) (2 ^ (- e)) ltac:(lia)) as Hdiv.
      pose proof (Z.mod_pos_bound (Num.signedMantissa s m) (2 ^ (- e)) ltac:(lia)) as Hmod.
      unfold Num.signedMantissa in *. destruct s; nia. }
    split; [|exact Hk].
    apply ofZ_holds. change (2 ^ 53) with 9007199254740992.
    change (2 ^ 52) with 4503599627370496 in Hk. lia.
Qed.

Lemma code_holds (c : ascii) :
  Props.holds (Prim2SF (Num.ofNat (JS.code c))) (Z.of_nat (JS.code c)) /\
  Z.abs (Z.of_nat (JS.code c)) <= 2 ^ 52.
Proof.
  pose proof (nat_ascii_bounded c) as Hc. unfold JS.code.
  change (2 ^ 52) with 4503599627370496.
  split; [|lia]. apply ofZ_holds. change (2 ^ 53) with 9007199254740992. lia.
Qed.

Lemma hash_fold_codes (l : list ascii) (h : Z) :
  - 2 ^ 31 <= h < 2 ^ 31 ->
  fold_left (fun h c => hashStep h (Num.ofNat (JS.code c))) l h
  = fold_left (fun hash x => Num.wrap32 (31 * hash + x))
      (map (fun c => Z.of_nat (JS.code c)) l) h.
Proof.
  revert h; induction l as [|c l IH]; intros h Hh; simpl; [reflexivity|].
  destruct (code_holds c) as [Hc Hk].
  rewrite (hashStep_holds h _ _ Hh Hc Hk). apply IH. apply wrap32_range.
Qed.

Lemma hash_fold_scaled (l : list float) (scaled : list Z) (h : Z) :
  - 2 ^ 31 <= h < 2 ^ 31 ->
  map Spec.scaledValue l = map Some scaled ->
  fold_left (fun h v => hashStep h (Num.floor (PrimFloat.mul v 1000))) l h
  = fold_left (fun hash x => Num.wrap32 (31 * hash + x)) scaled h.
Proof.
  revert scaled h; induction l as [|v l IH]; intros [|k scaled] h Hh Hmap;
    try discriminate Hmap; simpl; [reflexivity|].
  simpl in Hmap. injection Hmap as Hv Hrest.
  destruct (scaledValue_holds v k Hv) as [Hholds Hk].
  rewrite (hashStep_holds h _ _ Hh Hholds Hk). apply IH; [apply wrap32_range | exact Hrest].
Qed.

Lemma embeddingHash_hashOf (embedding : Embedding) (filename : string)
  (scaled : list Z) :
  map Spec.scaledValue (firstn 10 embedding) = map Some scaled ->
  embeddingHash embedding filename = Spec.hashOf (Spec.codes filename ++ scaled).
Proof.
  intros Hscaled. unfold embeddingHash, Spec.hashOf, Spec.codes.
  rewrite firstn_min_length, fold_left_app.
  rewrite hash_fold_codes by (split; [discriminate | reflexivity]).
  apply hash_fold_scaled; [|exact Hscaled].
  set (codes := map (fun c => Z.of_nat (JS.code c)) (list_ascii_of_string filename)).
  destruct codes as [|k codes] using rev_ind; [split; [discriminate | reflexivity]|].
  rewrite fold_left_app. simpl. apply wrap32_range.
Qed.

Local Close Scope Z_scope.

(** ** Categories *)

Lemma keywordCategories_flags (filename : string) :
  keywordCategories filename
  = Spec.categoriesOfFlags
      (JS.truthyOpt (containsKeyword filename vehicleLists false))
      (JS.truthyOpt (containsKeyword filename petLists false))
      (JS.truthyOpt (containsKeyword filename natureLists false))
      (JS.truthyOpt (containsKeyword filename personLists false) ||
       JS.truthyOpt (containsKeyword filename nameLists true)).
Proof.
  unfold keywordCategories.
  destruct (JS.truthyOpt (containsKeyword filename vehicleLists false)),
    (JS.truthyOpt (containsKeyword filename petLists false)),
    (JS.truthyOpt (containsKeyword filename natureLists false)),
    (JS.truthyOpt (containsKeyword filename personLists false)),
    (JS.truthyOpt (containsKeyword filename nameLists true)); reflexivity.
Qed.

Lemma keywordCategories_none (filename : string) :
  Spec.noKeywordMatch filename -> keywordCategories filename = [].
Proof.
  intros (Hv & Hp & Hn & Hq & Hname).
  rewrite keywordCategories_flags, Hv, Hp, Hn, Hq, Hname. reflexivity.
Qed.

Lemma determineCategories_fallback (embedding : Embedding) (filename : string) :
  embedding <> [] ->
  keywordCategories filename = [] ->
  determineCategories embedding filename = [classifyByEmbedding embedding filename] /\
  Spec.bucketOf (Z.abs (embeddingHash embedding filename) mod 100)
    (classifyByEmbedding embedding filename).
Proof.
  intros Hne Hnone.
  pose proof (classifyByEmbedding_bucket embedding filename Hne) as Hb.
  split; [|exact Hb].
  unfold determineCategories. rewrite Hnone.
  destruct embedding as [|v rest]; [contradiction|].
  change (List.length (v :: rest) =? 0) with false.
  change ((List.length (@nil string) =? 0) && negb false) with true. cbv iota.
  destruct Hb as [[_ ->]|[[_ ->]|[[_ ->]|[_ ->]]]]; reflexivity.
Qed.

Lemma determineCategories_keywords (embedding : Embedding) (filename : string) :
  keywordCategories filename <> [] ->
  determineCategories embedding filename = keywordCategories filename.
Proof.
  intros Hne. unfold determineCategories.
  destruct (keywordCategories filename) as [|c cats]; [contradiction|].
  reflexivity.
Qed.

Lemma determineCategories_shape (embedding : Embedding) (filename : string) :
  embedding <> [] ->
  (exists v p n q,
     (v || p || n || q) = true /\
     determineCategories embedding filename = Spec.categoriesOfFlags v p n q) \/
  (exists c,
     determineCategories embedding filename = [c] /\
     In c ["nature"; "pet"; "person"; "vehicle"]).
Proof.
  intros Hne.
  destruct (keywordCategories filename) as [|c cats] eqn:Hkw.
  - right. destruct (determineCategories_fallback embedding filename Hne Hkw) as [-> Hb].
    eexists; split; [reflexivity|].
    destruct Hb as [[_ ->]|[[_ ->]|[[_ ->]|[_ ->]]]]; simpl; auto.
  - left. rewrite determineCategories_keywords by (rewrite Hkw; discriminate).
    rewrite keywordCategories_flags in *.
    set (v := JS.truthyOpt (containsKeyword filename vehicleLists false)) in *.
    set (p := JS.truthyOpt (containsKeyword filename petLists false)) in *.
    set (n := JS.truthyOpt (containsKeyword filename natureLists false)) in *.
    set (q := JS.truthyOpt (containsKeyword filename personLists false) ||
              JS.truthyOpt (containsKeyword filename nameLists true)) in *.
    exists v, p, n, q. split; [|reflexivity].
    destruct v, p, n, q; try reflexivity. discriminate Hkw.
Qed.

Ltac solve_objects :=
  unfold Spec.objectsInvariant, Spec.noCategoryMatched; simpl;
  repeat split; intros;
  repeat match goal with
         | H : _ /\ _ |- _ => destruct H
         | H : _ \/ _ |- _ => destruct H
         end;
  try discriminate; try contradiction; try congruence; auto 10.

Lemma analyzeFilename_objects (filename : string) :
  Spec.objectsInvariant (analyzeFilename filename).
Proof.
  unfold analyzeFilename.
  destruct (JS.truthyOpt (containsKeyword filename vehicleLists false)),
    (JS.truthyOpt (containsKeyword filename petLists false)),
    (JS.truthyOpt (containsKeyword filename natureLists false)),
    (JS.truthyOpt (containsKeyword filename personLists false));
    solve_objects.
Qed.





(** The list of person names is consulted by determineCategories only:
    without an embedding, a file name that matches nothing but a person
    name is uncategorized. *)
Example name_only_without_embedding :
  analyzeEmbedding [] "ed.jpg" [] = (mkAutoTags None false false false ["uncategorized"], []) /\
  Spec.filenameMatches "ed.jpg" = [] /\
  determineCategories [] "ed.jpg" = ["person"].
Proof. vm_compute. repeat split; reflexivity. Qed.

(** C4: for a file name with no keyword match in any category list and a
    non-empty embedding, the hash of the file name and of at most the
    first 10 embedding values is a 32-bit signed integer: starting from
    0, each code unit of the file name and then each of the first ten
    embedding values, times 1000 and rounded down, is added to 31 times
    the hash and the sum reduced to 32 bits.  abs(hash) mod 100 falls in
    exactly one of the buckets [0,25) nature, [25,50) pet, [50,75)
    person, [75,100) vehicle; that category is the only one assigned, the
    tags are those of that category alone, and uncategorized is not among
    the objects.  The category is fixed by the file name and the
    embedding: it is the same in every state of the person store, so two
    calls yield the same bucket. *)
Theorem hash_bucket_fallback (filename : string) (embedding : Embedding) :
  embedding <> [] ->
  Spec.noKeywordMatch filename ->
  let hash := embeddingHash embedding filename in
  let hashValue := (Z.abs hash mod 100)%Z in
  (- 2 ^ 31 <= hash < 2 ^ 31)%Z /\
  embeddingHash (firstn 10 embedding) filename = hash /\
  (forall scaled : list Z,
     map Spec.scaledValue (firstn 10 embedding) = map Some scaled ->
     hash = Spec.hashOf (Spec.codes filename ++ scaled)) /\
  exists category,
    Spec.bucketOf hashValue category /\
    determineCategories embedding filename = [category] /\
    forall store : PersonStore,
      fst (analyzeEmbedding embedding filename store)
      = Spec.tagsOfBucket category (fst (findOrCreatePersonId embedding store)) /\
      ~ In "uncategorized" (objects (fst (analyzeEmbedding embedding filename store))).
Proof.
  intros Hne Hnone hash hashValue.
  split; [apply embeddingHash_range|].
  split; [apply embeddingHash_first_ten|].
  split; [intros scaled Hscaled; now apply embeddingHash_hashOf|].
  destruct (determineCategories_fallback embedding filename Hne
              (keywordCategories_none filename Hnone)) as [Hdet Hb].
  exists (classifyByEmbedding embedding filename).
  split; [exact Hb|]. split; [exact Hdet|].
  intros store.
  unfold analyzeEmbedding. cbv zeta. rewrite Hdet.
  destruct embedding as [|x rest]; [contradiction|].
  change (List.length (x :: rest) =? 0) with false. cbv iota.
  destruct (findOrCreatePersonId (x :: rest) store) as [id store'].
  destruct Hb as [[_ ->]|[[_ ->]|[[_ ->]|[_ ->]]]]; simpl;
    (split; [reflexivity|]); intros H;
    repeat (destruct H as [H|H]; [discriminate H|]); exact H.
Qed.

(** On zzz.jpg with the embedding [0.5]: the code units of the name and
    the scaled value 500 hash to -1980696985, 85 lies in the vehicle
    bucket, and vehicle is the category. *)
Lemma hash_bucket_fallback_witness :
  [0.5%float] <> [] /\
  Spec.noKeywordMatch "zzz.jpg" /\
  map Spec.scaledValue (firstn 10 [0.5%float]) = map Some [500%Z] /\
  embeddingHash [0.5%float] "zzz.jpg"
  = Spec.hashOf [122; 122; 122; 46; 106; 112; 103; 500]%Z /\
  Spec.hashOf [122; 122; 122; 46; 106; 112; 103; 500]%Z = (-1980696985)%Z /\
  Spec.bucketOf 85 "vehicle" /\
  determineCategories [0.5%float] "zzz.jpg" = ["vehicle"] /\
  forall store : PersonStore,
    fst (analyzeEmbedding [0.5%float] "zzz.jpg" store)
    = mkAutoTags None false false true ["vehicle"] /\
    ~ In "uncategorized" (objects (fst (analyzeEmbedding [0.5%float] "zzz.jpg" store))).
Proof.
  assert (Hne : [0.5%float] <> []) by discriminate.
  assert (Hnone : Spec.noKeywordMatch "zzz.jpg")
    by (vm_compute; repeat split; reflexivity).
  assert (Hscaled : map Spec.scaledValue (firstn 10 [0.5%float]) = map Some [500%Z])
    by (vm_compute; reflexivity).
  destruct (hash_bucket_fallback "zzz.jpg" [0.5%float] Hne Hnone)
    as (_ & _ & Hhash & category & Hbucket & Hdet & Htags).
  assert (Hcategory : category = "vehicle").
  { assert (H : determineCategories [0.5%float] "zzz.jpg" = ["vehicle"])
      by (vm_compute; reflexivity).
    rewrite H in Hdet. now injection Hdet as <-. }
  subst category.
  split; [exact Hne|]. split; [exact Hnone|]. split; [exact Hscaled|].
  split; [exact (Hhash [500%Z] Hscaled)|].
  split; [vm_compute; reflexivity|].
  split; [right; right; right; split; [lia | reflexivity]|].
  split; [exact Hdet|].
  exact Htags.
Defined.

(** The fallback on a concrete image: the hash of zzz.jpg with the
    embedding [0.5] is -1980696985, and 1980696985 mod 100 = 85 lies in
    the vehicle bucket. *)
Example hash_bucket_example :
  embeddingHash [0.5%float] "zzz.jpg" = (-1980696985)%Z /\
  determineCategories [0.5%float] "zzz.jpg" = ["vehicle"].
Proof. vm_compute. split; reflexivity. Qed.

(** Two scenarios of the specification: a file name with a vehicle and a
    pet keyword carries both flags and goes to both folders; a family
    party picture is a portrait of a person. *)
Example multi_label_example :
  fst (analyzeEmbedding [0.5%float] "my_dog_in_the_car.jpg" [])
  = mkAutoTags None false true true ["vehicle"; "animal"] /\
  getAllFolderPaths (fst (analyzeEmbedding [0.5%float] "my_dog_in_the_car.jpg" [])) []
  = ["vehicles"; "pets"].
Proof. vm_compute. split; reflexivity. Qed.

Example family_party_example :
  analyzeEmbedding [] "family_birthday_party.jpg" []
  = (mkAutoTags (Some "person_0001") false false false ["portrait"], []) /\
  getAllFolderPaths (fst (analyzeEmbedding [] "family_birthday_party.jpg" [])) []
  = ["people/person_0001"].
Proof. vm_compute. split; reflexivity. Qed.

(** ** Strict matching of person names *)

Lemma mercedes_keywordCategories :
  keywordCategories "mercedes_benz.jpg" = ["vehicle"].
Proof. vm_compute. reflexivity. Qed.

Lemma mercedes_analyzeFilename :
  analyzeFilename "mercedes_benz.jpg" = mkAutoTags None false false true ["vehicle"].
Proof. vm_compute. reflexivity. Qed.

(** C9: mercedes_benz.jpg is classified as a vehicle, by the brand
    keyword mercedes, for every embedding and every state of the person
    store; the person category is not matched and person_id stays null.
    The person-name list is consulted with strict word-boundary matching,
    under which it has no match; as substrings, the name ed would match. *)
Theorem mercedes_benz_is_vehicle_not_person (embedding : Embedding)
  (store : PersonStore) :
  analyzeEmbedding embedding "mercedes_benz.jpg" store
  = (mkAutoTags None false false true ["vehicle"], store) /\
  determineCategories embedding "mercedes_benz.jpg" = ["vehicle"] /\
  containsKeyword "mercedes_benz.jpg" vehicleLists false = Some "mercedes" /\
  containsKeyword "mercedes_benz.jpg" personLists false = None /\
  containsKeyword "mercedes_benz.jpg" nameLists true = None /\
  containsKeyword "mercedes_benz.jpg" nameLists false = Some "ed".
Proof.
  assert (Hdet : determineCategories embedding "mercedes_benz.jpg" = ["vehicle"]).
  { rewrite determineCategories_keywords; rewrite mercedes_keywordCategories;
      [reflexivity | discriminate]. }
  split; [|split; [exact Hdet | vm_compute; repeat split; reflexivity]].
  unfold analyzeEmbedding. cbv zeta.
  rewrite Hdet, mercedes_analyzeFilename.
  destruct embedding; reflexivity.
Qed.

End Classification.

(* ================================================================== *)
(** * Synchronisation of the category collections *)
(* ================================================================== *)

Section Sync.

Import CollectionSync.

(** ** Upserts *)

Section Upsert.

Variable key : string.
Variables update setOnInsert : CategoryDoc -> CategoryDoc.
Hypothesis update_key : forall d, docKey (update d) = docKey d.
Hypothesis insert_key : docKey (setOnInsert (Mongo.blankDoc key)) = key.



End Upsert.

Lemma personUpdate_key (imageData : ImageRecord) (url : string) (now : Z)
  (d : CategoryDoc) :
  docKey (personUpdate imageData url now d) = docKey d.
Proof. reflexivity. Qed.

Lemma categoryUpdate_key (imageData : ImageRecord) (url : string) (now : Z)
  (d : CategoryDoc) :
  docKey (categoryUpdate imageData url now d) = docKey d.
Proof. reflexivity. Qed.



(** ** The collections after [addImageToCollections] *)

Lemma add_Person (imageData : ImageRecord) (now : Z) (db : Database) :
  Person (snd (addImageToCollections imageData now db))
  = match person_id (autoTags imageData) with
    | Some id =>
        if JS.truthy id
        then Mongo.findOneAndUpdate id
               (personUpdate imageData (Spec.imageUrlOf imageData) now)
               (personOnInsert now) (Person db)
        else Person db
    | None => Person db
    end.
Proof.
  unfold addImageToCollections, Spec.imageUrlOf.
  destruct (autoTags imageData) as [pid n p v o]; simpl.
  destruct pid as [[|c id]|], p, n, v; reflexivity.
Qed.

Lemma add_Pet (imageData : ImageRecord) (now : Z) (db : Database) :
  Pet (snd (addImageToCollections imageData now db))
  = if pets (autoTags imageData)
    then Mongo.findOneAndUpdate "pet"
           (categoryUpdate imageData (Spec.imageUrlOf imageData) now)
           (categoryOnInsert now) (Pet db)
    else Pet db.
Proof.
  unfold addImageToCollections, Spec.imageUrlOf.
  destruct (autoTags imageData) as [pid n p v o]; simpl.
  destruct pid as [[|c id]|], p, n, v; reflexivity.
Qed.

Lemma add_Vehicle (imageData : ImageRecord) (now : Z) (db : Database) :
  Vehicle (snd (addImageToCollections imageData now db))
  = if vehicle (autoTags imageData)
    then Mongo.findOneAndUpdate "vehicle"
           (categoryUpdate imageData (Spec.imageUrlOf imageData) now)
           (categoryOnInsert now) (Vehicle db)
    else Vehicle db.
Proof.
  unfold addImageToCollections, Spec.imageUrlOf.
  destruct (autoTags imageData) as [pid n p v o]; simpl.
  destruct pid as [[|c id]|], p, n, v; reflexivity.
Qed.

Lemma add_Nature (imageData : ImageRecord) (now : Z) (db : Database) :
  Nature (snd (addImageToCollections imageData now db))
  = if nature (autoTags imageData)
    then Mongo.findOneAndUpdate "nature"
           (categoryUpdate imageData (Spec.imageUrlOf imageData) now)
           (categoryOnInsert now) (Nature db)
    else if JS.truthyOpt (person_id (autoTags imageData)) ||
            pets (autoTags imageData) || vehicle (autoTags imageData)
    then Nature db
    else Mongo.findOneAndUpdate "uncategorized"
           (categoryUpdate imageData (Spec.imageUrlOf imageData) now)
           (categoryOnInsert now) (Nature db).
Proof.
  unfold addImageToCollections, Spec.imageUrlOf.
  destruct (autoTags imageData) as [pid n p v o]; simpl.
  destruct pid as [[|c id]|], p, n, v; reflexivity.
Qed.






(** ** Removal *)

Lemma remove_collection (name : string) (docs : Collection) (d : CategoryDoc)
  (i : ImageRecord) :
  In d (Mongo.deleteMany countAtMostZero (Mongo.updateMany (removeUpdate name) docs)) ->
  In i (images d) ->
  filename i <> name.
Proof.
  unfold Mongo.deleteMany, Mongo.updateMany. intros Hd Hi.
  apply filter_In in Hd. destruct Hd as [Hd _].
  apply in_map_iff in Hd. destruct Hd as (d0 & <- & _).
  simpl in Hi. apply filter_In in Hi. destruct Hi as [_ Hi].
  intros Heq. rewrite Heq, String.eqb_refl in Hi. discriminate.
Qed.

(** The part of the removal that holds: afterwards no document of any
    collection holds an image with the removed file name. *)
Lemma removeImageFromCollections_no_occurrence (name : string) (db : Database)
  (i : ImageRecord) :
  In i (allStoredImages (snd (removeImageFromCollections name db))) ->
  filename i <> name.
Proof.
  unfold allStoredImages, removeImageFromCollections. simpl.
  intros Hi. apply in_flat_map in Hi. destruct Hi as (d & Hd & Hi).
  repeat (apply in_app_or in Hd; destruct Hd as [Hd|Hd]);
    eapply remove_collection; eassumption.
Qed.

(** The documents that survive a removal are those whose count was above
    1, each with its count lowered by one, whether or not it held the
    file name. *)
Lemma removeImageFromCollections_lowers_every_count (name : string) (db : Database)
  (c : Spec.CollectionName) (d : CategoryDoc) :
  In d (Spec.collectionOf c (snd (removeImageFromCollections name db))) <->
  exists d0,
    In d0 (Spec.collectionOf c db) /\ d = removeUpdate name d0 /\ (1 < imageCount d0)%Z.
Proof.
  assert (Hcoll : forall docs,
             In d (Mongo.deleteMany countAtMostZero
                     (Mongo.updateMany (removeUpdate name) docs)) <->
             exists d0, In d0 docs /\ d = removeUpdate name d0 /\ (1 < imageCount d0)%Z).
  { intros docs. unfold Mongo.deleteMany, Mongo.updateMany, countAtMostZero.
    rewrite filter_In, in_map_iff. split.
    - intros [(d0 & <- & Hin) Hcount]. exists d0. repeat split; [exact Hin|].
      simpl in Hcount. apply negb_true_iff, Z.leb_gt in Hcount. lia.
    - intros (d0 & Hin & -> & Hcount). split; [now exists d0|].
      simpl. apply negb_true_iff, Z.leb_gt. lia. }
  destruct c; simpl; apply Hcoll.
Qed.

(** C2, what the code does: the update of removeImageFromCollections has
    an empty filter, so the count of every document is lowered, also where
    the file name does not occur.  Removing dog.jpg, which no document
    holds, deletes the pet document that holds cat.jpg alone; with two
    images in the document, the count drops to 1 while both stay. *)
Theorem removeImageFromCollections_unrelated_document :
  let single := Sample.petsOnly (Sample.petDoc [Sample.catImage] 1 "/uploads/cat.jpg" 1) in
  let pair := Sample.petsOnly
                (Sample.petDoc [Sample.catImage; Sample.dogImage] 2 "/uploads/dog.jpg" 2) in
  Spec.occurrences "bird.jpg" (Mongo.findOne "pet" (Pet single)) = 0 /\
  removeImageFromCollections "bird.jpg" single = (true, Sample.emptyDb) /\
  Spec.occurrences "bird.jpg" (Mongo.findOne "pet" (Pet pair)) = 0 /\
  removeImageFromCollections "bird.jpg" pair
  = (true, Sample.petsOnly
             (Sample.petDoc [Sample.catImage; Sample.dogImage] 1 "/uploads/dog.jpg" 2)).
Proof. repeat split; reflexivity. Qed.

End Sync.

(* ================================================================== *)
(** * Keyword matching, further properties *)
(* ================================================================== *)

Section KeywordMatching.

Import ImageProcessor.

(** ** Facts about single code units *)

Lemma lowerChar_idem (c : ascii) : JS.lowerChar (JS.lowerChar c) = JS.lowerChar c.
Proof. destruct c as [[|] [|] [|] [|] [|] [|] [|] [|]]; reflexivity. Qed.

Lemma lowerChar_canonicalize (c : ascii) :
  JS.lowerChar (JS.canonicalize c) = JS.lowerChar c.
Proof. destruct c as [[|] [|] [|] [|] [|] [|] [|] [|]]; reflexivity. Qed.

Lemma isSeparator_lowerChar (c : ascii) :
  JS.isSeparator (JS.lowerChar c) = JS.isSeparator c.
Proof. destruct c as [[|] [|] [|] [|] [|] [|] [|] [|]]; reflexivity. Qed.

Lemma isWhiteSpace_lowerChar (c : ascii) :
  JS.isWhiteSpace (JS.lowerChar c) = JS.isWhiteSpace c.
Proof. destruct c as [[|] [|] [|] [|] [|] [|] [|] [|]]; reflexivity. Qed.

(** ** Normalised text *)

Lemma toLowerCase_idem (s : string) : JS.toLowerCase (JS.toLowerCase s) = JS.toLowerCase s.
Proof.
  induction s as [|c s IH]; simpl; [reflexivity|].
  now rewrite lowerChar_idem, IH.
Qed.

Lemma replaceSeparators_idem (s : string) :
  JS.replaceSeparators (JS.replaceSeparators s) = JS.replaceSeparators s.
Proof.
  induction s as [|c s IH]; simpl; [reflexivity|].
  rewrite IH. destruct (JS.isSeparator c) eqn:Hc; [reflexivity|].
  now rewrite Hc.
Qed.

Lemma toLowerCase_replaceSeparators (s : string) :
  JS.toLowerCase (JS.replaceSeparators s) = JS.replaceSeparators (JS.toLowerCase s).
Proof.
  induction s as [|c s IH]; simpl; [reflexivity|].
  rewrite IH, isSeparator_lowerChar.
  destruct (JS.isSeparator c); reflexivity.
Qed.

Lemma normalizedText_toLowerCase (text : string) :
  Props.normalizedText (JS.toLowerCase text) = Props.normalizedText text.
Proof. unfold Props.normalizedText. now rewrite toLowerCase_idem. Qed.

Lemma normalizedText_replaceSeparators (text : string) :
  Props.normalizedText (JS.replaceSeparators text) = Props.normalizedText text.
Proof.
  unfold Props.normalizedText.
  now rewrite toLowerCase_replaceSeparators, replaceSeparators_idem.
Qed.

Lemma normalizedText_lowered (text : string) :
  Props.lowered (Props.normalizedText text).
Proof.
  unfold Props.lowered, Props.normalizedText.
  now rewrite toLowerCase_replaceSeparators, toLowerCase_idem.
Qed.

Lemma containsKeyword_normalized (text : string) (lists : list (list string))
  (strict : bool) :
  containsKeyword text lists strict
  = find (keywordMatches (Props.normalizedText text) strict) (List.concat lists).
Proof. reflexivity. Qed.

(** ** The word-boundary test implies the substring test *)

Lemma matchLiteral_startsWith (lit text : string) (prev : option ascii) :
  Props.lowered text ->
  JS.matchLiteral lit text prev <> None ->
  JS.startsWith text (JS.toLowerCase lit) = true.
Proof.
  unfold Props.lowered.
  revert text prev; induction lit as [|k lit IH]; intros text prev Hlow Hm;
    simpl; [destruct text; reflexivity|].
  destruct text as [|c text]; simpl in *; [now elim Hm|].
  injection Hlow as Hc Htext.
  destruct (JS.canonEq k c) eqn:Hkc; [|now elim Hm].
  unfold JS.canonEq in Hkc. apply Ascii.eqb_eq in Hkc.
  assert (Hk : JS.lowerChar k = c).
  { rewrite <- (lowerChar_canonicalize k), Hkc, lowerChar_canonicalize. exact Hc. }
  rewrite Hk, Ascii.eqb_refl. simpl.
  apply (IH text (Some c)); assumption.
Qed.

Lemma searchFrom_includes (lit text : string) (prev : option ascii) :
  Props.lowered text ->
  JS.searchFrom lit prev text = true ->
  JS.includes text (JS.toLowerCase lit) = true.
Proof.
  unfold Props.lowered.
  revert prev; induction text as [|c text IH]; intros prev Hlow Hs.
  - simpl in Hs. rewrite orb_false_r in Hs.
    unfold JS.matchHere in Hs. apply andb_prop in Hs. destruct Hs as [_ Hs].
    simpl. rewrite orb_false_r.
    apply (matchLiteral_startsWith lit EmptyString prev); [reflexivity|].
    destruct (JS.matchLiteral lit EmptyString prev); [discriminate|discriminate].
  - simpl in Hs. apply orb_prop in Hs.
    change (JS.includes (String c text) (JS.toLowerCase lit))
      with (JS.startsWith (String c text) (JS.toLowerCase lit)
            || JS.includes text (JS.toLowerCase lit)).
    destruct Hs as [Hs|Hs].
    + unfold JS.matchHere in Hs. apply andb_prop in Hs. destruct Hs as [_ Hs].
      rewrite (matchLiteral_startsWith lit (String c text) prev); [reflexivity|exact Hlow|].
      destruct (JS.matchLiteral lit (String c text) prev); discriminate.
    + simpl in Hlow. injection Hlow as _ Htext.
      rewrite (IH (Some c) Htext Hs). apply orb_true_r.
Qed.

Lemma find_pointwise (A : Type) (f g : A -> bool) (l : list A) :
  (forall x, f x = g x) -> find f l = find g l.
Proof.
  intros Hfg. induction l as [|x l IH]; simpl; [reflexivity|].
  now rewrite Hfg, IH.
Qed.

Lemma keywordMatches_loose (text keyword : string) :
  keywordMatches (Props.normalizedText text) false keyword
  = JS.includes (Props.normalizedText text) (JS.toLowerCase keyword).
Proof.
  unfold keywordMatches, JS.wordRegexTest.
  destruct (JS.searchFrom keyword None (Props.normalizedText text)) eqn:Hs; simpl.
  - symmetry. apply (searchFrom_includes keyword _ None); [|exact Hs].
    apply normalizedText_lowered.
  - reflexivity.
Qed.

Lemma keywordMatches_strict_loose (lowerText keyword : string) :
  keywordMatches lowerText true keyword = true ->
  keywordMatches lowerText false keyword = true.
Proof.
  unfold keywordMatches. simpl. rewrite orb_false_r. intros ->. reflexivity.
Qed.

(** Without the strict flag the word-boundary test decides nothing:
    containsKeyword returns the first keyword, in list order, whose lower
    case form is a substring of the normalised text.  With the strict
    flag, a returned keyword is one of the given keywords, it is also a
    substring of the normalised text, and the non-strict search on the
    same lists finds a keyword as well. *)
Theorem containsKeyword_loose_is_substring (text : string)
  (lists : list (list string)) :
  containsKeyword text lists false
  = find (fun keyword =>
            JS.includes (Props.normalizedText text) (JS.toLowerCase keyword))
         (List.concat lists) /\
  (forall keyword,
     containsKeyword text lists true = Some keyword ->
     In keyword (List.concat lists) /\
     JS.includes (Props.normalizedText text) (JS.toLowerCase keyword) = true /\
     containsKeyword text lists false <> None).
Proof.
  split.
  - rewrite containsKeyword_normalized.
    apply find_pointwise. intros keyword. apply keywordMatches_loose.
  - intros keyword Hfound. rewrite containsKeyword_normalized in Hfound.
    apply find_some in Hfound. destruct Hfound as [Hin Hm].
    apply keywordMatches_strict_loose in Hm.
    split; [exact Hin|]. split.
    + now rewrite <- keywordMatches_loose.
    + rewrite containsKeyword_normalized. intros Hnone.
      pose proof (find_none _ _ Hnone keyword Hin) as Hno.
      rewrite Hm in Hno. discriminate.
Qed.

Lemma containsKeyword_toLowerCase (text : string) (lists : list (list string))
  (strict : bool) :
  containsKeyword (JS.toLowerCase text) lists strict = containsKeyword text lists strict.
Proof. now rewrite !containsKeyword_normalized, normalizedText_toLowerCase. Qed.

Lemma containsKeyword_replaceSeparators (text : string) (lists : list (list string))
  (strict : bool) :
  containsKeyword (JS.replaceSeparators text) lists strict
  = containsKeyword text lists strict.
Proof. now rewrite !containsKeyword_normalized, normalizedText_replaceSeparators. Qed.

(** Keyword classification does not see the case of the file name nor
    which of the separators underscore, hyphen, dot or blank it uses: the
    keyword categories and the tags of analyzeFilename are those of the
    lower-cased name and those of the name with its separators blanked. *)
Theorem keyword_classification_ignores_case_and_separators (filename : string) :
  keywordCategories (JS.toLowerCase filename) = keywordCategories filename /\
  keywordCategories (JS.replaceSeparators filename) = keywordCategories filename /\
  analyzeFilename (JS.toLowerCase filename) = analyzeFilename filename /\
  analyzeFilename (JS.replaceSeparators filename) = analyzeFilename filename.
Proof.
  unfold keywordCategories, analyzeFilename.
  rewrite !containsKeyword_toLowerCase, !containsKeyword_replaceSeparators.
  repeat split; reflexivity.
Qed.

End KeywordMatching.

(* ================================================================== *)
(** * Categories and the registry, further properties *)
(* ================================================================== *)

Section CategoriesAndRegistry.

Import ImageProcessor.

Ltac solve_category_list :=
  repeat split; intros;
  repeat match goal with
         | H : In _ _ |- _ => simpl in H
         | H : _ \/ _ |- _ => destruct H
         | H : False |- _ => contradiction
         | H : _ /\ _ |- _ => destruct H
         | |- NoDup _ => constructor
         | |- ~ In _ _ => simpl; intros ?
         end;
  subst; simpl; try discriminate; try congruence; auto 10.

(** determineCategories never returns the empty list and never repeats a
    category; every element is vehicle, pet, nature, person or other;
    other is never mixed with a category; and the result is the single
    element other exactly when the embedding is empty and no keyword
    matched. *)
Theorem determineCategories_never_empty (embedding : Embedding) (filename : string) :
  let categories := determineCategories embedding filename in
  categories <> [] /\
  NoDup categories /\
  (forall c, In c categories ->
             In c ["vehicle"; "pet"; "nature"; "person"; "other"]) /\
  (In "other" categories <-> categories = ["other"]) /\
  (categories = ["other"] <-> embedding = [] /\ keywordCategories filename = []).
Proof.
  cbv zeta.
  destruct (keywordCategories filename) as [|c0 cats0] eqn:Hkw.
  - destruct embedding as [|x rest].
    + assert (Hdet : determineCategories [] filename = ["other"])
        by (unfold determineCategories; rewrite Hkw; reflexivity).
      rewrite Hdet. solve_category_list.
    + destruct (determineCategories_fallback (x :: rest) filename) as [Hdet Hb];
        [discriminate | exact Hkw |].
      rewrite Hdet.
      destruct Hb as [[_ ->]|[[_ ->]|[[_ ->]|[_ ->]]]]; solve_category_list.
  - rewrite determineCategories_keywords by (rewrite Hkw; discriminate).
    rewrite <- Hkw. rewrite keywordCategories_flags in *.
    set (v := JS.truthyOpt (containsKeyword filename vehicleLists false)) in *.
    set (p := JS.truthyOpt (containsKeyword filename petLists false)) in *.
    set (n := JS.truthyOpt (containsKeyword filename natureLists false)) in *.
    set (q := JS.truthyOpt (containsKeyword filename personLists false) ||
              JS.truthyOpt (containsKeyword filename nameLists true)) in *.
    clearbody v p n q.
    destruct v, p, n, q; try discriminate Hkw; solve_category_list.
Qed.

(** classifyByEmbedding answers other exactly for the empty embedding;
    for any other embedding, whatever the file name, it answers one of
    nature, pet, person, vehicle, and the answer depends on the first ten
    values of the embedding only. *)
Theorem classifyByEmbedding_other_iff_empty (embedding : Embedding) (filename : string) :
  (classifyByEmbedding embedding filename = "other" <-> embedding = []) /\
  In (classifyByEmbedding embedding filename)
     ["other"; "nature"; "pet"; "person"; "vehicle"] /\
  classifyByEmbedding (firstn 10 embedding) filename
  = classifyByEmbedding embedding filename.
Proof.
  destruct embedding as [|x rest].
  - repeat split; simpl; auto.
  - pose proof (classifyByEmbedding_bucket (x :: rest) filename) as Hb.
    assert (Hne : x :: rest <> []) by discriminate.
    specialize (Hb Hne). split; [|split].
    + split; [|discriminate].
      destruct Hb as [[_ ->]|[[_ ->]|[[_ ->]|[_ ->]]]]; discriminate.
    + destruct Hb as [[_ ->]|[[_ ->]|[[_ ->]|[_ ->]]]]; simpl; auto 6.
    + unfold classifyByEmbedding.
      rewrite (embeddingHash_first_ten (x :: rest) filename). reflexivity.
Qed.

(** ** The registry only grows *)

Lemma firstMatch_tracked (signature : Signature) (store : PersonStore) (id : string) :
  firstMatch signature store = Some id -> In id (getTrackedPersons store).
Proof.
  unfold getTrackedPersons.
  induction store as [|[k v] store IH]; simpl; [discriminate|].
  destruct (PrimFloat.ltb threshold (calculateSimilarity signature v)).
  - intros [= ->]. now left.
  - intros H. right. now apply IH.
Qed.

Lemma tracked_truthy (store : PersonStore) (id : string) :
  Spec.registryOrdered store -> In id (getTrackedPersons store) -> JS.truthy id = true.
Proof.
  unfold Spec.registryOrdered, getTrackedPersons. intros -> Hin.
  apply in_map_iff in Hin. destruct Hin as (k & <- & _). reflexivity.
Qed.

Lemma findOrCreatePersonId_cases (embedding : Embedding) (store : PersonStore) :
  Spec.registryOrdered store ->
  (In (fst (findOrCreatePersonId embedding store)) (getTrackedPersons store) /\
   snd (findOrCreatePersonId embedding store) = store) \/
  (fst (findOrCreatePersonId embedding store) = personIdOf (List.length store + 1) /\
   snd (findOrCreatePersonId embedding store)
   = (store ++ [(personIdOf (List.length store + 1),
                 generateEmbeddingSignature embedding)])%list).
Proof.
  intros Hord. unfold findOrCreatePersonId.
  destruct (firstMatch (generateEmbeddingSignature embedding) store) as [id|] eqn:Hm;
    simpl.
  - left. split; [|reflexivity]. eapply firstMatch_tracked, Hm.
  - right. now rewrite mapSet_fresh by (apply next_id_fresh, Hord).
Qed.

(** In a store whose ids are person_0001 .. person_N, findOrCreatePersonId
    never changes or removes a stored identity: the new store is the old
    one, or the old one with one entry appended.  The id it returns is a
    non-empty string and is tracked afterwards; if it was already tracked,
    the store is unchanged. *)
Theorem findOrCreatePersonId_extends_store (embedding : Embedding)
  (store : PersonStore) :
  Spec.registryOrdered store ->
  let id := fst (findOrCreatePersonId embedding store) in
  let store' := snd (findOrCreatePersonId embedding store) in
  (exists added, store' = (store ++ added)%list /\ List.length added <= 1) /\
  In id (getTrackedPersons store') /\
  JS.truthy id = true /\
  (In id (getTrackedPersons store) -> store' = store).
Proof.
  intros Hord id store'. subst id store'.
  pose proof (findOrCreatePersonId_ordered store embedding Hord) as Hord'.
  destruct (findOrCreatePersonId_cases embedding store Hord) as [[Hin ->]|[Hid Hst]].
  - split; [|split; [|split]].
    + exists []. split; [now rewrite List.app_nil_r | simpl; lia].
    + exact Hin.
    + apply (tracked_truthy store); assumption.
    + reflexivity.
  - assert (Htracked : In (fst (findOrCreatePersonId embedding store))
                         (getTrackedPersons (snd (findOrCreatePersonId embedding store)))).
    { rewrite Hid, Hst. unfold getTrackedPersons. rewrite map_app.
      apply in_or_app. right. now left. }
    split; [|split; [|split]].
    + rewrite Hst. eexists. split; [reflexivity|]. simpl. lia.
    + exact Htracked.
    + apply (tracked_truthy (snd (findOrCreatePersonId embedding store)));
        assumption.
    + intros Hin. exfalso. rewrite Hid in Hin.
      now apply (next_id_fresh store Hord).
Qed.

Lemma findOrCreatePersonId_extends_store_witness :
  Spec.registryOrdered [] /\
  In (fst (findOrCreatePersonId [1; 0; 0; 0; 0; 0; 0; 0]%float []))
     (getTrackedPersons (snd (findOrCreatePersonId [1; 0; 0; 0; 0; 0; 0; 0]%float []))).
Proof.
  split.
  - reflexivity.
  - exact (proj1 (proj2 (findOrCreatePersonId_extends_store
                           [1; 0; 0; 0; 0; 0; 0; 0]%float [] eq_refl))).
Defined.

Lemma NoDup_map_injective (A B : Type) (f : A -> B) (l : list A) :
  (forall x y, f x = f y -> x = y) -> NoDup l -> NoDup (map f l).
Proof.
  intros Hinj. induction 1 as [|x l Hx _ IH]; simpl; constructor; [|exact IH].
  intros Hin. apply in_map_iff in Hin. destruct Hin as (y & Heq & Hy).
  apply Hinj in Heq. now subst y.
Qed.

Lemma resolveAll_ordered (embeddings : list Embedding) (store : PersonStore) :
  Spec.registryOrdered store ->
  Spec.registryOrdered (Props.resolveAll embeddings store) /\
  List.length (Props.resolveAll embeddings store)
  <= List.length store + List.length embeddings.
Proof.
  unfold Props.resolveAll.
  revert store; induction embeddings as [|e es IH]; intros store Hord; simpl.
  - split; [exact Hord | lia].
  - destruct (IH (snd (findOrCreatePersonId e store))
                (findOrCreatePersonId_ordered store e Hord)) as [Ho Hl].
    split; [exact Ho|].
    assert (Hstep : List.length (snd (findOrCreatePersonId e store))
                    <= List.length store + 1).
    { destruct (findOrCreatePersonId_cases e store Hord) as [[_ Hst]|[_ Hst]];
        rewrite Hst; [lia|].
      rewrite length_app. simpl. lia. }
    lia.
Qed.

(** After clearPersonStore, resolving any sequence of embeddings leaves a
    store whose tracked ids are exactly person_0001, person_0002, ... in
    insertion order, without repetition, and no more of them than
    embeddings were resolved. *)
Theorem resolveAll_tracked_persons (embeddings : list Embedding)
  (before : PersonStore) :
  let store := Props.resolveAll embeddings (clearPersonStore before) in
  getTrackedPersons store = map personIdOf (seq 1 (List.length store)) /\
  NoDup (getTrackedPersons store) /\
  List.length store <= List.length embeddings.
Proof.
  cbv zeta. unfold clearPersonStore.
  destruct (resolveAll_ordered embeddings [] eq_refl) as [Hord Hlen].
  split; [exact Hord|]. split; [|exact Hlen].
  unfold Spec.registryOrdered, getTrackedPersons in *. rewrite Hord.
  apply NoDup_map_injective; [|apply seq_NoDup].
  intros n m. apply personIdOf_inj.
Qed.

(** ** What analyzeEmbedding does to the store *)

Lemma arrayIncludes_In (l : list string) (x : string) :
  arrayIncludes l x = true <-> In x l.
Proof.
  unfold arrayIncludes. rewrite existsb_exists. split.
  - intros (y & Hin & Heq). apply String.eqb_eq in Heq. now subst y.
  - intros Hin. exists x. split; [exact Hin | apply String.eqb_refl].
Qed.

Lemma analyzeEmbedding_person (x : float) (rest : Embedding) (filename : string)
  (store : PersonStore) :
  let embedding := x :: rest in
  let isPerson := arrayIncludes (determineCategories embedding filename) "person" in
  snd (analyzeEmbedding embedding filename store)
  = (if isPerson then snd (findOrCreatePersonId embedding store) else store) /\
  person_id (fst (analyzeEmbedding embedding filename store))
  = (if isPerson then Some (fst (findOrCreatePersonId embedding store)) else None).
Proof.
  cbv zeta. unfold analyzeEmbedding. cbv zeta.
  change (List.length (x :: rest) =? 0) with false. cbv iota.
  set (cats := determineCategories (x :: rest) filename).
  destruct (findOrCreatePersonId (x :: rest) store) as [id store'].
  destruct (arrayIncludes cats "vehicle"), (arrayIncludes cats "pet"),
    (arrayIncludes cats "nature"), (arrayIncludes cats "person"),
    ((List.length cats =? 0) || (List.length cats =? 1) && arrayIncludes cats "other");
    split; reflexivity.
Qed.

Lemma analyzeFilename_person_id (filename id : string) :
  person_id (analyzeFilename filename) = Some id -> id = "person_0001".
Proof.
  unfold analyzeFilename.
  destruct (JS.truthyOpt (containsKeyword filename vehicleLists false)),
    (JS.truthyOpt (containsKeyword filename petLists false)),
    (JS.truthyOpt (containsKeyword filename natureLists false)),
    (JS.truthyOpt (containsKeyword filename personLists false));
    simpl; intros H; congruence.
Qed.

(** analyzeEmbedding keeps the person store in order and never changes
    or removes a stored identity; it leaves the store untouched when the
    embedding is empty or person is not among the categories.  With a
    non-empty embedding, a person id in the tags is a non-empty string
    that is tracked afterwards; with an empty embedding it is the
    constant person_0001, whether or not the store tracks it. *)
Theorem analyzeEmbedding_store_effect (embedding : Embedding) (filename : string)
  (store : PersonStore) :
  Spec.registryOrdered store ->
  let tags := fst (analyzeEmbedding embedding filename store) in
  let store' := snd (analyzeEmbedding embedding filename store) in
  Spec.registryOrdered store' /\
  (exists added, store' = (store ++ added)%list /\ List.length added <= 1) /\
  (embedding = [] \/ ~ In "person" (determineCategories embedding filename) ->
   store' = store) /\
  (embedding <> [] ->
   forall id, person_id tags = Some id ->
              In id (getTrackedPersons store') /\ JS.truthy id = true) /\
  (embedding = [] -> forall id, person_id tags = Some id -> id = "person_0001").
Proof.
  intros Hord tags store'. subst tags store'.
  destruct embedding as [|x rest].
  { change (analyzeEmbedding [] filename store) with (analyzeFilename filename, store).
    simpl. split; [exact Hord|]. split.
    { exists []. split; [now rewrite List.app_nil_r | simpl; lia]. }
    split; [reflexivity|]. split; [intros H; now elim H|].
    intros _ id. apply analyzeFilename_person_id. }
  destruct (analyzeEmbedding_person x rest filename store) as [Hst Hid].
  cbv zeta in Hst, Hid. rewrite Hst, Hid.
  pose proof (findOrCreatePersonId_ordered store (x :: rest) Hord) as Hord'.
  destruct (arrayIncludes (determineCategories (x :: rest) filename) "person") eqn:Hp.
  - split; [exact Hord'|]. split; [|split; [|split]].
    + destruct (findOrCreatePersonId_cases (x :: rest) store Hord) as [[_ ->]|[_ ->]].
      * exists []. split; [now rewrite List.app_nil_r | simpl; lia].
      * eexists. split; [reflexivity | simpl; lia].
    + intros [H|H]; [discriminate H|].
      exfalso. apply H. now apply arrayIncludes_In.
    + intros _ id [= <-].
      assert (Hin : In (fst (findOrCreatePersonId (x :: rest) store))
                      (getTrackedPersons (snd (findOrCreatePersonId (x :: rest) store)))).
      { destruct (findOrCreatePersonId_cases (x :: rest) store Hord)
          as [[Hin ->]|[-> ->]]; [exact Hin|].
        unfold getTrackedPersons. rewrite map_app. apply in_or_app. right. now left. }
      split; [exact Hin|].
      apply (tracked_truthy (snd (findOrCreatePersonId (x :: rest) store)));
        assumption.
    + discriminate.
  - split; [exact Hord|]. split; [|split; [|split]].
    + exists []. split; [now rewrite List.app_nil_r | simpl; lia].
    + reflexivity.
    + intros _ id H. discriminate H.
    + discriminate.
Qed.

Lemma analyzeEmbedding_store_effect_witness :
  Spec.registryOrdered [] /\
  Spec.registryOrdered
    (snd (analyzeEmbedding [0.5%float] "family_birthday_party.jpg" [])).
Proof.
  split.
  - reflexivity.
  - exact (proj1 (analyzeEmbedding_store_effect [0.5%float]
                    "family_birthday_party.jpg" [] eq_refl)).
Defined.

(** ** From the tags to the folders *)

Ltac solve_tags :=
  unfold Spec.objectsInvariant, Spec.noCategoryMatched; simpl;
  repeat split; intros;
  repeat match goal with
         | H : _ /\ _ |- _ => destruct H
         | H : _ \/ _ |- _ => destruct H
         end;
  try discriminate; try contradiction; try congruence; auto 10.

Lemma analyzeEmbedding_objects_invariant (embedding : Embedding) (filename : string)
  (store : PersonStore) :
  Spec.objectsInvariant (fst (analyzeEmbedding embedding filename store)).
Proof.
  unfold analyzeEmbedding. cbv zeta.
  destruct embedding as [|x rest].
  { apply analyzeFilename_objects. }
  change (List.length (x :: rest) =? 0) with false. cbv iota.
  destruct (findOrCreatePersonId (x :: rest) store) as [id store'].
  destruct (determineCategories_shape (x :: rest) filename) as
    [(v & p & n & q & Hsome & ->)|(c & -> & Hc)]; [discriminate| |].
  - destruct v, p, n, q; try discriminate Hsome; solve_tags.
  - destruct Hc as [<-|[<-|[<-|[<-|[]]]]]; solve_tags.
Qed.

Lemma folders_uncategorized_iff (t : AutoTags) (customTags : list string) :
  getAllFolderPaths t customTags = ["uncategorized"] <->
  Spec.noCategory t /\ List.filter Spec.notBlank customTags = [].
Proof.
  rewrite getAllFolderPaths_destinations_eq.
  unfold Spec.destinations, Spec.noCategory.
  destruct t as [pid n p v o]; simpl.
  destruct (List.filter Spec.notBlank customTags) as [|tag kept];
    destruct v, p, n; destruct pid as [[|c id]|]; simpl;
    (split; [ try discriminate; intros _; repeat split; reflexivity
            | try reflexivity; intros [(?&?&?&?) ?]; discriminate ]).
Qed.

Lemma uncategorized_alone (t : AutoTags) (customTags : list string) :
  In "uncategorized" (getAllFolderPaths t customTags) ->
  getAllFolderPaths t customTags = ["uncategorized"].
Proof.
  rewrite getAllFolderPaths_destinations_eq. unfold Spec.destinations.
  set (tagPaths := map (fun tag => ("tags/" ++ JS.trim tag)%string)
                       (List.filter Spec.notBlank customTags)).
  assert (Htags : ~ In "uncategorized" tagPaths).
  { unfold tagPaths. intros Hin. apply in_map_iff in Hin.
    destruct Hin as (tag & Heq & _). discriminate Heq. }
  destruct t as [pid n p v o]; simpl.
  destruct v, p, n; destruct pid as [[|c id]|]; simpl;
    try (destruct tagPaths; [reflexivity|]);
    intros Hin; exfalso;
    repeat (destruct Hin as [Hin|Hin]; [discriminate Hin|]);
    try (apply Htags; simpl; exact Hin); try contradiction.
Qed.

(** For the tags analyzeEmbedding produces in an ordered store: without
    custom tags the image is filed under uncategorized exactly when its
    objects say uncategorized; with a non-empty embedding it is never
    filed under uncategorized, whatever the custom tags; and uncategorized
    never stands beside another destination. *)
Theorem analyzed_image_folders (embedding : Embedding) (filename : string)
  (store : PersonStore) (customTags : list string) :
  Spec.registryOrdered store ->
  let tags := fst (analyzeEmbedding embedding filename store) in
  (getAllFolderPaths tags [] = ["uncategorized"] <->
   In "uncategorized" (objects tags)) /\
  (embedding <> [] -> ~ In "uncategorized" (getAllFolderPaths tags customTags)) /\
  (In "uncategorized" (getAllFolderPaths tags customTags) ->
   getAllFolderPaths tags customTags = ["uncategorized"]).
Proof.
  intros Hord tags.
  pose proof (analyzeEmbedding_objects_invariant embedding filename store) as Hinv.
  fold tags in Hinv. destruct Hinv as (_ & Hunc & _).
  assert (Htruthy : forall id, person_id tags = Some id -> JS.truthy id = true).
  { intros id Hid. destruct embedding as [|x rest].
    - apply analyzeFilename_person_id in Hid. now subst id.
    - destruct (analyzeEmbedding_person x rest filename store) as [Hst Hpid].
      cbv zeta in Hst, Hpid. fold tags in Hpid. rewrite Hpid in Hid.
      destruct (arrayIncludes (determineCategories (x :: rest) filename) "person");
        [|discriminate Hid].
      injection Hid as <-.
      destruct (findOrCreatePersonId_cases (x :: rest) store Hord) as [[Hin _]|[-> _]];
        [|reflexivity].
      apply (tracked_truthy store); assumption. }
  assert (Hsame : Spec.noCategory tags <-> Spec.noCategoryMatched tags).
  { unfold Spec.noCategory, Spec.noCategoryMatched.
    destruct (person_id tags) as [id|] eqn:Hid; simpl.
    - rewrite (Htruthy id eq_refl).
      split; intros (?&?&?&?); discriminate.
    - tauto. }
  split; [|split].
  - rewrite folders_uncategorized_iff, Hunc, <- Hsame. simpl. tauto.
  - intros Hne Hin. apply uncategorized_alone in Hin.
    apply folders_uncategorized_iff in Hin. destruct Hin as [Hno _].
    apply Hsame, Hunc in Hno.
    destruct embedding as [|x rest]; [now elim Hne|].
    revert Hno. subst tags. unfold analyzeEmbedding. cbv zeta.
    change (List.length (x :: rest) =? 0) with false. cbv iota.
    destruct (findOrCreatePersonId (x :: rest) store) as [id store'].
    destruct (determineCategories_shape (x :: rest) filename) as
      [(v & p & n & q & Hsome & ->)|(c & -> & Hc)]; [discriminate| |].
    + destruct v, p, n, q; try discriminate Hsome; simpl; intros H;
        repeat (destruct H as [H|H]; [discriminate H|]); exact H.
    + destruct Hc as [<-|[<-|[<-|[<-|[]]]]]; simpl; intros H;
        repeat (destruct H as [H|H]; [discriminate H|]); exact H.
  - apply uncategorized_alone.
Qed.

Lemma analyzed_image_folders_witness :
  Spec.registryOrdered [] /\
  (getAllFolderPaths (fst (analyzeEmbedding [] "zzz.jpg" [])) [] = ["uncategorized"] <->
   In "uncategorized" (objects (fst (analyzeEmbedding [] "zzz.jpg" [])))).
Proof.
  split.
  - reflexivity.
  - exact (proj1 (analyzed_image_folders [] "zzz.jpg" [] [] eq_refl)).
Defined.

End CategoriesAndRegistry.

(* ================================================================== *)
(** * Reading the collections *)
(* ================================================================== *)

Section Reading.

Import CollectionSync.

(** ** First occurrences *)

Section KeepFirst.

Context {A : Type} (key : A -> string).

Lemma seen_In (k : string) (seen : list string) :
  existsb (String.eqb k) seen = true <-> In k seen.
Proof.
  rewrite existsb_exists. split.
  - intros (y & Hin & Heq). apply String.eqb_eq in Heq. now subst y.
  - intros Hin. exists k. split; [exact Hin | apply String.eqb_refl].
Qed.

Lemma keepFirstBy_In (seen : list string) (l : list A) (x : A) :
  In x (Props.keepFirstBy key seen l) -> In x l /\ ~ In (key x) seen.
Proof.
  revert seen; induction l as [|y l IH]; intros seen; simpl; [contradiction|].
  destruct (existsb (String.eqb (key y)) seen) eqn:Hy.
  - intros Hin. destruct (IH _ Hin) as [H1 H2]. split; [now right | exact H2].
  - intros [<-|Hin].
    + split; [now left|]. intros Hs. apply seen_In in Hs. congruence.
    + destruct (IH _ Hin) as [H1 H2]. split; [now right|].
      intros Hs. apply H2. now right.
Qed.

Lemma keepFirstBy_NoDup (seen : list string) (l : list A) :
  NoDup (map key (Props.keepFirstBy key seen l)).
Proof.
  revert seen; induction l as [|y l IH]; intros seen; simpl; [constructor|].
  destruct (existsb (String.eqb (key y)) seen); [apply IH|].
  simpl. constructor; [|apply IH].
  intros Hin. apply in_map_iff in Hin. destruct Hin as (x & Hk & Hx).
  apply keepFirstBy_In in Hx. destruct Hx as [_ Hx]. apply Hx. left. congruence.
Qed.

Lemma keepFirstBy_complete (seen : list string) (l : list A) (k : string) :
  In k (map key l) -> In k seen \/ In k (map key (Props.keepFirstBy key seen l)).
Proof.
  revert seen; induction l as [|y l IH]; intros seen; simpl; [contradiction|].
  destruct (existsb (String.eqb (key y)) seen) eqn:Hy.
  - intros [<-|Hin]; [left; now apply seen_In | now apply IH].
  - intros [<-|Hin]; [right; now left|].
    destruct (IH (key y :: seen) Hin) as [[<-|Hs]|Hk].
    + right. now left.
    + now left.
    + right. now right.
Qed.

End KeepFirst.

Lemma keepFirstBy_map (A B : Type) (f : A -> B) (key : B -> string)
  (seen : list string) (l : list A) :
  map f (Props.keepFirstBy (fun x => key (f x)) seen l)
  = Props.keepFirstBy key seen (map f l).
Proof.
  revert seen; induction l as [|y l IH]; intros seen; simpl; [reflexivity|].
  destruct (existsb (String.eqb (key (f y))) seen); simpl; now rewrite IH.
Qed.

(** ** The loops of [getAllImages] *)

Lemma visitCandidate_fold (cands : list GalleryImage) (out : list GalleryImage)
  (seen : list string) :
  fst (fold_left Props.visitCandidate cands (out, seen))
  = (out ++ Props.keepFirstBy Props.galleryKey seen cands)%list.
Proof.
  revert out seen; induction cands as [|g cands IH]; intros out seen; simpl.
  - now rewrite List.app_nil_r.
  - destruct (existsb (String.eqb (Props.galleryKey g)) seen); [apply IH|].
    rewrite IH, <- List.app_assoc. reflexivity.
Qed.

Lemma visitDoc_candidates (entry : CategoryDoc -> ImageRecord -> GalleryImage)
  (docs : Collection) (acc : list GalleryImage * list string) :
  (forall d i, galleryImage (entry d i) = i) ->
  fold_left (visitDoc entry) docs acc
  = fold_left Props.visitCandidate
      (flat_map (fun d => map (entry d) (images d)) docs) acc.
Proof.
  intros Hentry.
  revert acc; induction docs as [|d docs IH]; intros acc; simpl; [reflexivity|].
  rewrite fold_left_app, IH. f_equal.
  unfold visitDoc. generalize (images d) acc. clear IH.
  induction l as [|i l IHl]; intros acc0; simpl; [reflexivity|].
  rewrite IHl. f_equal.
  unfold visitImage, Props.visitCandidate, Props.galleryKey.
  destruct acc0 as [all seen]. now rewrite Hentry.
Qed.

Lemma getAllImages_candidates (db : Database) :
  getAllImages db
  = Props.keepFirstBy Props.galleryKey [] (Props.galleryCandidates db).
Proof.
  unfold getAllImages, Props.galleryCandidates. cbv zeta.
  rewrite !visitDoc_candidates by reflexivity.
  rewrite <- !fold_left_app.
  rewrite visitCandidate_fold. reflexivity.
Qed.

Lemma candidates_images (db : Database) :
  map galleryImage (Props.galleryCandidates db) = allStoredImages db.
Proof.
  assert (Hcoll : forall (entry : CategoryDoc -> ImageRecord -> GalleryImage) docs,
             (forall d i, galleryImage (entry d i) = i) ->
             map galleryImage (flat_map (fun d => map (entry d) (images d)) docs)
             = flat_map images docs).
  { intros entry docs Hentry. induction docs as [|d docs IH]; simpl; [reflexivity|].
    rewrite map_app, IH, map_map. f_equal.
    rewrite <- (map_id (images d)) at 2. apply map_ext. intros i. apply Hentry. }
  unfold Props.galleryCandidates, allStoredImages.
  rewrite !map_app, !flat_map_app, !Hcoll by reflexivity. reflexivity.
Qed.

(** getAllImages lists every stored file name exactly once: its images
    are the first occurrences of the file names among all stored images,
    in the order Person, Pet, Nature, Vehicle. *)
Theorem getAllImages_first_occurrences (db : Database) :
  map galleryImage (getAllImages db)
  = Props.keepFirstBy filename [] (allStoredImages db) /\
  NoDup (map filename (map galleryImage (getAllImages db))) /\
  (forall name,
     In name (map filename (map galleryImage (getAllImages db))) <->
     In name (map filename (allStoredImages db))).
Proof.
  assert (Heq : map galleryImage (getAllImages db)
                = Props.keepFirstBy filename [] (allStoredImages db)).
  { rewrite getAllImages_candidates. unfold Props.galleryKey.
    rewrite (keepFirstBy_map _ _ galleryImage filename).
    now rewrite candidates_images. }
  rewrite Heq. split; [reflexivity|]. split.
  - apply keepFirstBy_NoDup.
  - intros name. split.
    + intros Hin. apply in_map_iff in Hin. destruct Hin as (i & <- & Hi).
      apply keepFirstBy_In in Hi. apply in_map. tauto.
    + intros Hin.
      destruct (keepFirstBy_complete filename [] _ name Hin) as [[]|H]. exact H.
Qed.

(** ** Lookup by file name *)

Lemma find_app_first (A : Type) (f : A -> bool) (l1 l2 : list A) :
  find f (l1 ++ l2)
  = match find f l1 with
    | Some x => Some x
    | None => find f l2
    end.
Proof.
  induction l1 as [|x l1 IH]; simpl; [reflexivity|].
  destruct (f x); [reflexivity | exact IH].
Qed.

Lemma existsb_find (A : Type) (f : A -> bool) (l : list A) :
  existsb f l = match find f l with Some _ => true | None => false end.
Proof.
  induction l as [|x l IH]; simpl; [reflexivity|].
  destruct (f x); [reflexivity | exact IH].
Qed.

Lemma lookupIn_first (name : string) (docs : Collection)
  (answer : CategoryDoc -> ImageRecord -> FoundImage) :
  (forall d i, foundImage (answer d i) = i) ->
  option_map foundImage (lookupIn name docs answer)
  = find (fun i => String.eqb (filename i) name) (flat_map images docs).
Proof.
  intros Hanswer. unfold lookupIn, Mongo.findOneWhere, Mongo.hasImage, findImage.
  induction docs as [|d docs IH]; simpl; [reflexivity|].
  rewrite find_app_first, existsb_find.
  destruct (find (fun i => String.eqb (filename i) name) (images d)) as [i|] eqn:Hi.
  - rewrite Hi. simpl. now rewrite Hanswer.
  - exact IH.
Qed.

Lemma findImageByFilename_first (name : string) (db : Database) :
  option_map foundImage (findImageByFilename name db)
  = find (fun i => String.eqb (filename i) name) (allStoredImages db).
Proof.
  unfold findImageByFilename, allStoredImages.
  rewrite !flat_map_app, !find_app_first.
  rewrite <- (lookupIn_first name (Person db)
                (fun d image => mkFound image "Person" (Some (docKey d)) None))
    by reflexivity.
  rewrite <- (lookupIn_first name (Pet db)
                (fun _ image => mkFound image "Pet" None None))
    by reflexivity.
  rewrite <- (lookupIn_first name (Nature db)
                (fun d image => mkFound image "Nature" None (Some (docKey d))))
    by reflexivity.
  rewrite <- (lookupIn_first name (Vehicle db)
                (fun _ image => mkFound image "Vehicle" None None))
    by reflexivity.
  repeat match goal with
         | |- context [lookupIn ?n ?docs ?a] =>
             destruct (lookupIn n docs a); simpl; try reflexivity
         end.
Qed.

Lemma countName_find (name : string) (l : list ImageRecord) :
  Props.countName name l = 0 <->
  find (fun i => String.eqb (filename i) name) l = None.
Proof.
  unfold Props.countName.
  induction l as [|i l IH]; simpl; [tauto|].
  destruct (String.eqb (filename i) name); simpl; [|exact IH].
  split; discriminate.
Qed.

(** findImageByFilename returns the first stored image with the file
    name, in the order Person, Pet, Nature, Vehicle; what it returns
    carries the file name asked for; and it returns null exactly when no
    document of any collection holds the file name. *)
Theorem findImageByFilename_first_stored (name : string) (db : Database) :
  option_map foundImage (findImageByFilename name db)
  = find (fun i => String.eqb (filename i) name) (allStoredImages db) /\
  (forall found, findImageByFilename name db = Some found ->
                 filename (foundImage found) = name /\
                 In (foundImage found) (allStoredImages db)) /\
  (findImageByFilename name db = None <->
   Props.countName name (allStoredImages db) = 0).
Proof.
  pose proof (findImageByFilename_first name db) as Hfirst.
  split; [exact Hfirst|]. split.
  - intros found Hfound. rewrite Hfound in Hfirst. simpl in Hfirst.
    symmetry in Hfirst. apply find_some in Hfirst.
    destruct Hfirst as [Hin Hname]. split; [now apply String.eqb_eq | exact Hin].
  - rewrite countName_find, <- Hfirst.
    destruct (findImageByFilename name db); simpl; split; congruence.
Qed.

End Reading.

(* ================================================================== *)
(** * Adding, removing and marking images *)
(* ================================================================== *)

Section Writing.

Import CollectionSync.

(** ** Counting file names *)

Lemma countName_app (name : string) (l1 l2 : list ImageRecord) :
  Props.countName name (l1 ++ l2)
  = Props.countName name l1 + Props.countName name l2.
Proof. unfold Props.countName. now rewrite filter_app, length_app. Qed.

Lemma countName_zero (name : string) (l : list ImageRecord) :
  (forall i, In i l -> filename i <> name) -> Props.countName name l = 0.
Proof.
  unfold Props.countName. induction l as [|i l IH]; simpl; intros H; [reflexivity|].
  destruct (String.eqb_spec (filename i) name) as [Heq|_].
  - exfalso. apply (H i); [now left | exact Heq].
  - apply IH. intros j Hj. apply H. now right.
Qed.

Lemma upsert_count (imageData : ImageRecord) (name key : string)
  (update setOnInsert : CategoryDoc -> CategoryDoc) (docs : Collection) :
  (forall d, images (update d) = (images d ++ [imageData])%list) ->
  images (setOnInsert (Mongo.blankDoc key)) = [] ->
  Props.countName name
    (flat_map images (Mongo.findOneAndUpdate key update setOnInsert docs))
  = Props.countName name (flat_map images docs) + Props.countName name [imageData].
Proof.
  intros Hupd Hins. induction docs as [|d docs IH]; simpl.
  - now rewrite List.app_nil_r, Hupd, Hins.
  - destruct (String.eqb (docKey d) key); simpl.
    + rewrite Hupd, !countName_app. lia.
    + rewrite !countName_app, IH. lia.
Qed.

Lemma upsert_images (imageData x : ImageRecord) (key : string)
  (update setOnInsert : CategoryDoc -> CategoryDoc) (docs : Collection) :
  (forall d, images (update d) = (images d ++ [imageData])%list) ->
  images (setOnInsert (Mongo.blankDoc key)) = [] ->
  In x (flat_map images (Mongo.findOneAndUpdate key update setOnInsert docs)) ->
  In x (flat_map images docs) \/ x = imageData.
Proof.
  intros Hupd Hins. induction docs as [|d docs IH]; simpl.
  - rewrite List.app_nil_r, Hupd, Hins. simpl. intros [<-|[]]. now right.
  - destruct (String.eqb (docKey d) key); simpl; intros Hin;
      apply in_app_or in Hin; destruct Hin as [Hin|Hin].
    + rewrite Hupd in Hin. apply in_app_or in Hin. destruct Hin as [Hin|[<-|[]]].
      * left. apply in_or_app. now left.
      * now right.
    + left. apply in_or_app. now right.
    + left. apply in_or_app. now left.
    + destruct (IH Hin) as [H|H]; [left; apply in_or_app; now right | now right].
Qed.

Lemma countName_stored (name : string) (db : Database) :
  Props.countName name (allStoredImages db)
  = Props.countName name (flat_map images (Person db))
    + Props.countName name (flat_map images (Pet db))
    + Props.countName name (flat_map images (Nature db))
    + Props.countName name (flat_map images (Vehicle db)).
Proof.
  unfold allStoredImages. rewrite !flat_map_app, !countName_app. lia.
Qed.

Lemma stored_In (x : ImageRecord) (db : Database) :
  In x (allStoredImages db) <->
  In x (flat_map images (Person db)) \/ In x (flat_map images (Pet db)) \/
  In x (flat_map images (Nature db)) \/ In x (flat_map images (Vehicle db)).
Proof.
  unfold allStoredImages. rewrite !flat_map_app, !in_app_iff. tauto.
Qed.

(** ** One call of [addImageToCollections] *)

Lemma add_count (imageData : ImageRecord) (now : Z) (db : Database) (name : string) :
  Props.countName name (allStoredImages (snd (addImageToCollections imageData now db)))
  = Props.countName name (allStoredImages db)
    + List.length (addedTo (fst (addImageToCollections imageData now db)))
      * Props.countName name [imageData].
Proof.
  rewrite !countName_stored, add_Person, add_Pet, add_Nature, add_Vehicle.
  unfold addImageToCollections.
  destruct (autoTags imageData) as [pid n p v o]; simpl person_id; simpl pets;
    simpl nature; simpl vehicle.
  destruct pid as [[|c id]|], p, n, v; simpl JS.truthy; simpl JS.truthyOpt; cbv iota;
    simpl orb; cbv iota; simpl fst; simpl addedTo; simpl List.length;
    rewrite ?(upsert_count imageData) by reflexivity; lia.
Qed.

Lemma add_subset (imageData x : ImageRecord) (now : Z) (db : Database) :
  In x (allStoredImages (snd (addImageToCollections imageData now db))) ->
  In x (allStoredImages db) \/ x = imageData.
Proof.
  rewrite !stored_In, add_Person, add_Pet, add_Nature, add_Vehicle.
  destruct (autoTags imageData) as [pid n p v o]; simpl person_id; simpl pets;
    simpl nature; simpl vehicle.
  destruct pid as [[|c id]|], p, n, v; simpl JS.truthy; simpl JS.truthyOpt; cbv iota;
    simpl orb; cbv iota;
    intros [H|[H|[H|H]]];
    try (apply (upsert_images imageData) in H;
         [|reflexivity|reflexivity]; destruct H as [H|H]);
    tauto.
Qed.

Lemma addedTo_folders (imageData : ImageRecord) (now : Z) (db : Database) :
  List.length (addedTo (fst (addImageToCollections imageData now db)))
  = List.length (ImageProcessor.getAllFolderPaths (autoTags imageData) []) /\
  errors (fst (addImageToCollections imageData now db)) = [] /\
  1 <= List.length (addedTo (fst (addImageToCollections imageData now db))) <= 4.
Proof.
  unfold addImageToCollections, ImageProcessor.getAllFolderPaths.
  destruct (autoTags imageData) as [pid n p v o]; simpl.
  destruct pid as [[|c id]|], p, n, v; simpl; repeat split; lia.
Qed.

Lemma add_report (imageData : ImageRecord) (now : Z) (db : Database) :
  addedTo (fst (addImageToCollections imageData now db))
  = map Props.reportName (Spec.syncTargets (autoTags imageData)) /\
  NoDup (addedTo (fst (addImageToCollections imageData now db))).
Proof.
  unfold addImageToCollections, Spec.syncTargets.
  destruct (autoTags imageData) as [pid n p v o]; simpl.
  destruct pid as [[|c id]|], p, n, v; simpl; (split; [reflexivity|]);
    repeat constructor; simpl; intuition discriminate.
Qed.

Lemma add_count_in (imageData : ImageRecord) (now : Z) (db : Database)
  (name : string) (c : Spec.CollectionName) :
  Props.countName name
    (Props.storedIn c (snd (addImageToCollections imageData now db)))
  = Props.countName name (Props.storedIn c db)
    + (if Props.reports (addedTo (fst (addImageToCollections imageData now db))) c
       then Props.countName name [imageData] else 0).
Proof.
  unfold Props.storedIn.
  destruct c; simpl Spec.collectionOf;
    [rewrite add_Person | rewrite add_Pet | rewrite add_Nature | rewrite add_Vehicle];
    unfold addImageToCollections;
    destruct (autoTags imageData) as [pid n p v o]; simpl person_id; simpl pets;
    simpl nature; simpl vehicle;
    destruct pid as [[|ch id]|], p, n, v; simpl JS.truthy; simpl JS.truthyOpt;
    cbv iota; simpl orb; cbv iota; simpl fst; simpl addedTo;
    rewrite ?(upsert_count imageData) by reflexivity;
    match goal with
    | |- context [Props.reports ?l ?c] =>
        let b := eval vm_compute in (Props.reports l c) in
        change (Props.reports l c) with b
    end; cbv iota; lia.
Qed.

Lemma countName_self (imageData : ImageRecord) :
  Props.countName (filename imageData) [imageData] = 1.
Proof. unfold Props.countName. simpl. now rewrite String.eqb_refl. Qed.

Lemma storedIn_stored (c : Spec.CollectionName) (db : Database) (x : ImageRecord) :
  In x (Props.storedIn c db) -> In x (allStoredImages db).
Proof.
  unfold Props.storedIn. intros H. apply stored_In.
  destruct c; simpl in H; tauto.
Qed.

(** When its database operations succeed, a call of addImageToCollections
    reports the collection of each destination document of the tags, in
    the order Person, Pet, Nature, Vehicle and none twice: at least one
    and at most four, as many as getAllFolderPaths gives folders for the
    same tags without custom tags.  It stores the record once in each
    collection it reports and in no other: in every collection the number
    of images with the file name of the record grows by one when the
    collection is reported and stays as it was when it is not, so the
    number over all collections grows by the number reported; the number
    of images with any other file name does not change. *)
Theorem addImageToCollections_reports_what_it_stores (imageData : ImageRecord)
  (now : Z) (db : Database) :
  let result := fst (addImageToCollections imageData now db) in
  let after := snd (addImageToCollections imageData now db) in
  addedTo result = map Props.reportName (Spec.syncTargets (autoTags imageData)) /\
  NoDup (addedTo result) /\
  1 <= List.length (addedTo result) <= 4 /\
  List.length (addedTo result)
  = List.length (ImageProcessor.getAllFolderPaths (autoTags imageData) []) /\
  (forall c : Spec.CollectionName,
     Props.countName (filename imageData) (Props.storedIn c after)
     = Props.countName (filename imageData) (Props.storedIn c db)
       + (if Props.reports (addedTo result) c then 1 else 0)) /\
  Props.countName (filename imageData) (allStoredImages after)
  = Props.countName (filename imageData) (allStoredImages db)
    + List.length (addedTo result) /\
  (forall other, other <> filename imageData ->
     Props.countName other (allStoredImages after)
     = Props.countName other (allStoredImages db)).
Proof.
  cbv zeta.
  destruct (addedTo_folders imageData now db) as (Hfolders & _ & Hlen).
  destruct (add_report imageData now db) as [Hreport Hnodup].
  split; [exact Hreport|]. split; [exact Hnodup|].
  split; [exact Hlen|]. split; [exact Hfolders|]. split; [|split].
  - intros c. now rewrite add_count_in, countName_self.
  - rewrite add_count. unfold Props.countName. simpl.
    rewrite String.eqb_refl. simpl. lia.
  - intros other Hne. rewrite add_count. unfold Props.countName. simpl.
    destruct (String.eqb_spec (filename imageData) other) as [Heq|_];
      [now elim Hne | simpl; lia].
Qed.

(** ** Lookup after writing *)

Lemma remove_count (name : string) (db : Database) :
  Props.countName name (allStoredImages (snd (removeImageFromCollections name db))) = 0.
Proof.
  apply countName_zero. intros i.
  apply removeImageFromCollections_no_occurrence.
Qed.

Lemma lookup_none_iff (name : string) (db : Database) :
  findImageByFilename name db = None <->
  Props.countName name (allStoredImages db) = 0.
Proof.
  rewrite countName_find, <- findImageByFilename_first.
  destruct (findImageByFilename name db); simpl; split; congruence.
Qed.

Lemma lookup_fresh (imageData : ImageRecord) (now : Z) (db : Database) :
  Props.countName (filename imageData) (allStoredImages db) = 0 ->
  option_map foundImage
    (findImageByFilename (filename imageData)
       (snd (addImageToCollections imageData now db)))
  = Some imageData.
Proof.
  intros Hfresh. rewrite findImageByFilename_first.
  destruct (find (fun i => String.eqb (filename i) (filename imageData))
              (allStoredImages (snd (addImageToCollections imageData now db))))
    as [x|] eqn:Hfind.
  - apply find_some in Hfind. destruct Hfind as [Hin Hname].
    apply String.eqb_eq in Hname.
    apply add_subset in Hin. destruct Hin as [Hin| ->]; [|reflexivity].
    exfalso. apply countName_find in Hfresh.
    pose proof (find_none _ _ Hfresh x Hin) as Hno. simpl in Hno.
    rewrite Hname, String.eqb_refl in Hno. discriminate.
  - exfalso. apply countName_find in Hfind.
    rewrite add_count in Hfind.
    destruct (addedTo_folders imageData now db) as (_ & _ & Hlen).
    unfold Props.countName in Hfind at 2. simpl in Hfind.
    rewrite String.eqb_refl in Hfind. simpl in Hfind. lia.
Qed.

Lemma upsert_find_other (imageData : ImageRecord) (f : ImageRecord -> bool)
  (key : string) (update setOnInsert : CategoryDoc -> CategoryDoc)
  (docs : Collection) :
  f imageData = false ->
  (forall d, images (update d) = (images d ++ [imageData])%list) ->
  images (setOnInsert (Mongo.blankDoc key)) = [] ->
  find f (flat_map images (Mongo.findOneAndUpdate key update setOnInsert docs))
  = find f (flat_map images docs).
Proof.
  intros Hf Hupd Hins. induction docs as [|d docs IH]; simpl.
  - rewrite List.app_nil_r, Hupd, Hins. simpl. now rewrite Hf.
  - destruct (String.eqb (docKey d) key); simpl.
    + rewrite Hupd, !find_app_first. simpl. rewrite Hf.
      destruct (find f (images d)); reflexivity.
    + rewrite !find_app_first, IH. reflexivity.
Qed.

Lemma add_find_other (imageData : ImageRecord) (now : Z) (db : Database)
  (name : string) :
  name <> filename imageData ->
  find (fun i => String.eqb (filename i) name)
    (allStoredImages (snd (addImageToCollections imageData now db)))
  = find (fun i => String.eqb (filename i) name) (allStoredImages db).
Proof.
  intros Hne.
  assert (Hf : (fun i => String.eqb (filename i) name) imageData = false).
  { simpl. apply String.eqb_neq. congruence. }
  unfold allStoredImages.
  rewrite !flat_map_app, !find_app_first,
    add_Person, add_Pet, add_Nature, add_Vehicle.
  destruct (autoTags imageData) as [pid n p v o]; simpl person_id; simpl pets;
    simpl nature; simpl vehicle.
  destruct pid as [[|c id]|], p, n, v; simpl JS.truthy; simpl JS.truthyOpt; cbv iota;
    simpl orb; cbv iota;
    rewrite ?(upsert_find_other imageData (fun i => String.eqb (filename i) name))
      by (exact Hf || reflexivity);
    reflexivity.
Qed.

(** After addImageToCollections the file name of the record is found by
    findImageByFilename; if no document held that file name before, the
    image found is the record that was added.  After
    removeImageFromCollections the file name is not found.  A lookup of
    another file name finds the same image before and after the add. *)
Theorem lookup_after_add_and_remove (imageData : ImageRecord) (now : Z)
  (db : Database) (name : string) :
  let added := snd (addImageToCollections imageData now db) in
  let removed := snd (removeImageFromCollections name db) in
  findImageByFilename (filename imageData) added <> None /\
  (findImageByFilename (filename imageData) db = None ->
   option_map foundImage (findImageByFilename (filename imageData) added)
   = Some imageData) /\
  findImageByFilename name removed = None /\
  (name <> filename imageData ->
   option_map foundImage (findImageByFilename name added)
   = option_map foundImage (findImageByFilename name db)).
Proof.
  cbv zeta. split; [|split; [|split]].
  - rewrite lookup_none_iff, add_count.
    destruct (addedTo_folders imageData now db) as (_ & _ & Hlen).
    unfold Props.countName at 2. simpl. rewrite String.eqb_refl. simpl. lia.
  - intros Hnone. apply lookup_fresh. now apply lookup_none_iff.
  - apply lookup_none_iff, remove_count.
  - intros Hne. rewrite !findImageByFilename_first.
    now apply add_find_other.
Qed.

(** Removing a file name and then adding a record with that file name,
    the order every re-tagging follows, leaves the record stored exactly
    once in each collection the add reports and in no other collection:
    the collections reported are those of the destination documents of
    the tags, and in every collection the number of images with the file
    name is one when the collection is reported and zero when it is not.
    Every stored image with the file name is the record, and a lookup of
    the file name returns that record. *)
Theorem remove_then_add_stores_once (imageData : ImageRecord) (now : Z)
  (db : Database) :
  let removed := snd (removeImageFromCollections (filename imageData) db) in
  let result := fst (addImageToCollections imageData now removed) in
  let after := snd (addImageToCollections imageData now removed) in
  addedTo result = map Props.reportName (Spec.syncTargets (autoTags imageData)) /\
  NoDup (addedTo result) /\
  (forall c : Spec.CollectionName,
     Props.countName (filename imageData) (Props.storedIn c after)
     = if Props.reports (addedTo result) c then 1 else 0) /\
  Props.countName (filename imageData) (allStoredImages after)
  = List.length (addedTo result) /\
  (forall x, In x (allStoredImages after) ->
             filename x = filename imageData -> x = imageData) /\
  option_map foundImage (findImageByFilename (filename imageData) after)
  = Some imageData.
Proof.
  cbv zeta.
  pose proof (remove_count (filename imageData) db) as Hzero.
  set (removed := snd (removeImageFromCollections (filename imageData) db)) in *.
  destruct (add_report imageData now removed) as [Hreport Hnodup].
  split; [exact Hreport|]. split; [exact Hnodup|]. split; [|split; [|split]].
  - intros c. rewrite add_count_in.
    rewrite (countName_zero (filename imageData) (Props.storedIn c removed)).
    + now rewrite countName_self.
    + intros i Hi. apply storedIn_stored in Hi.
      exact (removeImageFromCollections_no_occurrence _ _ _ Hi).
  - rewrite add_count, Hzero. unfold Props.countName. simpl.
    rewrite String.eqb_refl. simpl. lia.
  - intros x Hin Hname. apply add_subset in Hin.
    destruct Hin as [Hin|Heq]; [|exact Heq].
    exfalso. exact (removeImageFromCollections_no_occurrence _ _ _ Hin Hname).
  - now apply lookup_fresh.
Qed.

(** ** The organisation status *)

Lemma setFirstImage_filenames (name : string) (flag : bool) (paths : list string)
  (l : list ImageRecord) :
  map filename (Mongo.setFirstImage name (setOrganized flag paths) l)
  = map filename l.
Proof.
  induction l as [|i l IH]; simpl; [reflexivity|].
  destruct (String.eqb (filename i) name); simpl; [reflexivity|].
  now rewrite IH.
Qed.

Lemma setFirstImage_find (name : string) (flag : bool) (paths : list string)
  (l : list ImageRecord) :
  find (fun i => String.eqb (filename i) name)
    (Mongo.setFirstImage name (setOrganized flag paths) l)
  = option_map (setOrganized flag paths)
      (find (fun i => String.eqb (filename i) name) l).
Proof.
  induction l as [|i l IH]; simpl; [reflexivity|].
  destruct (String.eqb (filename i) name) eqn:Hi; simpl.
  - now rewrite Hi.
  - now rewrite Hi.
Qed.

Lemma setFirstImage_find_other (name other : string) (flag : bool)
  (paths : list string) (l : list ImageRecord) :
  other <> name ->
  find (fun i => String.eqb (filename i) other)
    (Mongo.setFirstImage name (setOrganized flag paths) l)
  = find (fun i => String.eqb (filename i) other) l.
Proof.
  intros Hne. induction l as [|i l IH]; simpl; [reflexivity|].
  destruct (String.eqb_spec (filename i) name) as [Hi|Hi]; simpl.
  - destruct (String.eqb_spec (filename i) other) as [Ho|_]; [|reflexivity].
    congruence.
  - now rewrite IH.
Qed.

Lemma markDoc_fields (name : string) (flag : bool) (paths : list string)
  (d : CategoryDoc) :
  docKey (Props.markDoc name flag paths d) = docKey d /\
  imageCount (Props.markDoc name flag paths d) = imageCount d /\
  map filename (images (Props.markDoc name flag paths d)) = map filename (images d) /\
  images (Props.markDoc name flag paths d)
  = Mongo.setFirstImage name (setOrganized flag paths) (images d).
Proof.
  unfold Props.markDoc, Mongo.hasImage. rewrite existsb_find.
  destruct (find (fun i => String.eqb (filename i) name) (images d)) eqn:Hfind;
    simpl; repeat split; try apply setFirstImage_filenames.
  clear -Hfind. induction (images d) as [|i l IH]; simpl in *; [reflexivity|].
  destruct (String.eqb (filename i) name); [discriminate|].
  now rewrite <- IH.
Qed.

Lemma marked_find (name : string) (flag : bool) (paths : list string)
  (docs : Collection) :
  find (fun i => String.eqb (filename i) name)
    (flat_map images (map (Props.markDoc name flag paths) docs))
  = option_map (setOrganized flag paths)
      (find (fun i => String.eqb (filename i) name) (flat_map images docs)).
Proof.
  induction docs as [|d docs IH]; simpl; [reflexivity|].
  rewrite !find_app_first, IH.
  destruct (markDoc_fields name flag paths d) as (_ & _ & _ & ->).
  rewrite setFirstImage_find.
  destruct (find (fun i => String.eqb (filename i) name) (images d)); reflexivity.
Qed.

Lemma marked_find_other (name other : string) (flag : bool) (paths : list string)
  (docs : Collection) :
  other <> name ->
  find (fun i => String.eqb (filename i) other)
    (flat_map images (map (Props.markDoc name flag paths) docs))
  = find (fun i => String.eqb (filename i) other) (flat_map images docs).
Proof.
  intros Hne. induction docs as [|d docs IH]; simpl; [reflexivity|].
  rewrite !find_app_first, IH.
  destruct (markDoc_fields name flag paths d) as (_ & _ & _ & ->).
  now rewrite setFirstImage_find_other.
Qed.

Lemma marked_filenames (name : string) (flag : bool) (paths : list string)
  (docs : Collection) :
  map filename (flat_map images (map (Props.markDoc name flag paths) docs))
  = map filename (flat_map images docs).
Proof.
  induction docs as [|d docs IH]; simpl; [reflexivity|].
  rewrite !map_app, IH.
  destruct (markDoc_fields name flag paths d) as (_ & _ & -> & _). reflexivity.
Qed.

Lemma organized_stored (name : string) (flag : bool) (paths : list string)
  (db : Database) :
  allStoredImages (updateImageOrganizedStatus name flag paths db)
  = (flat_map images (map (Props.markDoc name flag paths) (Person db)) ++
     flat_map images (map (Props.markDoc name flag paths) (Pet db)) ++
     flat_map images (map (Props.markDoc name flag paths) (Nature db)) ++
     flat_map images (map (Props.markDoc name flag paths) (Vehicle db)))%list.
Proof.
  unfold allStoredImages, updateImageOrganizedStatus. simpl.
  now rewrite !flat_map_app.
Qed.

(** updateImageOrganizedStatus changes no key, no imageCount and no file
    name: every collection keeps its documents in place and every
    document the sequence of file names of its images.  Of each document
    it changes only the first image with the file name, so a lookup of
    the file name returns the image found before with organized and
    organizedPaths set to the given values, and lookups of other file
    names return what they returned before. *)
Theorem updateImageOrganizedStatus_marks_first (name : string) (flag : bool)
  (paths : list string) (db : Database) :
  let after := updateImageOrganizedStatus name flag paths db in
  (forall c : Spec.CollectionName,
     map docKey (Spec.collectionOf c after) = map docKey (Spec.collectionOf c db) /\
     map imageCount (Spec.collectionOf c after)
     = map imageCount (Spec.collectionOf c db) /\
     map (fun d => map filename (images d)) (Spec.collectionOf c after)
     = map (fun d => map filename (images d)) (Spec.collectionOf c db)) /\
  option_map foundImage (findImageByFilename name after)
  = option_map (setOrganized flag paths)
      (option_map foundImage (findImageByFilename name db)) /\
  (forall other, other <> name ->
     option_map foundImage (findImageByFilename other after)
     = option_map foundImage (findImageByFilename other db)).
Proof.
  cbv zeta. split; [|split].
  - assert (Hcoll : forall docs,
               map docKey (map (Props.markDoc name flag paths) docs) = map docKey docs /\
               map imageCount (map (Props.markDoc name flag paths) docs)
               = map imageCount docs /\
               map (fun d => map filename (images d))
                   (map (Props.markDoc name flag paths) docs)
               = map (fun d => map filename (images d)) docs).
    { intros docs. rewrite !map_map.
      repeat split; apply map_ext; intros d;
        destruct (markDoc_fields name flag paths d) as (H1 & H2 & H3 & _);
        assumption. }
    intros c. destruct c; simpl; apply Hcoll.
  - rewrite !findImageByFilename_first, organized_stored.
    unfold allStoredImages. rewrite !flat_map_app, !find_app_first, !marked_find.
    repeat match goal with
           | |- context [find ?f (flat_map images ?docs)] =>
               destruct (find f (flat_map images docs)); simpl; try reflexivity
           end.
  - intros other Hne.
    rewrite !findImageByFilename_first, organized_stored.
    unfold allStoredImages.
    rewrite !flat_map_app, !find_app_first, !marked_find_other by exact Hne.
    reflexivity.
Qed.

End Writing.

(* ================================================================== *)
(** * The server's helpers *)
(* ================================================================== *)

Section ServerHelpers.

Import ImageProcessor Server.

(** ** Display tags *)

Lemma NoDup_app_snoc (A : Type) (l : list A) (x : A) :
  NoDup l -> ~ In x l -> NoDup (l ++ [x]).
Proof.
  induction 1 as [|y l Hy Hl IH]; simpl; intros Hx.
  - constructor; [intros [] | constructor].
  - constructor.
    + intros Hin. apply in_app_or in Hin. destruct Hin as [Hin|[Heq|[]]].
      * now apply Hy.
      * apply Hx. now left.
    + apply IH. intros Hin. apply Hx. now right.
Qed.

Lemma display_fold (objs : list string) (acc : list string) :
  let result :=
    fold_left
      (fun tags obj => if negb (arrayIncludes tags obj) then push tags obj else tags)
      objs acc in
  (NoDup acc -> NoDup result) /\
  (forall x, In x acc -> In x result) /\
  (forall o, In o objs -> In o result) /\
  (forall x, In x result -> In x acc \/ In x objs).
Proof.
  cbv zeta. revert acc; induction objs as [|o objs IH]; intros acc; simpl.
  - repeat split; auto. intros o [].
  - set (next := if negb (arrayIncludes acc o) then push acc o else acc).
    destruct (IH next) as (Hnd & Hacc & Hobjs & Hfrom).
    assert (Hnext_acc : forall x, In x acc -> In x next).
    { intros x Hx. unfold next, push.
      destruct (arrayIncludes acc o); simpl; [exact Hx|].
      apply in_or_app. now left. }
    assert (Hnext_o : In o next).
    { unfold next, push. destruct (arrayIncludes acc o) eqn:Ho; simpl.
      - now apply arrayIncludes_In.
      - apply in_or_app. right. now left. }
    assert (Hnext_from : forall x, In x next -> In x acc \/ x = o).
    { intros x. unfold next, push. destruct (arrayIncludes acc o); simpl.
      - now left.
      - intros Hx. apply in_app_or in Hx. destruct Hx as [Hx|[Hx|[]]]; auto. }
    split; [|split; [|split]].
    + intros Hacc_nd. apply Hnd. unfold next, push.
      destruct (arrayIncludes acc o) eqn:Ho; simpl; [exact Hacc_nd|].
      apply NoDup_app_snoc; [exact Hacc_nd|].
      intros Hin. apply arrayIncludes_In in Hin. congruence.
    + intros x Hx. apply Hacc, Hnext_acc, Hx.
    + intros x [<-|Hx]; [apply Hacc, Hnext_o | apply Hobjs, Hx].
    + intros x Hx. destruct (Hfrom x Hx) as [H|H]; [|now right; right].
      destruct (Hnext_from x H) as [H'|H']; [now left | right; left; congruence].
Qed.

(** autoTagsToArray never returns an empty array and never repeats a tag:
    it names each category whose flag is set (person for a non-empty
    person id), then every object not yet named; every tag shown is one
    of these, or the single tag uncategorized when there is nothing to
    show. *)
Theorem autoTagsToArray_shows_each_tag_once (t : AutoTags) :
  autoTagsToArray t <> [] /\
  NoDup (autoTagsToArray t) /\
  (forall o, In o (objects t) -> In o (autoTagsToArray t)) /\
  (vehicle t = true -> In "vehicle" (autoTagsToArray t)) /\
  (pets t = true -> In "pet" (autoTagsToArray t)) /\
  (nature t = true -> In "nature" (autoTagsToArray t)) /\
  (JS.truthyOpt (person_id t) = true -> In "person" (autoTagsToArray t)) /\
  (forall x, In x (autoTagsToArray t) ->
             In x ["vehicle"; "pet"; "nature"; "person"; "uncategorized"] \/
             In x (objects t)).
Proof.
  unfold autoTagsToArray. cbv zeta.
  match goal with
  | |- context [fold_left _ (objects t) ?acc] => set (flagged := acc)
  end.
  destruct (display_fold (objects t) flagged) as (Hnd & Hacc & Hobjs & Hfrom).
  cbv zeta in Hnd, Hacc, Hobjs, Hfrom.
  set (shown := fold_left _ (objects t) flagged) in *.
  assert (Hflagged :
            NoDup flagged /\
            (vehicle t = true -> In "vehicle" flagged) /\
            (pets t = true -> In "pet" flagged) /\
            (nature t = true -> In "nature" flagged) /\
            (JS.truthyOpt (person_id t) = true -> In "person" flagged) /\
            (forall x, In x flagged -> In x ["vehicle"; "pet"; "nature"; "person"])).
  { unfold flagged, push.
    destruct (JS.truthyOpt (person_id t)), (nature t), (pets t), (vehicle t); simpl;
      (split; [repeat constructor; simpl; intuition discriminate|]);
      repeat split; intros; try discriminate; simpl in *; intuition. }
  destruct Hflagged as (Hfnd & Hv & Hp & Hn & Hq & Hfl).
  destruct shown as [|s0 shown'] eqn:Hshown; simpl.
  - split; [discriminate|]. split; [repeat constructor; intros []|].
    split; [intros o Ho; destruct (Hobjs o Ho)|].
    split; [intros H; destruct (Hacc _ (Hv H))|].
    split; [intros H; destruct (Hacc _ (Hp H))|].
    split; [intros H; destruct (Hacc _ (Hn H))|].
    split; [intros H; destruct (Hacc _ (Hq H))|].
    intros x [<-|[]]. left. simpl. auto 6.
  - split; [discriminate|]. split; [now apply Hnd|].
    split; [intros o Ho; now apply Hobjs|].
    split; [intros H; apply Hacc, Hv, H|].
    split; [intros H; apply Hacc, Hp, H|].
    split; [intros H; apply Hacc, Hn, H|].
    split; [intros H; apply Hacc, Hq, H|].
    intros x Hx. destruct (Hfrom x Hx) as [H|H]; [left | now right].
    specialize (Hfl x H). simpl in *. intuition.
Qed.

(** ** Normalised custom tags *)

Lemma trimStart_toLowerCase (s : string) :
  JS.trimStart (JS.toLowerCase s) = JS.toLowerCase (JS.trimStart s).
Proof.
  induction s as [|c s IH]; simpl; [reflexivity|].
  rewrite isWhiteSpace_lowerChar.
  destruct (JS.isWhiteSpace c); [exact IH | reflexivity].
Qed.

Lemma trimEnd_toLowerCase (s : string) :
  JS.trimEnd (JS.toLowerCase s) = JS.toLowerCase (JS.trimEnd s).
Proof.
  induction s as [|c s IH]; simpl; [reflexivity|].
  rewrite IH, isWhiteSpace_lowerChar.
  destruct (JS.trimEnd s); simpl; [|reflexivity].
  destruct (JS.isWhiteSpace c); reflexivity.
Qed.

Lemma trim_toLowerCase (s : string) :
  JS.trim (JS.toLowerCase s) = JS.toLowerCase (JS.trim s).
Proof.
  unfold JS.trim. now rewrite trimStart_toLowerCase, trimEnd_toLowerCase.
Qed.

Lemma normalizeTags_clean (tags : list string) (tag : string) :
  In tag (normalizeTags tags) ->
  JS.truthy tag = true /\ JS.trim tag = tag /\ JS.toLowerCase tag = tag.
Proof.
  unfold normalizeTags. intros Hin.
  apply filter_In in Hin. destruct Hin as [Hin Htruthy].
  apply in_map_iff in Hin. destruct Hin as (raw & <- & _).
  split; [exact Htruthy|]. split.
  - now rewrite trim_toLowerCase, trim_idem.
  - apply toLowerCase_idem.
Qed.

Lemma clean_tags_kept (customTags : list string) :
  (forall tag, In tag customTags -> JS.truthy tag = true /\ JS.trim tag = tag) ->
  List.filter Spec.notBlank customTags = customTags /\
  map (fun tag => ("tags/" ++ JS.trim tag)%string) customTags
  = map (fun tag => ("tags/" ++ tag)%string) customTags.
Proof.
  induction customTags as [|tag rest IH]; intros Hclean; [split; reflexivity|].
  cbn [List.filter map].
  destruct (Hclean tag (or_introl eq_refl)) as [Htruthy Htrim].
  destruct IH as [IH1 IH2]; [intros t Ht; apply Hclean; now right|].
  split.
  - unfold Spec.notBlank at 1. now rewrite Htrim, Htruthy, IH1.
  - now rewrite Htrim, IH2.
Qed.

(** The custom tags the routes pass on are trimmed, lower case and not
    empty, and normalising them again changes nothing.  For such tags
    getAllFolderPaths files the image under tags/<tag> for every tag as
    it stands, and the legacy determineFolderPath agrees with the first
    current destination. *)
Theorem normalizeTags_reach_folders_verbatim (tags : list string) (t : AutoTags) :
  let customTags := normalizeTags tags in
  (forall tag, In tag customTags ->
     tag <> EmptyString /\ JS.trim tag = tag /\ JS.toLowerCase tag = tag /\
     In ("tags/" ++ tag) (getAllFolderPaths t customTags)) /\
  normalizeTags customTags = customTags /\
  determineFolderPath t customTags
  = Some (ImageProcessorOld.determineFolderPath t customTags).
Proof.
  cbv zeta.
  assert (Hclean : forall tag, In tag (normalizeTags tags) ->
                     JS.truthy tag = true /\ JS.trim tag = tag).
  { intros tag Hin. destruct (normalizeTags_clean tags tag Hin) as (H1 & H2 & _).
    now split. }
  destruct (clean_tags_kept (normalizeTags tags) Hclean) as [Hkept Hpaths].
  split; [|split].
  - intros tag Hin.
    destruct (normalizeTags_clean tags tag Hin) as (Htruthy & Htrim & Hlower).
    split; [intros ->; discriminate Htruthy|]. split; [exact Htrim|].
    split; [exact Hlower|].
    rewrite getAllFolderPaths_destinations_eq. unfold Spec.destinations.
    rewrite Hkept, Hpaths.
    assert (Htag : In ("tags/" ++ tag)
                     (map (fun tag0 => ("tags/" ++ tag0)%string) (normalizeTags tags)))
      by (apply (in_map (fun tag0 => ("tags/" ++ tag0)%string)); exact Hin).
    match goal with
    | |- In _ (match ?paths with [] => _ | _ => _ end) =>
        assert (Hp : In ("tags/" ++ tag) paths)
          by (repeat (apply in_or_app; right); exact Htag);
        destruct paths; [destruct Hp | exact Hp]
    end.
  - unfold normalizeTags at 1.
    assert (Hmap : map (fun tag => JS.toLowerCase (JS.trim tag)) (normalizeTags tags)
                   = normalizeTags tags).
    { rewrite <- (map_id (normalizeTags tags)) at 2. apply map_ext_in.
      intros tag Hin. destruct (normalizeTags_clean tags tag Hin) as (_ & -> & ->).
      reflexivity. }
    rewrite Hmap. clear Hmap Hkept Hpaths.
    induction (normalizeTags tags) as [|tag rest IH]; simpl; [reflexivity|].
    destruct (Hclean tag (or_introl eq_refl)) as [-> _].
    rewrite IH; [reflexivity|]. intros t0 Ht0. apply Hclean. now right.
  - destruct (noCategory_dec t) as [Hno|Hcat];
      [|now apply primary_path_with_category].
    destruct (primary_path_without_category t (normalizeTags tags) Hno) as [-> ->].
    rewrite Hkept.
    destruct (normalizeTags tags) as [|tag rest]; [reflexivity|].
    destruct (Hclean tag (or_introl eq_refl)) as [_ ->]. reflexivity.
Qed.

End ServerHelpers.

(* ================================================================== *)
(** * The re-tagging route *)
(* ================================================================== *)

Section Retagging.

Import ImageProcessor CollectionSync Server.

Lemma found_has_name (name : string) (db : Database) (found : FoundImage) :
  findImageByFilename name db = Some found -> filename (foundImage found) = name.
Proof.
  intros Hfound. pose proof (findImageByFilename_first name db) as Hfirst.
  rewrite Hfound in Hfirst. simpl in Hfirst. symmetry in Hfirst.
  apply find_some in Hfirst. now apply String.eqb_eq.
Qed.

Lemma updateTags_found (name : string) (tags : list string) (now : Z)
  (store : PersonStore) (db : Database) (existingImage : FoundImage) :
  findImageByFilename name db = Some existingImage ->
  let removed := snd (removeImageFromCollections name db) in
  let updated := Props.updatedImageData existingImage name tags store in
  updateTags name tags now store db
  = (TagsUpdated (foundCollection existingImage)
       (addedTo (fst (addImageToCollections updated now removed)))
       (normalizeTags tags)
       (autoTagsToArray (Props.retaggedTags existingImage name tags store)),
     snd (Props.retagLoop existingImage tags store),
     snd (addImageToCollections updated now removed)).
Proof.
  intros Hfound. cbv zeta.
  unfold updateTags, Props.updatedImageData, Props.retaggedTags, Props.retagLoop.
  rewrite Hfound. cbv zeta.
  destruct (fold_left (retagStep existingImage) (normalizeTags tags) (emptyTags, store))
    as [auto store1].
  cbn [fst snd].
  match goal with
  | |- context [addImageToCollections ?u now ?d] =>
      destruct (addImageToCollections u now d) as [results db1]
  end.
  reflexivity.
Qed.

(** ** The person store during the loop *)

Lemma personIdFor_cases (existingImage : FoundImage) (store : PersonStore) :
  (JS.truthyOpt (person_id (autoTags (foundImage existingImage))) = true /\
   snd (personIdFor existingImage store) = store) \/
  personIdFor existingImage store
  = findOrCreatePersonId (embedding (foundImage existingImage)) store.
Proof.
  unfold personIdFor.
  destruct (person_id (autoTags (foundImage existingImage))) as [[|c id]|]; simpl;
    auto.
Qed.

Lemma retagStep_snd (existingImage : FoundImage) (auto : AutoTags)
  (store : PersonStore) (tag : string) :
  snd (retagStep existingImage (auto, store) tag)
  = if namesCategory categoryKeywords.person tag
    then snd (personIdFor existingImage store) else store.
Proof.
  unfold retagStep.
  destruct (namesCategory categoryKeywords.person tag); [|reflexivity].
  destruct (personIdFor existingImage store) as [id st]. reflexivity.
Qed.

Lemma retagStep_store (existingImage : FoundImage) (auto : AutoTags)
  (store : PersonStore) (tag : string) :
  snd (retagStep existingImage (auto, store) tag) = store \/
  snd (retagStep existingImage (auto, store) tag)
  = snd (findOrCreatePersonId (embedding (foundImage existingImage)) store).
Proof.
  rewrite retagStep_snd.
  destruct (namesCategory categoryKeywords.person tag); [|left; reflexivity].
  destruct (personIdFor_cases existingImage store) as [[_ H]|H].
  - left. exact H.
  - right. now rewrite H.
Qed.

Lemma retag_fold_store (existingImage : FoundImage) (customTags : list string)
  (auto : AutoTags) (store : PersonStore) :
  Spec.registryOrdered store ->
  let store' := snd (fold_left (retagStep existingImage) customTags (auto, store)) in
  Spec.registryOrdered store' /\
  exists added, store' = (store ++ added)%list /\
                List.length added <= List.length customTags.
Proof.
  cbv zeta.
  revert auto store; induction customTags as [|tag rest IH]; intros auto store Hord;
    cbn [fold_left List.length].
  - split; [exact Hord|]. exists []. split; [now rewrite List.app_nil_r | simpl; lia].
  - destruct (retagStep existingImage (auto, store) tag) as [auto1 store1] eqn:Hstep.
    assert (Hstore : store1 = store \/
                     store1 = snd (findOrCreatePersonId
                                     (embedding (foundImage existingImage)) store)).
    { pose proof (retagStep_store existingImage auto store tag) as H.
      rewrite Hstep in H. exact H. }
    assert (Hord1 : Spec.registryOrdered store1).
    { destruct Hstore as [->| ->]; [exact Hord|].
      now apply findOrCreatePersonId_ordered. }
    assert (Hext : exists added1, store1 = (store ++ added1)%list /\
                                  List.length added1 <= 1).
    { destruct Hstore as [->| ->].
      - exists []. split; [now rewrite List.app_nil_r | simpl; lia].
      - destruct (findOrCreatePersonId_cases
                    (embedding (foundImage existingImage)) store Hord)
          as [[_ ->]|[_ ->]].
        + exists []. split; [now rewrite List.app_nil_r | simpl; lia].
        + eexists. split; [reflexivity | simpl; lia]. }
    destruct (IH auto1 store1 Hord1) as [Hord' (added & Heq & Hlen)].
    split; [exact Hord'|].
    destruct Hext as (added1 & -> & Hlen1).
    exists (added1 ++ added)%list. split.
    + now rewrite Heq, List.app_assoc.
    + rewrite length_app. lia.
Qed.

Lemma retag_fold_untouched (existingImage : FoundImage) (customTags : list string)
  (auto : AutoTags) (store : PersonStore) :
  JS.truthyOpt (person_id (autoTags (foundImage existingImage))) = true ->
  snd (fold_left (retagStep existingImage) customTags (auto, store)) = store.
Proof.
  intros Hid.
  revert auto; induction customTags as [|tag rest IH]; intros auto;
    cbn [fold_left]; [reflexivity|].
  destruct (retagStep existingImage (auto, store) tag) as [auto1 store1] eqn:Hstep.
  assert (Hstore : store1 = store).
  { pose proof (retagStep_snd existingImage auto store tag) as H.
    rewrite Hstep in H. cbn [snd] in H. rewrite H.
    destruct (namesCategory categoryKeywords.person tag); [|reflexivity].
    destruct (personIdFor_cases existingImage store) as [[_ Hs]|Hs]; [exact Hs|].
    unfold personIdFor.
    destruct (person_id (autoTags (foundImage existingImage))) as [[|c id]|];
      try discriminate Hid.
    reflexivity. }
  rewrite Hstore. apply IH.
Qed.

(** ** The tags the loop leaves *)

Lemma personIdFor_id (existingImage : FoundImage) (store : PersonStore) :
  Spec.registryOrdered store ->
  if JS.truthyOpt (person_id (autoTags (foundImage existingImage)))
  then Some (fst (personIdFor existingImage store))
       = person_id (autoTags (foundImage existingImage))
  else JS.truthy (fst (personIdFor existingImage store)) = true /\
       In (fst (personIdFor existingImage store))
          (getTrackedPersons (snd (personIdFor existingImage store))).
Proof.
  intros Hord.
  assert (Hnew : JS.truthy (fst (findOrCreatePersonId
                                   (embedding (foundImage existingImage)) store)) = true /\
                 In (fst (findOrCreatePersonId
                            (embedding (foundImage existingImage)) store))
                    (getTrackedPersons
                       (snd (findOrCreatePersonId
                               (embedding (foundImage existingImage)) store)))).
  { assert (Hin : In (fst (findOrCreatePersonId
                             (embedding (foundImage existingImage)) store))
                     (getTrackedPersons
                        (snd (findOrCreatePersonId
                                (embedding (foundImage existingImage)) store)))).
    { destruct (findOrCreatePersonId_cases
                  (embedding (foundImage existingImage)) store Hord)
        as [[Hin ->]|[-> ->]]; [exact Hin|].
      unfold getTrackedPersons. rewrite map_app. apply in_or_app. right. now left. }
    split; [|exact Hin].
    apply (tracked_truthy
             (snd (findOrCreatePersonId (embedding (foundImage existingImage)) store)));
      [now apply findOrCreatePersonId_ordered | exact Hin]. }
  unfold personIdFor.
  destruct (person_id (autoTags (foundImage existingImage))) as [[|c id]|];
    simpl; [exact Hnew | reflexivity | exact Hnew].
Qed.

Lemma retagStep_tags (existingImage : FoundImage) (auto : AutoTags)
  (store : PersonStore) (tag : string) :
  let auto' := fst (retagStep existingImage (auto, store) tag) in
  pets auto' = pets auto || namesCategory categoryKeywords.pet tag /\
  nature auto' = nature auto || namesCategory categoryKeywords.nature tag /\
  vehicle auto' = vehicle auto || namesCategory categoryKeywords.vehicle tag /\
  objects auto' = (objects auto ++ Props.tokensOfTag tag)%list /\
  person_id auto'
  = if namesCategory categoryKeywords.person tag
    then Some (fst (personIdFor existingImage store)) else person_id auto.
Proof.
  cbv zeta. unfold retagStep, Props.tokensOfTag.
  destruct (personIdFor existingImage store) as [id st].
  destruct auto as [pid n p v o].
  destruct (namesCategory categoryKeywords.person tag),
    (namesCategory categoryKeywords.pet tag),
    (namesCategory categoryKeywords.nature tag),
    (namesCategory categoryKeywords.vehicle tag);
    cbn [fst pets nature vehicle objects person_id pushObject setPersonId setPets
         setNature setVehicle push app];
    rewrite ?orb_true_r, ?orb_false_r, <- ?List.app_assoc, ?List.app_nil_r;
    repeat split; reflexivity.
Qed.

Lemma retag_fold_tags (existingImage : FoundImage) (customTags : list string)
  (auto : AutoTags) (store : PersonStore) :
  Spec.registryOrdered store ->
  let r := fold_left (retagStep existingImage) customTags (auto, store) in
  pets (fst r) = pets auto || Props.tagsName categoryKeywords.pet customTags /\
  nature (fst r) = nature auto || Props.tagsName categoryKeywords.nature customTags /\
  vehicle (fst r) = vehicle auto || Props.tagsName categoryKeywords.vehicle customTags /\
  objects (fst r) = (objects auto ++ flat_map Props.tokensOfTag customTags)%list /\
  if Props.tagsName categoryKeywords.person customTags then
    if JS.truthyOpt (person_id (autoTags (foundImage existingImage)))
    then person_id (fst r) = person_id (autoTags (foundImage existingImage))
    else exists id, person_id (fst r) = Some id /\ JS.truthy id = true /\
                    In id (getTrackedPersons (snd r))
  else person_id (fst r) = person_id auto.
Proof.
  cbv zeta.
  revert auto store; induction customTags as [|tag rest IH]; intros auto store Hord;
    cbn [fold_left Props.tagsName existsb flat_map].
  - rewrite !orb_false_r, List.app_nil_r. repeat split; reflexivity.
  - destruct (retagStep existingImage (auto, store) tag) as [auto1 store1] eqn:Hstep.
    pose proof (retagStep_tags existingImage auto store tag) as Htags.
    pose proof (retagStep_snd existingImage auto store tag) as Hsnd.
    pose proof (personIdFor_id existingImage store Hord) as Hid.
    rewrite Hstep in Htags, Hsnd. cbv zeta in Htags. cbn [fst snd] in Htags, Hsnd.
    destruct Htags as (Hp & Hn & Hv & Ho & Hpid).
    assert (Hord1 : Spec.registryOrdered store1).
    { pose proof (retagStep_store existingImage auto store tag) as H.
      rewrite Hstep in H. cbn [snd] in H.
      destruct H as [->| ->]; [exact Hord|].
      now apply findOrCreatePersonId_ordered. }
    destruct (IH auto1 store1 Hord1) as (Hp' & Hn' & Hv' & Ho' & Hpid').
    destruct (retag_fold_store existingImage rest auto1 store1 Hord1)
      as [_ (added & Hadded & _)].
    change (existsb (namesCategory categoryKeywords.pet) rest)
      with (Props.tagsName categoryKeywords.pet rest).
    change (existsb (namesCategory categoryKeywords.nature) rest)
      with (Props.tagsName categoryKeywords.nature rest).
    change (existsb (namesCategory categoryKeywords.vehicle) rest)
      with (Props.tagsName categoryKeywords.vehicle rest).
    change (existsb (namesCategory categoryKeywords.person) rest)
      with (Props.tagsName categoryKeywords.person rest).
    rewrite Hp', Hn', Hv', Ho', Hp, Hn, Hv, Ho, !orb_assoc, List.app_assoc.
    split; [reflexivity|]. split; [reflexivity|]. split; [reflexivity|].
    split; [reflexivity|].
    destruct (Props.tagsName categoryKeywords.person rest).
    + rewrite orb_true_r. exact Hpid'.
    + rewrite orb_false_r. rewrite Hpid'.
      destruct (namesCategory categoryKeywords.person tag); [|exact Hpid].
      destruct (JS.truthyOpt (person_id (autoTags (foundImage existingImage)))).
      * now rewrite Hpid.
      * exists (fst (personIdFor existingImage store)).
        destruct Hid as [Htruthy Htracked].
        split; [exact Hpid|]. split; [exact Htruthy|].
        rewrite Hadded, Hsnd. unfold getTrackedPersons in *.
        rewrite map_app. apply in_or_app. now left.
Qed.

Lemma retaggedTags_retagged (existingImage : FoundImage) (name : string)
  (tags : list string) (store : PersonStore) :
  Spec.registryOrdered store ->
  Props.retagged (normalizeTags tags) (autoTags (foundImage existingImage))
    (analyzeFilename
       (if JS.truthy (originalName (foundImage existingImage))
        then originalName (foundImage existingImage) else name))
    (getTrackedPersons (snd (Props.retagLoop existingImage tags store)))
    (Props.retaggedTags existingImage name tags store).
Proof.
  intros Hord.
  destruct (retag_fold_tags existingImage (normalizeTags tags) emptyTags store Hord)
    as (Hp & Hn & Hv & Ho & Hpid).
  unfold Props.retagged, Props.retaggedTags, Props.retagLoop in *. cbv zeta.
  set (r := fold_left (retagStep existingImage) (normalizeTags tags) (emptyTags, store))
    in *.
  cbn [pets nature vehicle objects person_id emptyTags orb app] in Hp, Hn, Hv, Ho, Hpid.
  rewrite Hp, Hn, Hv.
  destruct (Props.tagsName categoryKeywords.person (normalizeTags tags)).
  - assert (Htruthy : JS.truthyOpt (person_id (fst r)) = true).
    { destruct (JS.truthyOpt (person_id (autoTags (foundImage existingImage))))
        eqn:Hexisting.
      - now rewrite Hpid.
      - destruct Hpid as (id & -> & Hid & _). exact Hid. }
    rewrite Htruthy. cbn [negb andb orb].
    repeat split; assumption.
  - rewrite Hpid. cbn [JS.truthyOpt negb andb orb].
    destruct (Props.tagsName categoryKeywords.pet (normalizeTags tags)),
      (Props.tagsName categoryKeywords.nature (normalizeTags tags)),
      (Props.tagsName categoryKeywords.vehicle (normalizeTags tags));
      cbn [negb andb orb]; try reflexivity; repeat split; assumption.
Qed.

(** The route that updates the tags of an image, its database operations
    succeeding: for a file name no collection holds it answers 404 and
    changes nothing.  Otherwise the new automatic tags follow from the
    normalised tags: when a tag names a category, the flags of the
    categories named, the tokens of the tags as objects and, for a person,
    the person id the image had or else one the person store tracks
    afterwards; when no tag names a category, the tags of the original
    file name.  The route answers with the collection the image was found
    in, the collections of the destination documents of the new tags (one
    to four), the normalised tags and the new tags as shown by
    autoTagsToArray.  Afterwards the file name is stored exactly once in
    each collection of the answer and in no other, and a lookup returns a
    record with the normalised tags, the new automatic tags, organized
    reset to false with no organized paths, and the original name, path,
    type, size, embedding and upload date it had before.  The person store
    stays in order and is only extended, by at most one identity per
    normalised tag, and not at all when the image already had a person
    id. *)
Theorem updateTags_moves_the_image (name : string) (tags : list string) (now : Z)
  (store : PersonStore) (db : Database) :
  Spec.registryOrdered store ->
  let response := fst (fst (updateTags name tags now store db)) in
  let store' := snd (fst (updateTags name tags now store db)) in
  let db' := snd (updateTags name tags now store db) in
  (findImageByFilename name db = None ->
   response = NotFound /\ store' = store /\ db' = db) /\
  (forall existingImage,
     findImageByFilename name db = Some existingImage ->
     exists found auto,
       findImageByFilename name db' = Some found /\
       foundImage found
       = mkImage name
           (originalName (foundImage existingImage))
           (filepath (foundImage existingImage))
           (mimetype (foundImage existingImage))
           (size (foundImage existingImage))
           (embedding (foundImage existingImage))
           (normalizeTags tags)
           auto
           false []
           (uploadedAt (foundImage existingImage)) /\
       Props.retagged (normalizeTags tags) (autoTags (foundImage existingImage))
         (analyzeFilename
            (if JS.truthy (originalName (foundImage existingImage))
             then originalName (foundImage existingImage) else name))
         (getTrackedPersons store') auto /\
       response = TagsUpdated (foundCollection existingImage)
                    (map Props.reportName (Spec.syncTargets auto))
                    (normalizeTags tags)
                    (autoTagsToArray auto) /\
       1 <= List.length (Spec.syncTargets auto) <= 4 /\
       (forall c : Spec.CollectionName,
          Props.countName name (Props.storedIn c db')
          = if Props.reports (map Props.reportName (Spec.syncTargets auto)) c
            then 1 else 0) /\
       Props.countName name (allStoredImages db')
       = List.length (Spec.syncTargets auto) /\
       (JS.truthyOpt (person_id (autoTags (foundImage existingImage))) = true ->
        store' = store)) /\
  Spec.registryOrdered store' /\
  (exists added, store' = (store ++ added)%list /\
                 List.length added <= List.length (normalizeTags tags)).
Proof.
  intros Hord response store' db'. subst response store' db'.
  destruct (findImageByFilename name db) as [existingImage|] eqn:Hfound.
  - rewrite (updateTags_found name tags now store db existingImage Hfound).
    cbv zeta. cbn [fst snd].
    pose proof (found_has_name name db existingImage Hfound) as Hname.
    pose proof (retaggedTags_retagged existingImage name tags store Hord) as Hauto.
    set (auto := Props.retaggedTags existingImage name tags store) in *.
    set (updated := Props.updatedImageData existingImage name tags store).
    set (removed := snd (removeImageFromCollections name db)).
    assert (Hupname : filename updated = name) by exact Hname.
    assert (Huptags : autoTags updated = auto) by reflexivity.
    assert (Hzero : Props.countName (filename updated) (allStoredImages removed) = 0)
      by (rewrite Hupname; apply remove_count).
    pose proof (lookup_fresh updated now removed Hzero) as Hlook.
    rewrite Hupname in Hlook.
    destruct (retag_fold_store existingImage (normalizeTags tags) emptyTags store Hord)
      as [Hord' Hext].
    destruct (add_report updated now removed) as [Hreport _].
    rewrite Huptags in Hreport.
    destruct (addedTo_folders updated now removed) as (_ & _ & Hlen).
    rewrite Hreport, length_map in Hlen.
    split; [intros H; discriminate H|]. split; [|split; [exact Hord' | exact Hext]].
    intros existing' [= <-].
    destruct (findImageByFilename name (snd (addImageToCollections updated now removed)))
      as [found|] eqn:Hafter; [|discriminate Hlook].
    simpl in Hlook. injection Hlook as Himage.
    exists found, auto. rewrite Hreport.
    split; [reflexivity|]. split.
    { rewrite Himage. unfold updated, Props.updatedImageData. cbv zeta.
      now rewrite Hname. }
    split; [exact Hauto|]. split; [reflexivity|]. split; [exact Hlen|].
    split; [|split].
    + intros c. rewrite <- Hupname at 1. rewrite add_count_in, Hreport.
      rewrite (countName_zero (filename updated) (Props.storedIn c removed)).
      * now rewrite countName_self.
      * intros i Hi. apply storedIn_stored in Hi. rewrite Hupname.
        exact (removeImageFromCollections_no_occurrence _ _ _ Hi).
    + rewrite <- Hupname at 1. rewrite add_count, Hzero, Hreport, length_map.
      rewrite countName_self. lia.
    + intros Hid. unfold Props.retagLoop. now apply retag_fold_untouched.
  - unfold updateTags. rewrite Hfound. cbn [fst snd].
    split; [intros _; repeat split|]. split; [intros e H; discriminate H|].
    split; [exact Hord|].
    exists []. split; [now rewrite List.app_nil_r | simpl; lia].
Qed.

Lemma updateTags_moves_the_image_witness :
  Spec.registryOrdered [] /\
  Spec.registryOrdered
    (snd (fst (updateTags "dog.jpg" [" Sunset "; "family trip"] 5 []
                 (snd (addImageToCollections Sample.dogImage 1 Sample.emptyDb))))).
Proof.
  split.
  - reflexivity.
  - exact (proj1 (proj2 (proj2
             (updateTags_moves_the_image "dog.jpg" [" Sunset "; "family trip"] 5 []
                (snd (addImageToCollections Sample.dogImage 1 Sample.emptyDb))
                eq_refl)))).
Defined.

End Retagging.

(* ================================================================== *)
(** * The earlier classification by file name *)
(* ================================================================== *)

Section EarlierVersion.

Import ImageProcessor.

Lemma plainChar_kept (c : ascii) :
  Props.plainChar c = true ->
  (if JS.isSeparator c then " "%char else c) = c /\ JS.lowerChar c = c.
Proof.
  unfold Props.plainChar. intros H. apply andb_prop in H as [Hsep Hlow].
  apply negb_true_iff in Hsep. rewrite Hsep.
  split; [reflexivity | now apply Ascii.eqb_eq].
Qed.

Lemma plain_lowered (k : string) : Props.plain k = true -> JS.toLowerCase k = k.
Proof.
  induction k as [|c k IH]; simpl; intros H; [reflexivity|].
  apply andb_prop in H as [Hc Hk].
  destruct (plainChar_kept c Hc) as [_ ->]. now rewrite IH.
Qed.

Lemma startsWith_replaceSeparators (k text : string) :
  Props.plain k = true ->
  JS.startsWith text k = true ->
  JS.startsWith (JS.replaceSeparators text) k = true.
Proof.
  revert text; induction k as [|c k IH]; intros text Hk H.
  - destruct text; reflexivity.
  - destruct text as [|d text]; [discriminate H|].
    simpl in Hk. apply andb_prop in Hk as [Hc Hk].
    simpl in H. apply andb_prop in H as [Hcd Hrest].
    apply Ascii.eqb_eq in Hcd. subst d.
    simpl. destruct (plainChar_kept c Hc) as [-> _].
    rewrite Ascii.eqb_refl. simpl. now apply IH.
Qed.

Lemma includes_replaceSeparators (k text : string) :
  Props.plain k = true ->
  JS.includes text k = true ->
  JS.includes (JS.replaceSeparators text) k = true.
Proof.
  intros Hk. induction text as [|d text IH]; intros H.
  - simpl in *. rewrite orb_false_r in *.
    now apply (startsWith_replaceSeparators k EmptyString).
  - cbn [JS.includes] in H. apply orb_prop in H as [H|H].
    + apply (startsWith_replaceSeparators k _ Hk) in H.
      cbn [JS.replaceSeparators JS.includes] in *. now rewrite H.
    + cbn [JS.replaceSeparators JS.includes]. rewrite (IH H). apply orb_true_r.
Qed.

Lemma matchExact_startsWith (lit text : string) (prev : option ascii) :
  JS.matchExact lit text prev <> None -> JS.startsWith text lit = true.
Proof.
  revert text prev; induction lit as [|k lit IH]; intros text prev H.
  - destruct text; reflexivity.
  - destruct text as [|c text]; [now contradiction H|].
    simpl in *. destruct (Ascii.eqb k c); [|now contradiction H].
    simpl. now apply (IH text (Some c)).
Qed.

Lemma alternativeHere_startsWith (alternatives : list string)
  (prev : option ascii) (text : string) :
  JS.alternativeHere alternatives prev text = true ->
  exists k, In k alternatives /\ JS.startsWith text k = true.
Proof.
  unfold JS.alternativeHere. intros H. apply andb_prop in H as [_ H].
  apply existsb_exists in H as (k & Hin & Hk). exists k. split; [exact Hin|].
  apply (matchExact_startsWith k text prev).
  destruct (JS.matchExact k text prev); [discriminate | discriminate Hk].
Qed.

Lemma searchAlternatives_includes (alternatives : list string)
  (prev : option ascii) (text : string) :
  JS.searchAlternatives alternatives prev text = true ->
  exists k, In k alternatives /\ JS.includes text k = true.
Proof.
  revert prev; induction text as [|c text IH]; intros prev H;
    cbn [JS.searchAlternatives] in H; apply orb_prop in H as [H|H].
  - apply alternativeHere_startsWith in H as (k & Hin & Hk).
    exists k. split; [exact Hin|]. cbn [JS.includes]. now rewrite Hk.
  - discriminate H.
  - apply alternativeHere_startsWith in H as (k & Hin & Hk).
    exists k. split; [exact Hin|]. cbn [JS.includes]. now rewrite Hk.
  - apply IH in H as (k & Hin & Hk).
    exists k. split; [exact Hin|]. cbn [JS.includes]. rewrite Hk. apply orb_true_r.
Qed.

(** A pattern of the earlier version whose alternatives are plain
    keywords of the lists: where the pattern matches the lowered name,
    [containsKeyword] finds a keyword in the name. *)
Lemma pattern_found (alternatives : list string) (keywordLists : list (list string))
  (filename : string) :
  Props.patternCovered alternatives keywordLists = true ->
  forallb JS.truthy (List.concat keywordLists) = true ->
  JS.wordsRegexTest alternatives (JS.toLowerCase filename) = true ->
  JS.truthyOpt (containsKeyword filename keywordLists false) = true.
Proof.
  intros Hcov Hfull Hmatch.
  apply searchAlternatives_includes in Hmatch as (k & Hin & Hk).
  unfold Props.patternCovered in Hcov. rewrite forallb_forall in Hcov.
  specialize (Hcov k Hin). apply andb_prop in Hcov as [Hplain Hlist].
  apply arrayIncludes_In in Hlist.
  apply (includes_replaceSeparators k _ Hplain) in Hk.
  unfold containsKeyword.
  destruct (find _ _) as [k'|] eqn:Hfind.
  - apply find_some in Hfind as [Hin' _].
    rewrite forallb_forall in Hfull. exact (Hfull k' Hin').
  - apply (find_none _ _ Hfind) in Hlist.
    unfold keywordMatches in Hlist. rewrite (plain_lowered k Hplain), Hk in Hlist.
    rewrite orb_true_r in Hlist. discriminate Hlist.
Qed.

Lemma searchAlternatives_subset (small large : list string) (prev : option ascii)
  (text : string) :
  incl small large ->
  JS.searchAlternatives small prev text = true ->
  JS.searchAlternatives large prev text = true.
Proof.
  intros Hincl. revert prev; induction text as [|c text IH]; intros prev H;
    cbn [JS.searchAlternatives] in *; apply orb_prop in H as [H|H];
    try discriminate H.
  - unfold JS.alternativeHere in *. apply andb_prop in H as [Hb H].
    apply existsb_exists in H as (k & Hin & Hk).
    rewrite Hb. simpl. rewrite orb_false_r.
    apply existsb_exists. exists k. split; [now apply Hincl | exact Hk].
  - unfold JS.alternativeHere in *. apply andb_prop in H as [Hb H].
    apply existsb_exists in H as (k & Hin & Hk).
    rewrite Hb. simpl. apply orb_true_iff. left.
    apply existsb_exists. exists k. split; [now apply Hincl | exact Hk].
  - rewrite (IH _ H). apply orb_true_r.
Qed.

Lemma earlier_categories (embedding : Embedding) (filename : string) :
  let lowerName := JS.toLowerCase filename in
  (In "vehicle" (ImageProcessorOld.determineCategories embedding filename) <->
   JS.wordsRegexTest ImageProcessorOld.Patterns.vehicle lowerName = true) /\
  (In "pet" (ImageProcessorOld.determineCategories embedding filename) <->
   JS.wordsRegexTest ImageProcessorOld.Patterns.pet lowerName = true) /\
  (In "nature" (ImageProcessorOld.determineCategories embedding filename) <->
   JS.wordsRegexTest ImageProcessorOld.Patterns.nature lowerName = true).
Proof.
  cbv zeta. unfold ImageProcessorOld.determineCategories.
  destruct (JS.wordsRegexTest ImageProcessorOld.Patterns.vehicle _),
    (JS.wordsRegexTest ImageProcessorOld.Patterns.pet _),
    (JS.wordsRegexTest ImageProcessorOld.Patterns.nature _),
    (JS.wordsRegexTest ImageProcessorOld.Patterns.person _),
    (JS.includes _ "whatsapp"),
    (JS.prefixRegexTest ImageProcessorOld.Patterns.camera _);
    cbn; repeat split; intros H; try reflexivity; try discriminate H;
    repeat (destruct H as [H|H]; try discriminate H); tauto.
Qed.

Lemma categoriesOfFlags_In (v p n q : bool) :
  (v = true -> In "vehicle" (Spec.categoriesOfFlags v p n q)) /\
  (p = true -> In "pet" (Spec.categoriesOfFlags v p n q)) /\
  (n = true -> In "nature" (Spec.categoriesOfFlags v p n q)).
Proof.
  destruct v, p, n, q; cbn; repeat split; intros H; try discriminate H; tauto.
Qed.

(** Every vehicle, pet or nature verdict of the earlier determineCategories
    is kept by the later one: the alternatives of the earlier patterns
    are keywords of the later lists, and a match between word boundaries
    in the lowered name is still a substring once the separators are
    blanked.  The person verdict is not kept: the earlier version takes
    "me.jpg" for a person, the later one finds no keyword in it. *)
Theorem later_version_keeps_earlier_verdicts (embedding : Embedding)
  (filename category : string) :
  In category ["vehicle"; "pet"; "nature"] ->
  In category (ImageProcessorOld.determineCategories embedding filename) ->
  In category (determineCategories embedding filename) /\
  In "person" (ImageProcessorOld.determineCategories embedding "me.jpg") /\
  keywordCategories "me.jpg" = [].
Proof.
  intros Hcat Hold. split; [|split; [vm_compute; tauto | vm_compute; reflexivity]].
  destruct (earlier_categories embedding filename) as (Hv & Hp & Hn).
  pose proof (keywordCategories_flags filename) as Hflags.
  destruct (categoriesOfFlags_In
              (JS.truthyOpt (containsKeyword filename vehicleLists false))
              (JS.truthyOpt (containsKeyword filename petLists false))
              (JS.truthyOpt (containsKeyword filename natureLists false))
              (JS.truthyOpt (containsKeyword filename personLists false) ||
               JS.truthyOpt (containsKeyword filename nameLists true)))
    as (Hv' & Hp' & Hn').
  rewrite <- Hflags in Hv', Hp', Hn'.
  assert (Hkey : In category (keywordCategories filename)).
  { destruct Hcat as [<-|[<-|[<-|[]]]].
    - apply Hv'. apply (pattern_found ImageProcessorOld.Patterns.vehicle);
        [vm_compute; reflexivity | vm_compute; reflexivity | now apply Hv].
    - apply Hp'. apply (pattern_found ImageProcessorOld.Patterns.pet);
        [vm_compute; reflexivity | vm_compute; reflexivity | now apply Hp].
    - apply Hn'. apply (pattern_found ImageProcessorOld.Patterns.nature);
        [vm_compute; reflexivity | vm_compute; reflexivity | now apply Hn]. }
  rewrite determineCategories_keywords; [exact Hkey|].
  intros Hnil. rewrite Hnil in Hkey. exact Hkey.
Qed.

Lemma later_version_keeps_earlier_verdicts_witness :
  In "vehicle" ["vehicle"; "pet"; "nature"] /\
  In "vehicle" (ImageProcessorOld.determineCategories [] "My car (2).JPG") /\
  In "vehicle" (determineCategories [] "My car (2).JPG").
Proof.
  assert (H1 : In "vehicle" ["vehicle"; "pet"; "nature"]) by (simpl; tauto).
  assert (H2 : In "vehicle" (ImageProcessorOld.determineCategories [] "My car (2).JPG"))
    by (vm_compute; tauto).
  split; [exact H1|]. split; [exact H2|].
  exact (proj1 (later_version_keeps_earlier_verdicts [] "My car (2).JPG" "vehicle" H1 H2)).
Defined.

(** The earlier analyzeFilename gives one verdict only, with one entry in
    objects; a vehicle, pets or nature flag it sets is a category of the
    earlier determineCategories for the same name, and the folder the
    earlier determineFolderPath derives from it is that of the verdict.
    A person id is set only for a name containing whatsapp, and only when
    none of the three flags is. *)
Theorem earlier_analyzeFilename_single_verdict (embedding : Embedding)
  (filename : string) (customTags : list string) :
  let t := ImageProcessorOld.analyzeFilename filename in
  let categories := ImageProcessorOld.determineCategories embedding filename in
  List.length (objects t) = 1 /\
  (vehicle t = true ->
   In "vehicle" categories /\ pets t = false /\ nature t = false /\
   person_id t = None /\
   ImageProcessorOld.determineFolderPath t customTags = "vehicles") /\
  (pets t = true ->
   In "pet" categories /\ vehicle t = false /\ nature t = false /\
   person_id t = None /\
   ImageProcessorOld.determineFolderPath t customTags = "pets") /\
  (nature t = true ->
   In "nature" categories /\ vehicle t = false /\ pets t = false /\
   person_id t = None /\
   ImageProcessorOld.determineFolderPath t customTags = "nature") /\
  (person_id t <> None ->
   person_id t = Some "person_0001" /\
   JS.includes (JS.toLowerCase filename) "whatsapp" = true /\
   vehicle t = false /\ pets t = false /\ nature t = false /\
   ImageProcessorOld.determineFolderPath t customTags = "people/person_0001").
Proof.
  cbv zeta.
  destruct (earlier_categories embedding filename) as (Hv & Hp & Hn).
  assert (Hpets : JS.wordsRegexTest ImageProcessorOld.Patterns.petHints
                    (JS.toLowerCase filename) = true ->
                  JS.wordsRegexTest ImageProcessorOld.Patterns.pet
                    (JS.toLowerCase filename) = true).
  { apply searchAlternatives_subset. intros k Hk. vm_compute in Hk |- *. tauto. }
  assert (Hnature : JS.wordsRegexTest ImageProcessorOld.Patterns.natureHints
                      (JS.toLowerCase filename) = true ->
                    JS.wordsRegexTest ImageProcessorOld.Patterns.nature
                      (JS.toLowerCase filename) = true).
  { apply searchAlternatives_subset. intros k Hk. vm_compute in Hk |- *. tauto. }
  unfold ImageProcessorOld.analyzeFilename.
  destruct (JS.wordsRegexTest ImageProcessorOld.Patterns.vehicle _) eqn:Ev;
    [|destruct (JS.wordsRegexTest ImageProcessorOld.Patterns.petHints _) eqn:Ep;
      [|destruct (JS.wordsRegexTest ImageProcessorOld.Patterns.natureHints _) eqn:En;
        [|destruct (JS.includes _ "whatsapp") eqn:Ew]]];
    cbn [objects vehicle pets nature person_id pushObject setVehicle setPets
         setNature setPersonId emptyTags push List.length app
         ImageProcessorOld.determineFolderPath JS.truthy];
    repeat match goal with
           | |- _ /\ _ => split
           | |- _ -> _ => intro
           end;
    try reflexivity; try discriminate; try congruence.
  - now apply Hv.
  - apply Hp. now apply Hpets.
  - apply Hn. now apply Hnature.
Qed.

End EarlierVersion.
